(** * fundAndUploadNestedBundle: the upload orchestration and its SDK boundary

    The first-party logic of the repository is the file
    [src/app/utils/fundAndUploadNestedBundle.ts]: five functions that wrap
    files into data items, build a manifest, bundle everything and hand the
    bundle to a chunked uploader.  Everything else (hashing, signing,
    chunking, transport) happens inside the arbundles / Irys / Arweave SDK.

    The embedding keeps that boundary explicit.  SDK data is opaque (an
    interface of types and property reads, [Sdk]); every SDK call that the
    code makes is a node of a finite program tree whose answer is chosen by
    the environment: either a value or a thrown exception.  The functions
    of the source are programs in the exception monad over these trees,
    written in source order.  The files are prepared by async functions
    handed to [Promise.all]: these are tasks that run concurrently, each
    from one [await] to the next, and go on when [Promise.all] has
    rejected.  [runs p t r] says that [t] is a complete record of one
    execution of [p] (calls with their answers, console output, in the
    order in which they happen) and [r] its result; [run] computes one such
    execution from an oracle. *)

From Stdlib Require Import List String ZArith Lia Bool Permutation.
Import ListNotations.
Open Scope string_scope.

(** ** JavaScript arrays and [Map] *)

Module Js.

(** [a[i]] for a number [i]: [undefined] (here [None]) out of range,
    negative indices included. *)
Definition index {A} (a : list A) (i : Z) : option A :=
  if (i <? 0)%Z then None else nth_error a (Z.to_nat i).

(** [a.length] as a JavaScript number. *)
Definition length {A} (a : list A) : Z := Z.of_nat (List.length a).

(** A [Map<string, V>] is its list of entries in insertion order; keys
    are pairwise different ([wf]). *)
Definition Map (V : Type) : Type := list (string * V).

Definition keys {V} (m : Map V) : list string := List.map fst m.
Definition values {V} (m : Map V) : list V := List.map snd m.
Definition entries {V} (m : Map V) : list (string * V) := m.

Definition wf {V} (m : Map V) : Prop := NoDup (keys m).

Fixpoint get {V} (m : Map V) (k : string) : option V :=
  match m with
  | [] => None
  | (k', v) :: m' => if String.eqb k k' then Some v else get m' k
  end.

(** [m.set(k, v)]: an existing key keeps its place and takes the new
    value, a new key goes to the end. *)
Fixpoint set {V} (m : Map V) (k : string) (v : V) : Map V :=
  match m with
  | [] => [(k, v)]
  | (k', v') :: m' =>
      if String.eqb k k' then (k', v) :: m' else (k', v') :: set m' k v
  end.

(** [new Map(iterable)]: [set] for each entry, in order. *)
Definition new_Map {V} (es : list (string * V)) : Map V :=
  fold_left (fun m e => set m (fst e) (snd e)) es [].

(** [set] for each entry of [es], in order, starting from [m]. *)
Definition build {V} (m : Map V) (es : list (string * V)) : Map V :=
  fold_left (fun m e => set m (fst e) (snd e)) es m.

(** The value of the last entry with key [k]. *)
Fixpoint last_with {V} (k : string) (es : list (string * V)) : option V :=
  match es with
  | [] => None
  | (k', v) :: es' =>
      match last_with k es' with
      | Some v' => Some v'
      | None => if String.eqb k k' then Some v else None
      end
  end.

End Js.

(** ** Browser and SDK data *)

Definition bytes : Type := list Byte.byte.

(** [type Tag = { name: string; value: string }] *)
Record Tag : Type := { name : string; value : string }.

(** A browser [File]: the code reads [file.name], [file.type] and awaits
    [file.arrayBuffer()].  [file_blob] stands for the identity of the
    underlying blob, whose bytes only [arrayBuffer()] gives. *)
Record File : Type := { file_name : string; file_type : string; file_blob : nat }.

(** The first argument of [createData]: [string | Uint8Array]. *)
Inductive Data : Type :=
| Binary (b : bytes)
| Text (s : string).

(** Payloads of the chunked uploader's events, with the fields the
    listeners print (as the template literal renders them). *)
Record ChunkInfo : Type :=
  { chunk_id : string; chunk_offset : string; chunk_size : string;
    chunk_totalUploaded : string }.
Record ChunkError : Type := { err_id : string; err_statusText : string }.
Record FinishRes : Type := { finish_id : string }.

(** The SDK's types, used opaquely, with the property reads the code makes
    on them. *)
Class Sdk : Type := {
  JWK : Type;
  Signer : Type;            (* ArweaveSigner *)
  DataItem : Type;
  Bundle : Type;
  Manifest : Type;
  Irys : Type;              (* what getIrys() resolves to *)
  Uploader : Type;          (* ChunkingUploader *)
  Transaction : Type;
  Receipt : Type;           (* AxiosResponse<UploadResponse> *)
  SdkError : Type;          (* what an SDK call may throw *)
  item_id : DataItem -> string;                 (* item.id *)
  bundle_items : Bundle -> list DataItem;       (* bundle.items *)
  bundle_getRaw : Bundle -> bytes;              (* bundle.getRaw() *)
  chunkedUploader : Irys -> Uploader;           (* irys.uploader.chunkedUploader *)
  receipt_data_id : Receipt -> string;          (* receipt.data.id *)
  JSON_stringify : Manifest -> string           (* JSON.stringify(manifest) *)
}.

Section Orchestration.

Context {sdk : Sdk}.

(** A thrown JavaScript value: something the SDK threw, or the
    [TypeError] of reading a property of [undefined]. *)
Inductive Thrown : Type :=
| SdkThrown (e : SdkError)
| TypeError (msg : string).

(** One console line: [console.log(...args)]. *)
Inductive LogArg : Type :=
| LStr (s : string)
| LThrown (e : Thrown).

Inductive LogLine : Type :=
| ConsoleLog (args : list LogArg)
| ConsoleError (args : list LogArg).

(** A listener given to [uploader.on(event, listener)]: what it prints
    for an event payload. *)
Inductive Listener : Type :=
| OnChunkUpload (f : ChunkInfo -> LogLine)
| OnChunkError (f : ChunkError -> LogLine)
| OnDone (f : FinishRes -> LogLine).

(** The awaited calls across the SDK boundary.  A method that changes its
    receiver ([item.sign], [tx.sign], [uploader.on]) answers with the
    receiver after the change. *)
Inductive call : Type :=
| GenerateJWK                                           (* Arweave.crypto.generateJWK() *)
| NewArweaveSigner (jwk : JWK)                          (* new ArweaveSigner(jwk) *)
| ArrayBuffer (file : File)                             (* file.arrayBuffer() *)
| CreateData (data : Data) (signer : Signer) (tags : list Tag)
| ItemSign (item : DataItem) (signer : Signer)          (* item.sign(signer) *)
| GetIrys                                               (* getIrys() *)
| GenerateManifest (irys : Irys) (items : Js.Map string)
| BundleAndSignData (items : list DataItem) (signer : Signer)
| UploaderOn (u : Uploader) (event : string) (l : Listener)
| CreateTransaction (irys : Irys) (data : bytes) (tags : list Tag)
| TxSign (tx : Transaction)                             (* tx.sign() *)
| UploadTransaction (u : Uploader) (tx : Transaction).

(** The type of a call's value. *)
Definition resp (c : call) : Type :=
  match c with
  | GenerateJWK => JWK
  | NewArweaveSigner _ => Signer
  | ArrayBuffer _ => bytes
  | CreateData _ _ _ => DataItem
  | ItemSign _ _ => DataItem
  | GetIrys => Irys
  | GenerateManifest _ _ => Manifest
  | BundleAndSignData _ _ => Bundle
  | UploaderOn _ _ _ => Uploader
  | CreateTransaction _ _ _ => Transaction
  | TxSign _ => Transaction
  | UploadTransaction _ _ => Receipt
  end.

(** How a call ends: it throws (the promise rejects) or gives its value. *)
Definition outcome (c : call) : Type := (Thrown + resp c)%type.

(** ** Tasks and programs *)

(** The body of one async function that starts no further concurrent
    work: a finite tree of calls with result [R].  A call is [awaited]
    when the code writes [await] in front of it: the function is then
    suspended until the promise settles; a call that is not awaited gives
    its result at once. *)
Inductive Task (R : Type) : Type :=
| TRet (r : R)
| TCall (awaited : bool) (c : call) (k : outcome c -> Task R)
| TLog (l : LogLine) (k : Task R).

Arguments TRet {R} r.
Arguments TCall {R} awaited c k.
Arguments TLog {R} l k.

Fixpoint tpbind {A B} (p : Task A) (f : A -> Task B) : Task B :=
  match p with
  | TRet a => f a
  | TCall w c k => TCall w c (fun o => tpbind (k o) f)
  | TLog l k => TLog l (tpbind k f)
  end.

(** A finite tree of interactions with result [R].  [All tasks k] is
    [Promise.all] over async functions that have just been called: the
    tasks run concurrently, and [k] goes on with the array of their values
    or with the first rejection. *)
Inductive Prog (R : Type) : Type :=
| Ret (r : R)
| Call (c : call) (k : outcome c -> Prog R)
| Log (l : LogLine) (k : Prog R)
| All (B : Type) (tasks : list (Task (Thrown + B)))
      (k : Thrown + list B -> Prog R).

Arguments Ret {R} r.
Arguments Call {R} c k.
Arguments Log {R} l k.
Arguments All {R B} tasks k.

Fixpoint pbind {A B} (p : Prog A) (f : A -> Prog B) : Prog B :=
  match p with
  | Ret a => f a
  | Call c k => Call c (fun o => pbind (k o) f)
  | Log l k => Log l (pbind k f)
  | All tasks k => All tasks (fun r => pbind (k r) f)
  end.

(** An async function body: it completes with a value ([inr]) or throws
    ([inl]); a throw skips the rest. *)
Definition M (A : Type) : Type := Prog (Thrown + A).

Definition ret {A} (a : A) : M A := Ret (inr a).
Definition throw {A} (e : Thrown) : M A := Ret (inl e).

Definition bind {A B} (p : M A) (f : A -> M B) : M B :=
  pbind p (fun r => match r with inl e => Ret (inl e) | inr a => f a end).

(** [await c] *)
Definition await (c : call) : M (resp c) := Call c (fun o => Ret o).

Definition console (l : LogLine) : M unit := Log l (Ret (inr tt)).

(** [try { p } catch (e) { h e }]; the result is [None] when control
    falls out of the statement without a [return]. *)
Definition try_catch {A} (p : M A) (h : Thrown -> M (option A)) : M (option A) :=
  pbind p (fun r => match r with inl e => h e | inr a => Ret (inr (Some a)) end).

(** The same for the body of a task. *)
Definition TM (A : Type) : Type := Task (Thrown + A).

Definition tret {A} (a : A) : TM A := TRet (inr a).

Definition tbind {A B} (p : TM A) (f : A -> TM B) : TM B :=
  tpbind p (fun r => match r with inl e => TRet (inl e) | inr a => f a end).

(** [await c] and plain [c] inside a task. *)
Definition tawait (c : call) : TM (resp c) := TCall true c (fun o => TRet o).
Definition tcall (c : call) : TM (resp c) := TCall false c (fun o => TRet o).

End Orchestration.

Arguments TRet {sdk R} r.
Arguments TCall {sdk R} awaited c k.
Arguments TLog {sdk R} l k.
Arguments Ret {sdk R} r.
Arguments Call {sdk R} c k.
Arguments Log {sdk R} l k.
Arguments All {sdk R B} tasks k.

Declare Scope js_scope.
Delimit Scope js_scope with js.
Notation "x <- p ;; q" := (bind p (fun x => q))
  (at level 61, p at next level, right associativity) : js_scope.
Notation "p ;;; q" := (bind p (fun _ => q))
  (at level 61, right associativity) : js_scope.
Open Scope js_scope.

Declare Scope task_scope.
Delimit Scope task_scope with task.
Notation "x <- p ;; q" := (tbind p (fun x => q))
  (at level 61, p at next level, right associativity) : task_scope.

(** ** The functions of [fundAndUploadNestedBundle.ts] *)

Section Source.

Context {sdk : Sdk}.

(** [Promise.all(xs.map(f))] with [f] an async function: every [f x] is
    called, in order, and runs up to its first [await]; the promises
    returned are handed to [Promise.all]. *)
Definition promise_all_map {A B} (f : A -> TM B) (xs : list A) : M (list B) :=
  All (List.map f xs) (fun r => Ret r).

Definition content_type_tag (file : File) : Tag :=
  {| name := "Content-Type"; value := file_type file |}.

Definition prepareFile (file : File) (ephemeralSigner : Signer) : TM DataItem :=
  (buffer <- tawait (ArrayBuffer file) ;;
   item <- tcall (CreateData (Binary buffer) ephemeralSigner [content_type_tag file]) ;;
   item <- tawait (ItemSign item ephemeralSigner) ;;
   tret item)%task.

Definition prepareFiles (files : list File) (ephemeralSigner : Signer)
  : M (Js.Map DataItem) :=
  items <- promise_all_map
             (fun file =>
                (item <- prepareFile file ephemeralSigner ;;
                 tret (file_name file, item))%task)
             files ;;
  ret (Js.new_Map items).

Definition manifest_tags : list Tag :=
  [ {| name := "Type"; value := "manifest" |};
    {| name := "Content-Type"; value := "application/x.arweave-manifest+json" |} ].

Definition pathMap_of (itemMap : Js.Map DataItem) : Js.Map string :=
  Js.new_Map (List.map (fun e => (fst e, item_id (snd e))) (Js.entries itemMap)).

Definition bundleItems (itemMap : Js.Map DataItem) (ephemeralSigner : Signer)
  : M Bundle :=
  irys <- await GetIrys ;;
  let pathMap := pathMap_of itemMap in
  manifest <- await (GenerateManifest irys pathMap) ;;
  manifestItem <- await (CreateData (Text (JSON_stringify manifest))
                                    ephemeralSigner manifest_tags) ;;
  bundle <- await (BundleAndSignData (Js.values itemMap ++ [manifestItem])
                                     ephemeralSigner) ;;
  ret bundle.

(** The three listeners of [uploadBundle]. *)
Definition on_chunkUpload : Listener :=
  OnChunkUpload (fun chunkInfo =>
    ConsoleLog [LStr ("Chunked Event: Uploaded Chunk number " ++ chunk_id chunkInfo
                      ++ ", offset of " ++ chunk_offset chunkInfo
                      ++ ", size " ++ chunk_size chunkInfo
                      ++ " Bytes, with a total of " ++ chunk_totalUploaded chunkInfo
                      ++ " bytes uploaded.")]).

Definition on_chunkError : Listener :=
  OnChunkError (fun e =>
    ConsoleError [LStr ("Chunked Event: Error uploading chunk number " ++ err_id e
                        ++ " - " ++ err_statusText e)]).

Definition on_done : Listener :=
  OnDone (fun finishRes =>
    ConsoleLog [LStr ("Chunked Event: Upload completed with ID " ++ finish_id finishRes)]).

Definition bundle_tags : list Tag :=
  [ {| name := "Bundle-Format"; value := "binary" |};
    {| name := "Bundle-Version"; value := "2.0.0" |} ].

(** [bundle.items[bundle.items.length - 1].id]: reading [.id] of
    [undefined] throws. *)
Definition last_item_id (bundle : Bundle) : M string :=
  match Js.index (bundle_items bundle) (Js.length (bundle_items bundle) - 1) with
  | Some item => ret (item_id item)
  | None => throw (TypeError "Cannot read properties of undefined (reading 'id')")
  end.

Definition uploadBundle (bundle : Bundle) : M (list string) :=
  irys <- await GetIrys ;;
  let uploader := chunkedUploader irys in
  uploader <- await (UploaderOn uploader "chunkUpload" on_chunkUpload) ;;
  uploader <- await (UploaderOn uploader "chunkError" on_chunkError) ;;
  uploader <- await (UploaderOn uploader "done" on_done) ;;
  tx <- await (CreateTransaction irys (bundle_getRaw bundle) bundle_tags) ;;
  tx <- await (TxSign tx) ;;
  receipt <- await (UploadTransaction uploader tx) ;;
  manifestId <- last_item_id bundle ;;
  ret [manifestId; receipt_data_id receipt].

(** The body of the [try] block.  [const [manifestId, receiptId] = ...]
    takes the elements at 0 and 1; the array it destructures always has
    two elements ([uploadBundle_two] below). *)
Definition upload_attempt (files : list File) : M (list string) :=
  jwk <- await GenerateJWK ;;
  ephemeralSigner <- await (NewArweaveSigner jwk) ;;
  preppedFiles <- prepareFiles files ephemeralSigner ;;
  bundle <- bundleItems preppedFiles ephemeralSigner ;;
  ids <- uploadBundle bundle ;;
  let manifestId := nth 0 ids "" in
  let receiptId := nth 1 ids "" in
  ret [manifestId; receiptId].

Definition fundAndUploadNestedBundle (files : list File) : M (list string) :=
  returned <- try_catch (upload_attempt files)
                (fun e =>
                   console (ConsoleLog [LStr "Error on upload:"; LThrown e]) ;;;
                   ret None) ;;
  match returned with
  | Some ids => ret ids
  | None => ret [""; ""]
  end.

End Source.

(** ** Executions *)

Section Semantics.

Context {sdk : Sdk}.
Local Open Scope list_scope.

(** What can be observed of an execution, step by step.  A call is
    recorded when it is made, together with the way it ends (for an
    awaited call: the way its promise settles, which the caller learns
    when it is resumed). *)
Inductive Entry : Type :=
| Called (c : call) (o : outcome c)
| Logged (l : LogLine).

Definition Trace : Type := list Entry.

(** *** One task *)

(** [truns p t r]: the task [p], taken alone from start to end, performs
    [t] and ends with [r]. *)
Fixpoint truns {R} (p : Task R) (t : Trace) (r : R) : Prop :=
  match p with
  | TRet r' => t = [] /\ r = r'
  | TCall _ c k => exists o t', t = Called c o :: t' /\ truns (k o) t' r
  | TLog l k => exists t', t = Logged l :: t' /\ truns k t' r
  end.

(** A task among others: suspended on a promise, to go on as [p] when it
    is resumed, or over with result [r]. *)
Inductive Slot (R : Type) : Type :=
| Waiting (p : Task R)
| Over (r : R).

Arguments Waiting {R} p.
Arguments Over {R} r.

(** [stretch p t s]: resumed as [p], the task runs without interruption:
    it performs [t] and is then in state [s], suspended on the call it
    has just made and awaits, or over. *)
Fixpoint stretch {R} (p : Task R) (t : Trace) (s : Slot R) : Prop :=
  match p with
  | TRet r => t = [] /\ s = Over r
  | TCall w c k =>
      exists o,
        if w then t = [Called c o] /\ s = Waiting (k o)
        else exists t', t = Called c o :: t' /\ stretch (k o) t' s
  | TLog l k => exists t', t = Logged l :: t' /\ stretch k t' s
  end.

(** *** The tasks of one [Promise.all] *)

(** The first task, in the order of the array, that is over with a
    rejection. *)
Fixpoint first_rejected {B} (pool : list (Slot (Thrown + B))) : option Thrown :=
  match pool with
  | [] => None
  | Over (inl e) :: _ => Some e
  | _ :: pool' => first_rejected pool'
  end.

(** The values of the tasks when all of them are over with a value. *)
Fixpoint fulfilled {B} (pool : list (Slot (Thrown + B))) : option (list B) :=
  match pool with
  | [] => Some []
  | Over (inr b) :: pool' => option_map (cons b) (fulfilled pool')
  | _ :: _ => None
  end.

Definition is_over {R} (s : Slot R) : bool :=
  match s with
  | Over _ => true
  | Waiting _ => false
  end.

(** Calling the async functions: each runs at once up to its first
    [await], in the order of the array. *)
Inductive starts {R} : list (Task R) -> Trace -> list (Slot R) -> Prop :=
| starts_nil : starts [] [] []
| starts_cons p t s ps ts ss :
    stretch p t s -> starts ps ts ss ->
    starts (p :: ps) (t ++ ts) (s :: ss).

(** Until [Promise.all] settles.  As long as no task has rejected, one of
    the suspended tasks is resumed and runs its next stretch; which one is
    the environment's choice (it is the one whose promise settles first).
    [Promise.all] rejects as soon as a task has rejected, and is fulfilled
    when every task is over with a value.  The last argument is the state
    of the tasks at that moment. *)
Inductive races {B} :
  list (Slot (Thrown + B)) -> Trace -> Thrown + list B ->
  list (Slot (Thrown + B)) -> Prop :=
| races_rejected pool e :
    first_rejected pool = Some e -> races pool [] (inl e) pool
| races_fulfilled pool bs :
    fulfilled pool = Some bs -> races pool [] (inr bs) pool
| races_resume pre p post t s t' out others :
    first_rejected (pre ++ Waiting p :: post) = None ->
    stretch p t s ->
    races (pre ++ s :: post) t' out others ->
    races (pre ++ Waiting p :: post) (t ++ t') out others.

(** After a rejection the tasks that are still suspended go on to their
    end, stretch by stretch; their results are dropped. *)
Inductive drains {R} : list (Slot R) -> list Trace -> Prop :=
| drains_done pool : forallb is_over pool = true -> drains pool []
| drains_resume pre p post t s segs :
    stretch p t s ->
    drains (pre ++ s :: post) segs ->
    drains (pre ++ Waiting p :: post) (t :: segs).

(** [weave segs tk t]: [t] is [tk] with the stretches [segs] put in, in
    their order, each in one piece. *)
Inductive weave : list Trace -> Trace -> Trace -> Prop :=
| weave_done tk : weave [] tk tk
| weave_stretch s segs tk t : weave segs tk t -> weave (s :: segs) tk (s ++ t)
| weave_entry e segs tk t : weave segs tk t -> weave segs (e :: tk) (e :: t).

(** *** Programs *)

(** [runs p t r]: some behaviour of the environment makes [p] perform
    exactly [t] and end with [r].  After a rejected [Promise.all] the
    program goes on while the tasks that are left run to their end; [t]
    has their calls too, wherever they fall. *)
Fixpoint runs {R} (p : Prog R) (t : Trace) (r : R) : Prop :=
  match p with
  | Ret r' => t = [] /\ r = r'
  | Call c k => exists o t', t = Called c o :: t' /\ runs (k o) t' r
  | Log l k => exists t', t = Logged l :: t' /\ runs k t' r
  | All tasks k =>
      exists t0 pool t1 out others,
        starts tasks t0 pool /\ races pool t1 out others /\
        match out with
        | inr bs => exists t2, runs (k (inr bs)) t2 r /\ t = t0 ++ t1 ++ t2
        | inl e =>
            exists segs tk tail,
              drains others segs /\ runs (k (inl e)) tk r /\
              weave segs tk tail /\ t = t0 ++ t1 ++ tail
        end
  end.

(** A deterministic environment: the answer to a call, given all that
    happened before it. *)
Definition Oracle : Type := Trace -> forall c : call, outcome c.

Fixpoint run_task {R} (answer : Oracle) (p : Task R) (past : Trace) : Trace * R :=
  match p with
  | TRet r => ([], r)
  | TCall _ c k =>
      let o := answer past c in
      let (t, r) := run_task answer (k o) (past ++ [Called c o]) in
      (Called c o :: t, r)
  | TLog l k =>
      let (t, r) := run_task answer k (past ++ [Logged l]) in
      (Logged l :: t, r)
  end.

Fixpoint run_stretch {R} (answer : Oracle) (p : Task R) (past : Trace)
  : Trace * Slot R :=
  match p with
  | TRet r => ([], Over r)
  | TCall w c k =>
      let o := answer past c in
      if w then ([Called c o], Waiting (k o))
      else
        let (t, s) := run_stretch answer (k o) (past ++ [Called c o]) in
        (Called c o :: t, s)
  | TLog l k =>
      let (t, s) := run_stretch answer k (past ++ [Logged l]) in
      (Logged l :: t, s)
  end.

Fixpoint run_starts {R} (answer : Oracle) (ps : list (Task R)) (past : Trace)
  : Trace * list (Slot R) :=
  match ps with
  | [] => ([], [])
  | p :: ps' =>
      let (t, s) := run_stretch answer p past in
      let (ts, ss) := run_starts answer ps' (past ++ t) in
      (t ++ ts, s :: ss)
  end.

(** One schedule among those [races] allows: the promises of a task
    settle before those of the tasks after it in the array. *)
Fixpoint run_each {B} (answer : Oracle) (pool : list (Slot (Thrown + B)))
  (past : Trace) : Trace * (Thrown + list B) * list (Slot (Thrown + B)) :=
  match pool with
  | [] => ([], inr [], [])
  | Over (inl e) :: pool' => ([], inl e, pool')
  | Over (inr b) :: pool' =>
      let '(t, out, others) := run_each answer pool' past in
      (t, match out with inl e => inl e | inr bs => inr (b :: bs) end, others)
  | Waiting p :: pool' =>
      let (t, r) := run_task answer p past in
      match r with
      | inl e => (t, inl e, pool')
      | inr b =>
          let '(t', out, others) := run_each answer pool' (past ++ t) in
          (t ++ t', match out with inl e => inl e | inr bs => inr (b :: bs) end,
           others)
      end
  end.

Definition run_races {B} (answer : Oracle) (pool : list (Slot (Thrown + B)))
  (past : Trace) : Trace * (Thrown + list B) * list (Slot (Thrown + B)) :=
  match first_rejected pool with
  | Some e => ([], inl e, pool)
  | None => run_each answer pool past
  end.

Fixpoint run_drains {R} (answer : Oracle) (others : list (Slot R)) (past : Trace)
  : Trace :=
  match others with
  | [] => []
  | Over _ :: others' => run_drains answer others' past
  | Waiting p :: others' =>
      let t := fst (run_task answer p past) in
      t ++ run_drains answer others' (past ++ t)
  end.

(** The execution under [answer] in which, after a rejected
    [Promise.all], the program goes on first and the tasks that are left
    finish afterwards. *)
Fixpoint run {R} (answer : Oracle) (p : Prog R) (past : Trace) : Trace * R :=
  match p with
  | Ret r => ([], r)
  | Call c k =>
      let o := answer past c in
      let (t, r) := run answer (k o) (past ++ [Called c o]) in
      (Called c o :: t, r)
  | Log l k =>
      let (t, r) := run answer k (past ++ [Logged l]) in
      (Logged l :: t, r)
  | All tasks k =>
      let (t0, pool) := run_starts answer tasks past in
      let '(t1, out, others) := run_races answer pool (past ++ t0) in
      let (tk, r) := run answer (k out) (past ++ t0 ++ t1) in
      match out with
      | inr _ => (t0 ++ t1 ++ tk, r)
      | inl _ => (t0 ++ t1 ++ tk ++ run_drains answer others (past ++ t0 ++ t1 ++ tk), r)
      end
  end.

(** *** Facts about an execution *)

(** The entry records a call that threw. *)
Definition rejected (e : Entry) : bool :=
  match e with
  | Called _ (inl _) => true
  | _ => false
  end.

(** Every call of the trace was answered with a value. *)
Definition all_answered (t : Trace) : Prop :=
  forallb (fun e => negb (rejected e)) t = true.

(** The SDK's side of bundling, as far as positions go: the items of a
    bundle returned by [bundleAndSignData] are, one for one and in the
    same order, the items it was given, each in the form [R] it has inside
    the bundle (arbundles keeps a signed item and signs an unsigned one). *)
Definition bundled_as (R : DataItem -> DataItem -> Prop) (e : Entry) : Prop :=
  match e with
  | Called c o =>
      match c as c0 return outcome c0 -> Prop with
      | BundleAndSignData l _ =>
          fun o => match o with
                   | inr b => Forall2 R l (bundle_items b)
                   | inl _ => True
                   end
      | _ => fun _ => True
      end o
  | Logged _ => True
  end.

Definition bundling_contract (R : DataItem -> DataItem -> Prop) (t : Trace) : Prop :=
  Forall (bundled_as R) t.

(** How an async body without concurrent tasks ends: with a value only if
    every call was answered; with a throw either of its own (every call
    answered) or because its last call threw that very value. *)
Definition ends_well {A} (t : Trace) (r : Thrown + A) : Prop :=
  match r with
  | inr _ => all_answered t
  | inl e =>
      all_answered t \/
      exists pre c, t = pre ++ [Called c (inl e)] /\ all_answered pre
  end.

Definition propagates {A} (p : M A) : Prop := forall t r, runs p t r -> ends_well t r.

(** The same without positions, for a body with concurrent tasks: a value
    only if every call was answered; a throw of its own, or the value some
    call threw. *)
Definition relays {A} (p : M A) : Prop :=
  forall t r,
    runs p t r ->
    match r with
    | inr _ => all_answered t
    | inl e => all_answered t \/ exists c, In (Called c (inl e)) t
    end.

(** A body that throws nothing of its own: when every call is answered,
    it returns. *)
Definition returns_when_answered {A} (p : M A) : Prop :=
  forall t r, runs p t r -> all_answered t -> exists a, r = inr a.

(** What is left of a task in state [s] performs [t] and ends with [r]. *)
Definition finish {R} (s : Slot R) (t : Trace) (r : R) : Prop :=
  match s with
  | Over r' => t = [] /\ r = r'
  | Waiting p => truns p t r
  end.

(** The tasks in states [pool] go on to their ends as [trs] says, each
    with its trace and its result. *)
Definition finishes {R} (pool : list (Slot R)) (trs : list (Trace * R)) : Prop :=
  Forall2 (fun s tr => finish s (fst tr) (snd tr)) pool trs.

(** The tasks [ps], each taken alone, run as [trs] says. *)
Definition each_runs {R} (ps : list (Task R)) (trs : list (Trace * R)) : Prop :=
  Forall2 (fun p tr => truns p (fst tr) (snd tr)) ps trs.

(** A whole task as a sequence of stretches. *)
Inductive plays {R} : Task R -> Trace -> R -> Prop :=
| plays_over p t r : stretch p t (Over r) -> plays p t r
| plays_wait p t p' t' r :
    stretch p t (Waiting p') -> plays p' t' r -> plays p (t ++ t') r.

(** A body in which a rejected [Promise.all] is not caught: the rejection
    is what the body throws. *)
Fixpoint tidy {A} (p : Prog (Thrown + A)) : Prop :=
  match p with
  | Ret _ => True
  | Call c k => forall o, tidy (k o)
  | Log l k => tidy k
  | All tasks k =>
      (forall e, k (inl e) = Ret (inl e)) /\ forall bs, tidy (k (inr bs))
  end.

Class Tidy {A} (p : M A) : Prop := is_tidy : tidy p.

(** A program without [Promise.all]. *)
Fixpoint sequential {R} (p : Prog R) : Prop :=
  match p with
  | Ret _ => True
  | Call c k => forall o, sequential (k o)
  | Log l k => sequential k
  | All _ _ => False
  end.

End Semantics.

Arguments Waiting {sdk R} p.
Arguments Over {sdk R} r.

(** ** Shapes of executions

    The lists of calls below are what the statements about the functions
    compare an execution with; nothing here is assumed of the functions. *)

Section Steps.

Context {sdk : Sdk}.
Local Open Scope list_scope.

(** What the SDK handed back while one file was prepared. *)
Record Prepared : Type :=
  { buffer : bytes; created : DataItem; signed : DataItem }.

(** The three calls that prepare one file, all answered. *)
Definition file_steps (s : Signer) (file : File) (p : Prepared) : Trace :=
  [ Called (ArrayBuffer file) (inr (buffer p));
    Called (CreateData (Binary (buffer p)) s [content_type_tag file]) (inr (created p));
    Called (ItemSign (created p) s) (inr (signed p)) ].

(** The calls that prepare [files], file after file.  With two files or
    more the tasks do not make them in this order; an execution is then
    compared with this list up to the order of the entries. *)
Fixpoint files_steps (s : Signer) (files : list File) (ps : list Prepared) : Trace :=
  match files, ps with
  | file :: files', p :: ps' => file_steps s file p ++ files_steps s files' ps'
  | _, _ => []
  end.

(** The entries [prepareFiles] passes to [new Map]. *)
Definition named_items (files : list File) (ps : list Prepared)
  : list (string * DataItem) :=
  combine (List.map file_name files) (List.map signed ps).

(** The calls of a [bundleItems] that reaches [bundleAndSignData], which
    ends with [o]. *)
Definition bundle_steps (itemMap : Js.Map DataItem) (s : Signer)
           (irys : Irys) (manifest : Manifest) (manifestItem : DataItem)
           (o : Thrown + Bundle) : Trace :=
  [ Called GetIrys (inr irys);
    Called (GenerateManifest irys (pathMap_of itemMap)) (inr manifest);
    Called (CreateData (Text (JSON_stringify manifest)) s manifest_tags)
           (inr manifestItem);
    Called (BundleAndSignData (Js.values itemMap ++ [manifestItem]) s) o ].

(** The calls of an [uploadBundle] that reaches [uploadTransaction], which
    ends with [o]. *)
Definition upload_steps (bundle : Bundle) (irys : Irys) (u1 u2 u3 : Uploader)
           (tx signedTx : Transaction) (o : Thrown + Receipt) : Trace :=
  [ Called GetIrys (inr irys);
    Called (UploaderOn (chunkedUploader irys) "chunkUpload" on_chunkUpload) (inr u1);
    Called (UploaderOn u1 "chunkError" on_chunkError) (inr u2);
    Called (UploaderOn u2 "done" on_done) (inr u3);
    Called (CreateTransaction irys (bundle_getRaw bundle) bundle_tags) (inr tx);
    Called (TxSign tx) (inr signedTx);
    Called (UploadTransaction u3 signedTx) o ].

(** The call an entry records, if it records one. *)
Definition entry_call (e : Entry) : option call :=
  match e with
  | Called c _ => Some c
  | Logged _ => None
  end.

Definition is_upload (e : Entry) : bool :=
  match e with
  | Called (UploadTransaction _ _) _ => true
  | _ => false
  end.

Definition is_bundling (e : Entry) : bool :=
  match e with
  | Called (BundleAndSignData _ _) _ => true
  | _ => false
  end.

(** What [uploadBundle] returns once the upload gave a receipt. *)
Definition ids_of (bundle : Bundle) (receipt : Receipt) : Thrown + list string :=
  match Js.index (bundle_items bundle) (Js.length (bundle_items bundle) - 1) with
  | Some item => inr [item_id item; receipt_data_id receipt]
  | None => inl (TypeError "Cannot read properties of undefined (reading 'id')")
  end.

Definition after_upload (bundle : Bundle) (o : Thrown + Receipt)
  : Thrown + list string :=
  match o with
  | inl e => inl e
  | inr receipt => ids_of bundle receipt
  end.

(** Everything the SDK hands back in an execution where every call is
    answered. *)
Record Answers : Type := {
  jwk : JWK;
  ephemeralSigner : Signer;
  prepared : list Prepared;
  irys_bundling : Irys;
  manifest : Manifest;
  manifestItem : DataItem;
  bundle : Bundle;
  irys_upload : Irys;
  uploader1 : Uploader;
  uploader2 : Uploader;
  uploader3 : Uploader;
  tx : Transaction;
  signedTx : Transaction;
  receipt : Receipt
}.

(** The map [prepareFiles] returns in such an execution. *)
Definition preppedFiles (files : list File) (a : Answers) : Js.Map DataItem :=
  Js.new_Map (named_items files (prepared a)).

(** The calls of such an execution, in order, with [tp] for the calls
    that prepare the files. *)
Definition answered_around (tp : Trace) (files : list File) (a : Answers) : Trace :=
  [ Called GenerateJWK (inr (jwk a));
    Called (NewArweaveSigner (jwk a)) (inr (ephemeralSigner a)) ]
  ++ tp
  ++ bundle_steps (preppedFiles files a) (ephemeralSigner a)
       (irys_bundling a) (manifest a) (manifestItem a) (inr (bundle a))
  ++ upload_steps (bundle a) (irys_upload a)
       (uploader1 a) (uploader2 a) (uploader3 a) (tx a) (signedTx a)
       (inr (receipt a)).

(** The same with the files prepared one after the other, which is the
    order of the execution when there is at most one file. *)
Definition answered_trace (files : list File) (a : Answers) : Trace :=
  [ Called GenerateJWK (inr (jwk a));
    Called (NewArweaveSigner (jwk a)) (inr (ephemeralSigner a)) ]
  ++ files_steps (ephemeralSigner a) files (prepared a)
  ++ bundle_steps (preppedFiles files a) (ephemeralSigner a)
       (irys_bundling a) (manifest a) (manifestItem a) (inr (bundle a))
  ++ upload_steps (bundle a) (irys_upload a)
       (uploader1 a) (uploader2 a) (uploader3 a) (tx a) (signedTx a)
       (inr (receipt a)).

(** The async function handed to [Promise.all] for one file. *)
Definition prepare_task (s : Signer) (file : File) : TM (string * DataItem) :=
  (item <- prepareFile file s ;; tret (file_name file, item))%task.

Definition error_line (e : Thrown) : LogLine :=
  ConsoleLog [LStr "Error on upload:"; LThrown e].

End Steps.

(** ** A small SDK to run the orchestration on *)

Module Demo.

Local Open Scope list_scope.

Record Item : Type := { payload : Data; item_tags : list Tag; id_of : string }.

Record Tx : Type := { tx_data : bytes; tx_tags : list Tag; tx_signed : bool }.

(** An item without identifier has not been signed. *)
Definition sign_with (fresh : string) (i : Item) : Item :=
  if String.eqb (id_of i) ""
  then {| payload := payload i; item_tags := item_tags i; id_of := fresh |}
  else i.

Definition render (paths : Js.Map string) : string :=
  String.concat ";" (List.map (fun e => (fst e ++ "=" ++ snd e)%string) paths).

#[global] Instance sdk : Sdk := {|
  JWK := nat;
  Signer := nat;
  DataItem := Item;
  Bundle := list Item;
  Manifest := Js.Map string;
  Irys := unit;
  Uploader := list string;
  Transaction := Tx;
  Receipt := string;
  SdkError := string;
  item_id := id_of;
  bundle_items := fun b => b;
  bundle_getRaw := fun b => List.repeat Byte.x00 (List.length b);
  chunkedUploader := fun _ => [];
  receipt_data_id := fun r => r;
  JSON_stringify := render
|}.

(** A fresh identifier for the [n]-th step of an execution. *)
Definition fresh_id (n : nat) : string :=
  String.append "id" (String.concat "" (List.repeat "'"%string n)).

(** An SDK that answers every call; identifiers depend on when the
    signature is made. *)
Definition answer : Oracle :=
  fun past c =>
    match c as c0 return outcome c0 with
    | GenerateJWK => inr 7
    | NewArweaveSigner k => inr k
    | ArrayBuffer file => inr (List.repeat Byte.x01 (file_blob file))
    | CreateData d _ tags => inr {| payload := d; item_tags := tags; id_of := "" |}
    | ItemSign i _ => inr (sign_with (fresh_id (List.length past)) i)
    | GetIrys => inr tt
    | GenerateManifest _ items => inr items
    | BundleAndSignData l _ =>
        inr (List.map (sign_with (fresh_id (List.length past))) l)
    | UploaderOn u event _ => inr (u ++ [event])
    | CreateTransaction _ d tags =>
        inr {| tx_data := d; tx_tags := tags; tx_signed := false |}
    | TxSign x =>
        inr {| tx_data := tx_data x; tx_tags := tx_tags x; tx_signed := true |}
    | UploadTransaction _ _ => inr "receipt-id"%string
    end.

(** The same SDK without a connected wallet: [getIrys()] rejects. *)
Definition answer_no_wallet : Oracle :=
  fun past c =>
    match c as c0 return outcome c0 -> outcome c0 with
    | GetIrys => fun _ => inl (SdkThrown "wallet not connected"%string)
    | _ => fun o => o
    end (answer past c).

(** An item inside a bundle has the payload and tags it was given with. *)
Definition same_content (x y : Item) : Prop :=
  payload x = payload y /\ item_tags x = item_tags y.

Definition notes : File :=
  {| file_name := "notes.txt"; file_type := "text/plain"; file_blob := 2 |}.
Definition photo : File :=
  {| file_name := "photo.png"; file_type := "image/png"; file_blob := 3 |}.
(** A second file called notes.txt, from another folder. *)
Definition notes2 : File :=
  {| file_name := "notes.txt"; file_type := "text/plain"; file_blob := 1 |}.

End Demo.

(** ** The orchestration at work on the small SDK *)

Module DemoRuns.

Import Demo.
Local Open Scope list_scope.

(** Two files with different names, every call answered. *)
Definition whole_run : Trace * (Thrown + list string) :=
  Eval vm_compute in run answer (fundAndUploadNestedBundle [notes; photo]) [].

(** The same without a wallet. *)
Definition failed_run : Trace * (Thrown + list string) :=
  Eval vm_compute in run answer_no_wallet (fundAndUploadNestedBundle [notes; photo]) [].

(** No file at all. *)
Definition empty_run : Trace * (Thrown + list string) :=
  Eval vm_compute in run answer (fundAndUploadNestedBundle []) [].

(** Two files called notes.txt. *)
Definition same_name_run : Trace * (Thrown + Js.Map Item) :=
  Eval vm_compute in run answer (prepareFiles [notes; notes2] 7) [].

Definition same_name_map : Js.Map Item :=
  Eval vm_compute in
    match snd same_name_run with inr m => m | inl _ => [] end.

(** What the SDK handed back for the first and for the second notes.txt. *)
Definition first_notes : Prepared :=
  {| buffer := [Byte.x01; Byte.x01];
     created := {| payload := Binary [Byte.x01; Byte.x01];
                   item_tags := [content_type_tag notes]; id_of := "" |};
     signed := {| payload := Binary [Byte.x01; Byte.x01];
                  item_tags := [content_type_tag notes]; id_of := fresh_id 3 |} |}.

Definition second_notes : Prepared :=
  {| buffer := [Byte.x01];
     created := {| payload := Binary [Byte.x01];
                   item_tags := [content_type_tag notes2]; id_of := "" |};
     signed := {| payload := Binary [Byte.x01];
                  item_tags := [content_type_tag notes2]; id_of := fresh_id 5 |} |}.

(** A map of two prepared items, its bundle and the upload of that bundle. *)
Definition prepped : Js.Map Item :=
  [ ("notes.txt"%string, signed first_notes);
    ("photo.png"%string,
     {| payload := Binary [Byte.x01; Byte.x01; Byte.x01];
        item_tags := [content_type_tag photo]; id_of := fresh_id 5 |}) ].

Definition bundle_run : Trace * (Thrown + list Item) :=
  Eval vm_compute in run answer (bundleItems prepped 7) [].

Definition bundled : list Item :=
  Eval vm_compute in
    match snd bundle_run with inr b => b | inl _ => [] end.

Definition upload_run : Trace * (Thrown + list string) :=
  Eval vm_compute in run answer (uploadBundle bundled) [].

Definition uploaded_ids : list string :=
  Eval vm_compute in
    match snd upload_run with inr ids => ids | inl _ => [] end.

(** Bundling the map of the two files called notes.txt. *)
Definition same_name_bundle_run : Trace * (Thrown + list Item) :=
  Eval vm_compute in run answer (bundleItems same_name_map 7) [].

End DemoRuns.

(** ** Properties of whole traces *)

Section TraceProperties.

Context {sdk : Sdk}.
Local Open Scope list_scope.


(** [Q] holds of the trace of every execution of [p]. *)
Definition always {A} (Q : Trace -> Prop) (p : Prog A) : Prop :=
  forall t r, runs p t r -> Q t.

(** [Q] holds of the empty trace and of two traces put end to end. *)
Definition additive (Q : Trace -> Prop) : Prop :=
  Q [] /\ forall t1 t2, Q t1 -> Q t2 -> Q (t1 ++ t2).

(** The signer a call is made with, for the calls that take one. *)
Definition entry_signer (e : Entry) : option Signer :=
  match e with
  | Called (CreateData _ s _) _ => Some s
  | Called (ItemSign _ s) _ => Some s
  | Called (BundleAndSignData _ s) _ => Some s
  | _ => None
  end.

(** The signer of every entry that has one is [s]. *)
Definition signed_by (s : Signer) (e : Entry) : Prop :=
  forall s', entry_signer e = Some s' -> s' = s.

Definition is_log (e : Entry) : bool :=
  match e with
  | Logged _ => true
  | Called _ _ => false
  end.

Definition is_item_sign (e : Entry) : bool :=
  match e with
  | Called (ItemSign _ _) _ => true
  | _ => false
  end.

(** [c] is one of the three calls that prepare [file] with signer [s]. *)
Definition prepares (s : Signer) (file : File) (c : call) : Prop :=
  c = ArrayBuffer file \/
  (exists buf, c = CreateData (Binary buf) s [content_type_tag file]) \/
  (exists item, c = ItemSign item s).

(** Every [item.sign] call of [t] is made on the item that [createData]
    returned for the bytes that [arrayBuffer()] returned for one of
    [files], with the Content-Type tag of that file. *)
Definition signs_file_items (files : list File) (t : Trace) : Prop :=
  forall item s o,
    In (Called (ItemSign item s) o) t ->
    exists file buf,
      In file files /\
      In (Called (ArrayBuffer file) (inr buf)) t /\
      In (Called (CreateData (Binary buf) s [content_type_tag file]) (inr item)) t.

(** The value thrown when [.id] is read of [undefined]. *)
Definition no_last_item : Thrown :=
  TypeError "Cannot read properties of undefined (reading 'id')".

(** Every execution of [p] has at most [n] entries. *)
Definition at_most {A} (n : nat) (p : Prog A) : Prop :=
  forall t r, runs p t r -> List.length t <= n.

Definition is_array_buffer (e : Entry) : bool :=
  match e with
  | Called (ArrayBuffer _) _ => true
  | _ => false
  end.

(** [arrayBuffer()] called on each of [files], in order, with outcomes
    [os]. *)
Definition reads (files : list File) (os : list (Thrown + bytes)) : Trace :=
  List.map (fun fo => Called (ArrayBuffer (fst fo)) (snd fo)) (combine files os).

End TraceProperties.

(** ** The small SDK misbehaving *)

Module DemoFaults.

Import Demo.
Local Open Scope list_scope.

(** An SDK whose [bundleAndSignData] gives back a bundle without items. *)
Definition answer_empty_bundle : Oracle :=
  fun past c =>
    match c as c0 return outcome c0 -> outcome c0 with
    | BundleAndSignData _ _ => fun _ => inr []
    | _ => fun o => o
    end (answer past c).

(** An SDK whose [item.sign] rejects. *)
Definition answer_sign_fails : Oracle :=
  fun past c =>
    match c as c0 return outcome c0 -> outcome c0 with
    | ItemSign _ _ => fun _ => inl (SdkThrown "cannot sign"%string)
    | _ => fun o => o
    end (answer past c).

Definition empty_bundle_run : Trace * (Thrown + list string) :=
  Eval vm_compute in
    run answer_empty_bundle (fundAndUploadNestedBundle [notes; photo]) [].

Definition empty_bundle_upload_run : Trace * (Thrown + list string) :=
  Eval vm_compute in run answer (uploadBundle []) [].

Definition sign_fails_run : Trace * (Thrown + Js.Map Item) :=
  Eval vm_compute in run answer_sign_fails (prepareFiles [notes; photo] 7) [].

Definition distinct_run : Trace * (Thrown + Js.Map Item) :=
  Eval vm_compute in run answer (prepareFiles [notes; photo] 7) [].

Definition distinct_map : Js.Map Item :=
  Eval vm_compute in
    match snd distinct_run with inr m => m | inl _ => [] end.

Definition no_manifest_run : Trace * (Thrown + list Item) :=
  Eval vm_compute in
    run (fun past c =>
           match c as c0 return outcome c0 -> outcome c0 with
           | GenerateManifest _ _ => fun _ => inl (SdkThrown "no manifest"%string)
           | _ => fun o => o
           end (answer past c))
        (bundleItems DemoRuns.prepped 7) [].
(** An SDK that cannot read notes.txt: its [arrayBuffer()] rejects. *)
Definition answer_unreadable : Oracle :=
  fun past c =>
    match c as c0 return outcome c0 -> outcome c0 with
    | ArrayBuffer file =>
        fun o => if String.eqb (file_name file) "notes.txt"
                 then inl (SdkThrown "unreadable"%string) else o
    | _ => fun o => o
    end (answer past c).

(** The other file is still prepared, after the error has been logged. *)
Definition unreadable_run : Trace * (Thrown + list string) :=
  Eval vm_compute in
    run answer_unreadable (fundAndUploadNestedBundle [notes; photo]) [].







End DemoFaults.

(** ** Facts about [Js.Map] *)

Module JsFacts.

Import Js.
Local Open Scope list_scope.

Section Maps.

Variable V : Type.
Implicit Types (m : Map V) (es : list (string * V)) (k : string) (v : V).

Lemma keys_set_in m k v : In k (keys m) -> keys (set m k v) = keys m.
Proof.
  induction m as [|[k' v'] m IH]; simpl; [tauto|].
  intros H. destruct (String.eqb_spec k k') as [->|ne]; simpl; [reflexivity|].
  f_equal. apply IH. destruct H as [H|H]; [congruence|exact H].
Qed.

Lemma keys_set_notin m k v : ~ In k (keys m) -> keys (set m k v) = keys m ++ [k].
Proof.
  induction m as [|[k' v'] m IH]; simpl; [reflexivity|].
  intros H. destruct (String.eqb_spec k k') as [->|ne]; simpl.
  - exfalso; apply H; now left.
  - f_equal. apply IH. intros Hin. apply H. now right.
Qed.

Lemma in_keys_dec k m : {In k (keys m)} + {~ In k (keys m)}.
Proof. apply in_dec, string_dec. Qed.

Lemma wf_set m k v : wf m -> wf (set m k v).
Proof.
  unfold wf. intros H. destruct (in_keys_dec k m) as [i|n].
  - now rewrite keys_set_in.
  - rewrite keys_set_notin by exact n.
    apply NoDup_app; [exact H | repeat constructor; simpl; tauto |].
    intros x Hx [<-|[]]. exact (n Hx).
Qed.

Lemma get_set m k v k' :
  get (set m k v) k' = if String.eqb k' k then Some v else get m k'.
Proof.
  induction m as [|[k0 v0] m IH]; simpl.
  - reflexivity.
  - destruct (String.eqb_spec k k0) as [->|ne]; simpl.
    + destruct (String.eqb_spec k' k0); reflexivity.
    + rewrite IH. destruct (String.eqb_spec k' k0) as [->|ne'].
      * destruct (String.eqb_spec k0 k); [congruence|reflexivity].
      * reflexivity.
Qed.

Lemma wf_build es : forall m, wf m -> wf (build m es).
Proof.
  unfold build. induction es as [|[k v] es IH]; simpl; intros m H; [exact H|].
  apply IH, wf_set, H.
Qed.

Lemma get_build es : forall m k,
  get (build m es) k =
  match last_with k es with Some v => Some v | None => get m k end.
Proof.
  unfold build. induction es as [|[k0 v0] es IH]; simpl; intros m k; [reflexivity|].
  rewrite IH. destruct (last_with k es); [reflexivity|].
  rewrite get_set. now destruct (String.eqb k k0).
Qed.

Lemma keys_build_incl es : forall m,
  incl (keys (build m es)) (keys m ++ List.map fst es).
Proof.
  unfold build. induction es as [|[k v] es IH]; simpl; intros m.
  - rewrite app_nil_r. apply incl_refl.
  - intros x Hx. apply IH in Hx. apply in_app_or in Hx.
    destruct Hx as [Hx|Hx].
    + destruct (in_keys_dec k m) as [i|n].
      * rewrite keys_set_in in Hx by exact i. apply in_or_app; now left.
      * rewrite keys_set_notin in Hx by exact n. apply in_app_or in Hx.
        destruct Hx as [Hx|[<-|[]]]; apply in_or_app; [now left|right; now left].
    + apply in_or_app; right; now right.
Qed.

Lemma wf_new_Map es : wf (new_Map es).
Proof. apply (wf_build es []). constructor. Qed.

Lemma get_new_Map es k : get (new_Map es) k = last_with k es.
Proof.
  unfold new_Map. change (get (build [] es) k = last_with k es).
  rewrite get_build. now destruct (last_with k es).
Qed.

(** A [Map] never has more entries than it was built from. *)
Lemma length_new_Map_le es : List.length (new_Map es) <= List.length es.
Proof.
  rewrite <- (length_map fst (new_Map es)), <- (length_map fst es).
  apply NoDup_incl_length; [apply wf_new_Map|].
  exact (keys_build_incl es []).
Qed.

(** Entries with a repeated key make it strictly smaller. *)
Lemma length_new_Map_lt es :
  ~ NoDup (List.map fst es) -> List.length (new_Map es) < List.length es.
Proof.
  intros Hdup. pose proof (length_new_Map_le es) as Hle.
  destruct (Nat.eq_dec (List.length (new_Map es)) (List.length es)) as [e|ne]; [|lia].
  exfalso. apply Hdup.
  apply (NoDup_incl_NoDup (l := keys (new_Map es))).
  - apply wf_new_Map.
  - unfold keys. rewrite !length_map. lia.
  - exact (keys_build_incl es []).
Qed.

(** Building from entries with pairwise different keys keeps them all,
    in order. *)
Lemma build_fresh es : forall m,
  NoDup (keys m ++ List.map fst es) -> build m es = m ++ es.
Proof.
  unfold build. induction es as [|[k v] es IH]; simpl; intros m H.
  - now rewrite app_nil_r.
  - assert (Hk : ~ In k (keys m)).
    { intros Hin. apply NoDup_remove_2 in H. apply H, in_or_app. now left. }
    assert (Hs : set m k v = m ++ [(k, v)]).
    { clear -Hk. induction m as [|[k' v'] m IHm]; simpl; [reflexivity|].
      destruct (String.eqb_spec k k') as [->|ne].
      - exfalso; apply Hk; now left.
      - f_equal. apply IHm. intros Hin; apply Hk; now right. }
    rewrite Hs, IH.
    + now rewrite <- app_assoc.
    + unfold keys. rewrite map_app, <- app_assoc. exact H.
Qed.

Lemma new_Map_wf m : wf m -> new_Map (entries m) = m.
Proof. intros H. exact (build_fresh m [] H). Qed.

Lemma last_with_app k es1 es2 :
  last_with k (es1 ++ es2) =
  match last_with k es2 with Some v => Some v | None => last_with k es1 end.
Proof.
  induction es1 as [|[k' v'] es1 IH]; simpl.
  - now destruct (last_with k es2).
  - rewrite IH. now destruct (last_with k es2).
Qed.

Lemma last_with_absent k es : ~ In k (List.map fst es) -> last_with k es = None.
Proof.
  induction es as [|[k' v'] es IH]; simpl; [reflexivity|].
  intros H. rewrite IH by tauto.
  destruct (String.eqb_spec k k') as [->|ne]; [exfalso; apply H; now left|reflexivity].
Qed.

(** The last entry under a key is the one the [Map] keeps. *)
Lemma get_new_Map_last es1 k v es2 :
  ~ In k (List.map fst es2) ->
  get (new_Map (es1 ++ (k, v) :: es2)) k = Some v.
Proof.
  intros H. rewrite get_new_Map, last_with_app. simpl.
  rewrite (last_with_absent k es2 H), String.eqb_refl. reflexivity.
Qed.

End Maps.

Lemma get_map_values {V W} (f : V -> W) (m : Map V) k :
  get (List.map (fun e => (fst e, f (snd e))) m) k = option_map f (get m k).
Proof.
  induction m as [|[k' v'] m IH]; simpl; [reflexivity|].
  destruct (String.eqb k k'); [reflexivity|exact IH].
Qed.

Lemma keys_map_values {V W} (f : V -> W) (m : Map V) :
  keys (List.map (fun e => (fst e, f (snd e))) m) = keys m.
Proof. unfold keys. rewrite map_map. reflexivity. Qed.

End JsFacts.

(** ** Facts about executions *)

Section RunFacts.

Context {sdk : Sdk}.
Local Open Scope list_scope.

(** *** One task *)

Lemma run_task_truns {R} (answer : Oracle) (p : Task R) :
  forall past,
    truns p (fst (run_task answer p past)) (snd (run_task answer p past)).
Proof.
  induction p as [r|w c k IH|l k IH]; intros past; simpl.
  - split; reflexivity.
  - specialize (IH (answer past c) (past ++ [Called c (answer past c)])).
    destruct (run_task answer (k (answer past c)) (past ++ [Called c (answer past c)]))
      as [t r]. simpl in *.
    exists (answer past c), t. split; [reflexivity|exact IH].
  - specialize (IH (past ++ [Logged l])).
    destruct (run_task answer k (past ++ [Logged l])) as [t r]. simpl in *.
    exists t. split; [reflexivity|exact IH].
Qed.

Lemma run_stretch_stretch {R} (answer : Oracle) (p : Task R) :
  forall past,
    stretch p (fst (run_stretch answer p past)) (snd (run_stretch answer p past)).
Proof.
  induction p as [r|w c k IH|l k IH]; intros past; simpl.
  - split; reflexivity.
  - exists (answer past c). destruct w; simpl.
    + split; reflexivity.
    + specialize (IH (answer past c) (past ++ [Called c (answer past c)])).
      destruct (run_stretch answer (k (answer past c))
                            (past ++ [Called c (answer past c)])) as [t s].
      simpl in *. exists t. split; [reflexivity|exact IH].
  - specialize (IH (past ++ [Logged l])).
    destruct (run_stretch answer k (past ++ [Logged l])) as [t s]. simpl in *.
    exists t. split; [reflexivity|exact IH].
Qed.

(** A stretch and what is left after it make the whole task. *)
Lemma stretch_finish {R} (p : Task R) :
  forall t1 s t2 r, stretch p t1 s -> finish s t2 r -> truns p (t1 ++ t2) r.
Proof.
  induction p as [r0|w c k IH|l k IH]; intros t1 s t2 r H Hf; simpl in H.
  - destruct H as [-> ->]. exact Hf.
  - destruct H as (o & H). destruct w.
    + destruct H as [-> ->]. exists o, t2. split; [reflexivity|exact Hf].
    + destruct H as (t' & -> & H). exists o, (t' ++ t2).
      split; [reflexivity|]. exact (IH o t' s t2 r H Hf).
  - destruct H as (t' & -> & H). exists (t' ++ t2).
    split; [reflexivity|]. exact (IH t' s t2 r H Hf).
Qed.

(** A whole task is a sequence of stretches. *)
Lemma truns_plays {R} (p : Task R) : forall t r, truns p t r -> plays p t r.
Proof.
  induction p as [r0|w c k IH|l k IH]; intros t r H; simpl in H.
  - destruct H as [-> ->]. apply plays_over. split; reflexivity.
  - destruct H as (o & t' & -> & H). apply IH in H. destruct w.
    + apply (plays_wait (TCall true c k) [Called c o] (k o) t' r); [|exact H].
      exists o. split; reflexivity.
    + inversion H as [p0 t0 r0 Hs|p0 t0 p' t1 r0 Hs Hp]; subst.
      * apply plays_over. exists o, t'. split; [reflexivity|exact Hs].
      * apply (plays_wait (TCall false c k) (Called c o :: t0) p' t1 r); [|exact Hp].
        exists o, t0. split; [reflexivity|exact Hs].
  - destruct H as (t' & -> & H). apply IH in H.
    inversion H as [p0 t0 r0 Hs|p0 t0 p' t1 r0 Hs Hp]; subst.
    + apply plays_over. exists t'. split; [reflexivity|exact Hs].
    + apply (plays_wait (TLog l k) (Logged l :: t0) p' t1 r); [|exact Hp].
      exists t0. split; [reflexivity|exact Hs].
Qed.

(** *** The tasks of one [Promise.all] *)

Lemma first_rejected_app {B} (pre post : list (Slot (Thrown + B))) :
  first_rejected (pre ++ post) =
  match first_rejected pre with
  | Some e => Some e
  | None => first_rejected post
  end.
Proof.
  induction pre as [|[p|[e|b]] pre IH]; simpl; auto.
Qed.

Lemma first_rejected_values {B} (ds : list B) :
  first_rejected (List.map (fun d => Over (@inr Thrown B d)) ds) = None.
Proof. induction ds; simpl; auto. Qed.

Lemma fulfilled_values {B} (ds : list B) :
  fulfilled (List.map (fun d => Over (@inr Thrown B d)) ds) = Some ds.
Proof. induction ds as [|d ds IH]; simpl; [reflexivity|]. now rewrite IH. Qed.

Lemma is_over_values {B} (ds : list B) :
  forallb is_over (List.map (fun d => Over (@inr Thrown B d)) ds) = true.
Proof. induction ds; simpl; auto. Qed.

(** A task may be resumed until it is over before any other moves. *)
Lemma races_plays {B} (p : TM B) t r :
  plays p t r ->
  forall pre post t' out others,
    first_rejected pre = None -> first_rejected post = None ->
    races (pre ++ Over r :: post) t' out others ->
    races (pre ++ Waiting p :: post) (t ++ t') out others.
Proof.
  induction 1 as [p t r Hs|p t p' t1 r Hs Hp IH];
    intros pre post t' out others Hpre Hpost Hr.
  - apply races_resume with (s := Over r); [|exact Hs|exact Hr].
    rewrite first_rejected_app, Hpre. exact Hpost.
  - rewrite <- app_assoc.
    apply races_resume with (s := Waiting p'); [|exact Hs|].
    + rewrite first_rejected_app, Hpre. exact Hpost.
    + apply IH; assumption.
Qed.

Lemma drains_plays {R} (p : Task R) t r :
  plays p t r ->
  forall pre post segs,
    drains (pre ++ Over r :: post) segs ->
    exists segs',
      drains (pre ++ Waiting p :: post) segs' /\ List.concat segs' = t ++ List.concat segs.
Proof.
  induction 1 as [p t r Hs|p t p' t1 r Hs Hp IH]; intros pre post segs Hd.
  - exists (t :: segs). split; [|reflexivity].
    apply drains_resume with (s := Over r); assumption.
  - destruct (IH pre post segs Hd) as (segs' & Hd' & Hc).
    exists (t :: segs'). split.
    + apply drains_resume with (s := Waiting p'); assumption.
    + simpl. rewrite Hc. apply app_assoc.
Qed.

Lemma run_starts_starts {R} (answer : Oracle) (ps : list (Task R)) :
  forall past,
    starts ps (fst (run_starts answer ps past)) (snd (run_starts answer ps past)).
Proof.
  induction ps as [|p ps IH]; intros past; simpl.
  - constructor.
  - pose proof (run_stretch_stretch answer p past) as Hs.
    destruct (run_stretch answer p past) as [t s]. simpl in Hs.
    specialize (IH (past ++ t)).
    destruct (run_starts answer ps (past ++ t)) as [ts ss]. simpl in *.
    constructor; assumption.
Qed.

Lemma run_each_races {B} (answer : Oracle) :
  forall (pool : list (Slot (Thrown + B))) past ds t1 out others,
    first_rejected pool = None ->
    run_each answer pool past = (t1, out, others) ->
    exists full,
      races (List.map (fun d => Over (inr d)) ds ++ pool) t1
            (match out with inl e => inl e | inr bs => inr (ds ++ bs) end) full /\
      (forall e, out = inl e ->
                 exists done, forallb is_over done = true /\ full = done ++ others).
Proof.
  induction pool as [|[p|[e|b]] pool IH]; intros past ds t1 out others Hfr Hrun;
    simpl in Hrun.
  - injection Hrun as <- <- <-. eexists. split.
    + apply races_fulfilled. rewrite !app_nil_r. apply fulfilled_values.
    + intros e [=].
  - pose proof (run_task_truns answer p past) as Ht.
    destruct (run_task answer p past) as [t r]. simpl in Ht.
    apply truns_plays in Ht. simpl in Hfr. destruct r as [e|b].
    + injection Hrun as <- <- <-.
      exists (List.map (fun d => Over (inr d)) ds ++ Over (inl e) :: pool). split.
      * rewrite <- (app_nil_r t).
        apply (races_plays p t (inl e) Ht);
          [apply first_rejected_values|exact Hfr|].
        apply races_rejected. rewrite first_rejected_app, first_rejected_values.
        reflexivity.
      * intros e0 _. exists (List.map (fun d => Over (inr d)) ds ++ [Over (inl e)]).
        split; [|now rewrite <- app_assoc].
        rewrite forallb_app, is_over_values. reflexivity.
    + destruct (run_each answer pool (past ++ t)) as [[t' out'] others'] eqn:He.
      injection Hrun as <- <- <-.
      destruct (IH (past ++ t) (ds ++ [b]) t' out' others' Hfr He)
        as (full & Hr & Hfull).
      rewrite map_app, <- app_assoc in Hr. simpl in Hr.
      exists full. split.
      * apply (races_plays p t (inr b) Ht);
          [apply first_rejected_values|exact Hfr|].
        destruct out' as [e|bs]; [exact Hr|].
        rewrite <- app_assoc in Hr. exact Hr.
      * intros e Hout. destruct out' as [e'|bs]; [|discriminate Hout].
        exact (Hfull e' eq_refl).
  - discriminate Hfr.
  - simpl in Hfr.
    destruct (run_each answer pool past) as [[t' out'] others'] eqn:He.
    injection Hrun as <- <- <-.
    destruct (IH past (ds ++ [b]) t' out' others' Hfr He) as (full & Hr & Hfull).
    rewrite map_app, <- app_assoc in Hr. simpl in Hr.
    exists full. split.
    + destruct out' as [e|bs]; [exact Hr|].
      rewrite <- app_assoc in Hr. exact Hr.
    + intros e Hout. destruct out' as [e'|bs]; [|discriminate Hout].
      exact (Hfull e' eq_refl).
Qed.

Lemma run_races_races {B} (answer : Oracle) (pool : list (Slot (Thrown + B)))
      past t1 out others :
  run_races answer pool past = (t1, out, others) ->
  exists full,
    races pool t1 out full /\
    (forall e, out = inl e ->
               exists done, forallb is_over done = true /\ full = done ++ others).
Proof.
  unfold run_races. destruct (first_rejected pool) as [e|] eqn:Hfr.
  - intros [= <- <- <-]. exists pool. split; [now apply races_rejected|].
    intros _ _. exists []. split; reflexivity.
  - intros Hrun.
    destruct (run_each_races answer pool past [] t1 out others Hfr Hrun)
      as (full & Hr & Hfull).
    exists full. split; [|exact Hfull].
    simpl in Hr. destruct out; exact Hr.
Qed.

Lemma run_drains_drains {R} (answer : Oracle) :
  forall (others : list (Slot R)) past done,
    forallb is_over done = true ->
    exists segs,
      drains (done ++ others) segs /\
      List.concat segs = run_drains answer others past.
Proof.
  induction others as [|[p|r] others IH]; intros past done Hdone; simpl.
  - exists []. split; [|reflexivity]. apply drains_done.
    now rewrite app_nil_r.
  - pose proof (run_task_truns answer p past) as Ht.
    destruct (run_task answer p past) as [t r]. simpl in *.
    apply truns_plays in Ht.
    destruct (IH (past ++ t) (done ++ [Over r])) as (segs & Hd & Hc).
    { rewrite forallb_app, Hdone. reflexivity. }
    rewrite <- app_assoc in Hd. simpl in Hd.
    destruct (drains_plays p t r Ht done others segs Hd) as (segs' & Hd' & Hc').
    exists segs'. split; [exact Hd'|]. now rewrite Hc', Hc.
  - destruct (IH past (done ++ [Over r])) as (segs & Hd & Hc).
    { rewrite forallb_app, Hdone. reflexivity. }
    rewrite <- app_assoc in Hd. exists segs. split; assumption.
Qed.

Lemma weave_nil segs : weave segs [] (List.concat segs).
Proof. induction segs; simpl; constructor; assumption. Qed.

Lemma weave_after segs tk : weave segs tk (tk ++ List.concat segs).
Proof.
  induction tk as [|e tk IH]; simpl; [apply weave_nil|].
  constructor. exact IH.
Qed.

Lemma weave_nil_inv segs t : weave segs [] t -> t = List.concat segs.
Proof.
  remember [] as tk eqn:Htk. induction 1; subst; simpl.
  - reflexivity.
  - now rewrite IHweave.
  - discriminate Htk.
Qed.

(** Every program has an execution under every oracle: [run] is total and
    what it computes is an execution. *)
Lemma run_runs {R} (answer : Oracle) (p : Prog R) :
  forall past, runs p (fst (run answer p past)) (snd (run answer p past)).
Proof.
  induction p as [r|c k IH|l k IH|B tasks k IH]; intros past; simpl.
  - split; reflexivity.
  - specialize (IH (answer past c) (past ++ [Called c (answer past c)])).
    destruct (run answer (k (answer past c)) (past ++ [Called c (answer past c)]))
      as [t r]. simpl in *.
    exists (answer past c), t. split; [reflexivity|exact IH].
  - specialize (IH (past ++ [Logged l])).
    destruct (run answer k (past ++ [Logged l])) as [t r]. simpl in *.
    exists t. split; [reflexivity|exact IH].
  - pose proof (run_starts_starts answer tasks past) as Hs.
    destruct (run_starts answer tasks past) as [t0 pool]. simpl in Hs.
    destruct (run_races answer pool (past ++ t0)) as [[t1 out] others] eqn:Hr.
    apply run_races_races in Hr. destruct Hr as (full & Hr & Hfull).
    specialize (IH out (past ++ t0 ++ t1)).
    destruct (run answer (k out) (past ++ t0 ++ t1)) as [tk r]. simpl in IH.
    exists t0, pool, t1, out, full. split; [exact Hs|]. split; [exact Hr|].
    destruct out as [e|bs]; simpl.
    + destruct (Hfull e eq_refl) as (done & Hdone & ->).
      destruct (run_drains_drains answer others (past ++ t0 ++ t1 ++ tk) done Hdone)
        as (segs & Hd & Hc).
      exists segs, tk, (tk ++ List.concat segs). split; [exact Hd|].
      split; [exact IH|]. split; [apply weave_after|]. now rewrite Hc.
    + exists tk. split; [exact IH|reflexivity].
Qed.

(** *** Sequencing *)

#[global] Instance tidy_ret {A} (a : A) : Tidy (ret a).
Proof. exact I. Qed.

#[global] Instance tidy_throw {A} e : Tidy (@throw _ A e).
Proof. exact I. Qed.

#[global] Instance tidy_await c : Tidy (await c).
Proof. intros o. exact I. Qed.

#[global] Instance tidy_bind {A B} (p : M A) (f : A -> M B) :
  Tidy p -> (forall a, Tidy (f a)) -> Tidy (bind p f).
Proof.
  unfold Tidy, bind. intros Hp Hf.
  induction p as [[e|a]|c k IH|l k IH|C tasks k IH]; simpl in *.
  - exact I.
  - apply Hf.
  - intros o. apply IH, Hp.
  - apply IH, Hp.
  - destruct Hp as [He Hb]. split.
    + intros e. rewrite He. reflexivity.
    + intros bs. apply IH, Hb.
Qed.

#[global] Instance tidy_promise_all_map {A B} (f : A -> TM B) xs :
  Tidy (promise_all_map f xs).
Proof. split; [reflexivity|intros bs; exact I]. Qed.

Lemma runs_bind_tidy {A B} (p : M A) (f : A -> M B) :
  tidy p ->
  forall t r,
    runs (bind p f) t r <->
    (exists e, runs p t (inl e) /\ r = inl e) \/
    (exists t1 a t2, t = t1 ++ t2 /\ runs p t1 (inr a) /\ runs (f a) t2 r).
Proof.
  unfold bind.
  induction p as [[e|a]|c k IH|l k IH|C tasks k IH]; intros Hp t r; simpl in *.
  - split.
    + intros [-> ->]. left. exists e. repeat split.
    + intros [(e' & [-> [= <-]] & ->)|(t1 & a & t2 & _ & [_ [=]] & _)].
      split; reflexivity.
  - split.
    + intros H. right. exists [], a, t. repeat split. exact H.
    + intros [(e' & [_ [=]] & _)|(t1 & a' & t2 & -> & [-> Ha] & Hrun)].
      injection Ha as <-. exact Hrun.
  - split.
    + intros (o & t' & -> & H). apply (IH o (Hp o)) in H.
      destruct H as [(e & H & ->)|(t1 & a & t2 & -> & H1 & H2)].
      * left. exists e. split; [|reflexivity]. exists o, t'. now split.
      * right. exists (Called c o :: t1), a, t2. repeat split; [|exact H2].
        exists o, t1. now split.
    + intros [(e & (o & t' & -> & H) & ->)|(t1 & a & t2 & -> & (o & t' & -> & H1) & H2)].
      * exists o, t'. split; [reflexivity|]. apply (IH o (Hp o)). left. eauto.
      * exists o, (t' ++ t2). split; [reflexivity|]. apply (IH o (Hp o)).
        right. exists t', a, t2. now repeat split.
  - split.
    + intros (t' & -> & H). apply (IH Hp) in H.
      destruct H as [(e & H & ->)|(t1 & a & t2 & -> & H1 & H2)].
      * left. exists e. split; [|reflexivity]. exists t'. now split.
      * right. exists (Logged l :: t1), a, t2. repeat split; [|exact H2].
        exists t1. now split.
    + intros [(e & (t' & -> & H) & ->)|(t1 & a & t2 & -> & (t' & -> & H1) & H2)].
      * exists t'. split; [reflexivity|]. apply (IH Hp). left. eauto.
      * exists (t' ++ t2). split; [reflexivity|]. apply (IH Hp).
        right. exists t', a, t2. now repeat split.
  - destruct Hp as [He Hb]. split.
    + intros (t0 & pool & t1 & out & others & Hs & Hr & H).
      destruct out as [e|bs].
      * destruct H as (segs & tk & tail & Hd & H & Hw & ->).
        rewrite He in H. simpl in H. destruct H as [-> ->].
        left. exists e. split; [|reflexivity].
        exists t0, pool, t1, (inl e), others. split; [exact Hs|]. split; [exact Hr|].
        exists segs, [], tail. rewrite He. repeat split; assumption.
      * destruct H as (t2 & H & ->). apply (IH (inr bs) (Hb bs)) in H.
        destruct H as [(e & H & ->)|(ta & a & tb & -> & H1 & H2)].
        -- left. exists e. split; [|reflexivity].
           exists t0, pool, t1, (inr bs), others. split; [exact Hs|].
           split; [exact Hr|]. exists t2. now split.
        -- right. exists (t0 ++ t1 ++ ta), a, tb.
           split; [now rewrite <- !app_assoc|]. split; [|exact H2].
           exists t0, pool, t1, (inr bs), others. split; [exact Hs|].
           split; [exact Hr|]. exists ta. now split.
    + intros [(e & (t0 & pool & t1 & out & others & Hs & Hr & H) & ->)
             |(ta & a & tb & -> & (t0 & pool & t1 & out & others & Hs & Hr & H) & H2)].
      * exists t0, pool, t1, out, others. split; [exact Hs|]. split; [exact Hr|].
        destruct out as [e'|bs].
        -- destruct H as (segs & tk & tail & Hd & H & Hw & ->).
           exists segs, tk, tail. rewrite He in *. simpl in *.
           destruct H as [-> [= ->]]. now repeat split.
        -- destruct H as (t2 & H & ->). exists t2. split; [|reflexivity].
           apply (IH (inr bs) (Hb bs)). left. eauto.
      * exists t0, pool, t1, out, others. split; [exact Hs|]. split; [exact Hr|].
        destruct out as [e'|bs].
        -- destruct H as (segs & tk & tail & Hd & H & Hw & ->).
           rewrite He in H. destruct H as [_ [=]].
        -- destruct H as (t2 & H & ->). exists (t2 ++ tb).
           split; [|now rewrite <- !app_assoc].
           apply (IH (inr bs) (Hb bs)). right. exists t2, a, tb. now repeat split.
Qed.

(** Sequencing: the first part threw and the rest was skipped, or it gave
    a value and the rest ran on it. *)
Lemma runs_bind {A B} (p : M A) {Hp : Tidy p} (f : A -> M B) t r :
  runs (bind p f) t r <->
  (exists e, runs p t (inl e) /\ r = inl e) \/
  (exists t1 a t2, t = t1 ++ t2 /\ runs p t1 (inr a) /\ runs (f a) t2 r).
Proof. apply runs_bind_tidy, Hp. Qed.

Lemma runs_await c t r : runs (await c) t r <-> t = [Called c r].
Proof.
  simpl. split.
  - intros (o & t' & -> & -> & ->). reflexivity.
  - intros ->. exists r, []. repeat split.
Qed.

Lemma runs_ret {A} (a : A) t r : runs (ret a) t r <-> t = [] /\ r = inr a.
Proof. reflexivity. Qed.

(** [x <- await c ;; f x] *)
Lemma runs_await_bind {B} c (f : resp c -> M B) t r :
  runs (bind (await c) f) t r <->
  (exists e, t = [Called c (inl e)] /\ r = inl e) \/
  (exists a t', t = Called c (inr a) :: t' /\ runs (f a) t' r).
Proof.
  rewrite (runs_bind (await c) f t r). split.
  - intros [(e & H & ->)|(t1 & a & t2 & -> & H1 & H2)].
    + apply runs_await in H. left. exists e. now split.
    + apply runs_await in H1. subst t1. right. exists a, t2. now split.
  - intros [(e & -> & ->)|(a & t' & -> & H)].
    + left. exists e. split; [now apply runs_await|reflexivity].
    + right. exists [Called c (inr a)], a, t'. repeat split; [|exact H].
      now apply runs_await.
Qed.

(** A continuation that only computes. *)
Lemma runs_pbind_pure {A B} (p : Prog A) (f : A -> Prog B) (g : A -> B) :
  (forall a, f a = Ret (g a)) ->
  forall t r, runs (pbind p f) t r <-> exists a, runs p t a /\ r = g a.
Proof.
  intros Hf. induction p as [a|c k IH|l k IH|C tasks k IH]; intros t r; simpl.
  - rewrite Hf. simpl. split.
    + intros [-> ->]. exists a. repeat split.
    + intros (a' & [-> ->] & ->). split; reflexivity.
  - split.
    + intros (o & t' & -> & H). apply IH in H. destruct H as (a & H & ->).
      exists a. split; [|reflexivity]. exists o, t'. now split.
    + intros (a & (o & t' & -> & H) & ->). exists o, t'. split; [reflexivity|].
      apply IH. eauto.
  - split.
    + intros (t' & -> & H). apply IH in H. destruct H as (a & H & ->).
      exists a. split; [|reflexivity]. exists t'. now split.
    + intros (a & (t' & -> & H) & ->). exists t'. split; [reflexivity|].
      apply IH. eauto.
  - split.
    + intros (t0 & pool & t1 & out & others & Hs & Hr & H).
      destruct out as [e|bs].
      * destruct H as (segs & tk & tail & Hd & H & Hw & ->).
        apply IH in H. destruct H as (a & H & ->). exists a. split; [|reflexivity].
        exists t0, pool, t1, (inl e), others. split; [exact Hs|]. split; [exact Hr|].
        exists segs, tk, tail. now repeat split.
      * destruct H as (t2 & H & ->).
        apply IH in H. destruct H as (a & H & ->). exists a. split; [|reflexivity].
        exists t0, pool, t1, (inr bs), others. split; [exact Hs|]. split; [exact Hr|].
        exists t2. now split.
    + intros (a & (t0 & pool & t1 & out & others & Hs & Hr & H) & ->).
      exists t0, pool, t1, out, others. split; [exact Hs|]. split; [exact Hr|].
      destruct out as [e|bs].
      * destruct H as (segs & tk & tail & Hd & H & Hw & ->).
        exists segs, tk, tail. repeat split; try assumption. apply IH. eauto.
      * destruct H as (t2 & H & ->). exists t2. split; [|reflexivity].
        apply IH. eauto.
Qed.

(** What follows a body [p]: on a value, the continuation after it; on
    a throw, the continuation while the tasks that a rejected
    [Promise.all] left go on ([segs], which are calls of [p]). *)
Lemma runs_pbind_tidy {A B} (p : M A) (g : Thrown + A -> Prog B) :
  tidy p ->
  forall t r,
    runs (pbind p g) t r ->
    (exists t1 a t2, t = t1 ++ t2 /\ runs p t1 (inr a) /\ runs (g (inr a)) t2 r) \/
    (exists e pre segs th tail,
        runs p (pre ++ List.concat segs) (inl e) /\ runs (g (inl e)) th r /\
        weave segs th tail /\ t = pre ++ tail).
Proof.
  induction p as [[e|a]|c k IH|l k IH|C tasks k IH]; intros Hp t r H; simpl in *.
  - right. exists e, [], [], t, t. repeat split; [exact H|constructor].
  - left. exists [], a, t. repeat split. exact H.
  - destruct H as (o & t' & -> & H). apply (IH o (Hp o)) in H.
    destruct H as [(t1 & a & t2 & -> & H1 & H2)
                  |(e & pre & segs & th & tail & H & Hh & Hw & ->)].
    + left. exists (Called c o :: t1), a, t2. repeat split; [|exact H2].
      exists o, t1. now split.
    + right. exists e, (Called c o :: pre), segs, th, tail.
      repeat split; try assumption. exists o, (pre ++ List.concat segs). now split.
  - destruct H as (t' & -> & H). apply (IH Hp) in H.
    destruct H as [(t1 & a & t2 & -> & H1 & H2)
                  |(e & pre & segs & th & tail & H & Hh & Hw & ->)].
    + left. exists (Logged l :: t1), a, t2. repeat split; [|exact H2].
      exists t1. now split.
    + right. exists e, (Logged l :: pre), segs, th, tail.
      repeat split; try assumption. exists (pre ++ List.concat segs). now split.
  - destruct Hp as [He Hb].
    destruct H as (t0 & pool & t1 & out & others & Hs & Hr & H).
    destruct out as [e|bs].
    + destruct H as (segs & tk & tail & Hd & H & Hw & ->).
      rewrite He in H. simpl in H.
      right. exists e, (t0 ++ t1), segs, tk, tail.
      split; [|split; [exact H|split; [exact Hw|now rewrite <- app_assoc]]].
      exists t0, pool, t1, (inl e), others. split; [exact Hs|]. split; [exact Hr|].
      exists segs, [], (List.concat segs). rewrite He.
      split; [exact Hd|]. split; [split; reflexivity|].
      split; [apply weave_nil|now rewrite <- app_assoc].
    + destruct H as (t2 & H & ->). apply (IH (inr bs) (Hb bs)) in H.
      destruct H as [(ta & a & tb & -> & H1 & H2)
                    |(e & pre & segs & th & tail & H & Hh & Hw & ->)].
      * left. exists (t0 ++ t1 ++ ta), a, tb.
        split; [now rewrite <- !app_assoc|]. split; [|exact H2].
        exists t0, pool, t1, (inr bs), others. split; [exact Hs|]. split; [exact Hr|].
        exists ta. now split.
      * right. exists e, (t0 ++ t1 ++ pre), segs, th, tail.
        split; [|split; [exact Hh|split; [exact Hw|now rewrite <- !app_assoc]]].
        exists t0, pool, t1, (inr bs), others. split; [exact Hs|]. split; [exact Hr|].
        exists (pre ++ List.concat segs). split; [exact H|now rewrite <- !app_assoc].
Qed.

(** Without [Promise.all] what follows comes after. *)
Lemma runs_pbind_seq {A B} (p : Prog A) (f : A -> Prog B) :
  sequential p ->
  forall t r,
    runs (pbind p f) t r <->
    exists t1 a t2, t = t1 ++ t2 /\ runs p t1 a /\ runs (f a) t2 r.
Proof.
  induction p as [a0|c k IH|l k IH|C tasks k IH]; intros Hp t r; simpl in *.
  - split.
    + intros H. exists [], a0, t. repeat split; assumption.
    + intros (t1 & a & t2 & -> & [-> ->] & H). exact H.
  - split.
    + intros (o & t' & -> & H). apply (IH o (Hp o)) in H.
      destruct H as (t1 & a & t2 & -> & H1 & H2).
      exists (Called c o :: t1), a, t2. repeat split; [|exact H2].
      exists o, t1. split; [reflexivity|exact H1].
    + intros (t1 & a & t2 & -> & (o & t' & -> & H1) & H2).
      exists o, (t' ++ t2). split; [reflexivity|].
      apply (IH o (Hp o)). exists t', a, t2. repeat split; assumption.
  - split.
    + intros (t' & -> & H). apply (IH Hp) in H.
      destruct H as (t1 & a & t2 & -> & H1 & H2).
      exists (Logged l :: t1), a, t2. repeat split; [|exact H2].
      exists t1. split; [reflexivity|exact H1].
    + intros (t1 & a & t2 & -> & (t' & -> & H1) & H2).
      exists (t' ++ t2). split; [reflexivity|].
      apply (IH Hp). exists t', a, t2. repeat split; assumption.
  - destruct Hp.
Qed.

Lemma runs_pbind_assoc {A B C} (p : Prog A) (f : A -> Prog B) (g : B -> Prog C) :
  forall t r,
    runs (pbind (pbind p f) g) t r <-> runs (pbind p (fun a => pbind (f a) g)) t r.
Proof.
  induction p as [a0|c k IH|l k IH|D tasks k IH]; intros t r; simpl.
  - reflexivity.
  - split; intros (o & t' & -> & H); exists o, t'; (split; [reflexivity|]);
      apply IH; exact H.
  - split; intros (t' & -> & H); exists t'; (split; [reflexivity|]);
      apply IH; exact H.
  - split; intros (t0 & pool & t1 & out & others & Hs & Hr & H);
      exists t0, pool, t1, out, others; (split; [exact Hs|]); (split; [exact Hr|]);
      destruct out as [e|bs].
    + destruct H as (segs & tk & tail & Hd & H & Hw & ->).
      exists segs, tk, tail. repeat split; try assumption. apply IH. exact H.
    + destruct H as (t2 & H & ->). exists t2. split; [|reflexivity].
      apply IH. exact H.
    + destruct H as (segs & tk & tail & Hd & H & Hw & ->).
      exists segs, tk, tail. repeat split; try assumption. apply IH. exact H.
    + destruct H as (t2 & H & ->). exists t2. split; [|reflexivity].
      apply IH. exact H.
Qed.

Lemma sequential_pbind {A B} (p : Prog A) (f : A -> Prog B) :
  sequential p -> (forall a, sequential (f a)) -> sequential (pbind p f).
Proof.
  intros Hp Hf. induction p as [a0|c k IH|l k IH|C tasks k IH]; simpl in *.
  - apply Hf.
  - intros o. apply IH, Hp.
  - apply IH, Hp.
  - destruct Hp.
Qed.

Lemma sequential_bind {A B} (p : M A) (f : A -> M B) :
  sequential p -> (forall a, sequential (f a)) -> sequential (bind p f).
Proof.
  intros Hp Hf. apply sequential_pbind; [exact Hp|].
  intros [e|a]; [exact I|apply Hf].
Qed.

Lemma sequential_await c : sequential (await c).
Proof. intros o. exact I. Qed.

(** One entry among the stretches. *)
Lemma weave_one segs e tail :
  weave segs [e] tail ->
  exists s1 s2, List.concat segs = s1 ++ s2 /\ tail = s1 ++ e :: s2.
Proof.
  remember [e] as tk eqn:Htk. induction 1 as [tk|s segs tk t H IH|e' segs tk t H IH].
  - subst tk. exists [], []. split; reflexivity.
  - destruct (IH Htk) as (s1 & s2 & Hc & ->).
    exists (s ++ s1), s2. simpl. rewrite Hc, <- !app_assoc. split; reflexivity.
  - injection Htk as -> ->. apply weave_nil_inv in H. subst t.
    exists [], (List.concat segs). split; reflexivity.
Qed.

(** *** What the tasks of a [Promise.all] do, task by task *)

Lemma finishes_resume {R} (p : Task R) t s pre post trs :
  stretch p t s ->
  finishes (pre ++ s :: post) trs ->
  exists trs',
    finishes (pre ++ Waiting p :: post) trs' /\
    List.map snd trs' = List.map snd trs /\
    Permutation (t ++ List.concat (List.map fst trs))
                (List.concat (List.map fst trs')).
Proof.
  unfold finishes. intros Hs H.
  apply Forall2_app_inv_l in H. destruct H as (l1 & l2 & H1 & H2 & ->).
  inversion H2 as [|s0 [ts rs] post0 l2' Hf Hpost]; subst. simpl in Hf.
  exists (l1 ++ (t ++ ts, rs) :: l2'). split; [|split].
  - apply Forall2_app; [exact H1|]. constructor; [|exact Hpost].
    simpl. exact (stretch_finish p t s ts rs Hs Hf).
  - rewrite !map_app. reflexivity.
  - rewrite !map_app, !concat_app. simpl. rewrite <- !app_assoc.
    apply Permutation_app_swap_app.
Qed.

Lemma races_finishes {B} (pool : list (Slot (Thrown + B))) t1 out others :
  races pool t1 out others ->
  forall trs,
    finishes others trs ->
    exists trs',
      finishes pool trs' /\
      List.map snd trs' = List.map snd trs /\
      Permutation (t1 ++ List.concat (List.map fst trs))
                  (List.concat (List.map fst trs')).
Proof.
  induction 1 as [pool e Hfr|pool bs Hful|pre p post t s t' out others Hfr Hs Hr IH];
    intros trs Hf.
  - exists trs. repeat split; [exact Hf|apply Permutation_refl].
  - exists trs. repeat split; [exact Hf|apply Permutation_refl].
  - destruct (IH trs Hf) as (trs1 & Hf1 & Hr1 & Hp1).
    destruct (finishes_resume p t s pre post trs1 Hs Hf1) as (trs2 & Hf2 & Hr2 & Hp2).
    exists trs2. split; [exact Hf2|]. split; [congruence|].
    rewrite <- app_assoc.
    eapply Permutation_trans; [|exact Hp2].
    apply Permutation_app_head. exact Hp1.
Qed.

Lemma races_ends {B} (pool : list (Slot (Thrown + B))) t1 out others :
  races pool t1 out others ->
  match out with
  | inl e => first_rejected others = Some e
  | inr bs => fulfilled others = Some bs
  end.
Proof. induction 1; assumption. Qed.

Lemma drains_finishes {R} (pool : list (Slot R)) segs :
  drains pool segs ->
  exists trs,
    finishes pool trs /\
    Permutation (List.concat segs) (List.concat (List.map fst trs)).
Proof.
  induction 1 as [pool Hover|pre p post t s segs Hs Hd IH].
  - induction pool as [|[p|r] pool IH]; simpl in Hover.
    + exists []. split; constructor.
    + discriminate Hover.
    + destruct (IH Hover) as (trs & Hf & Hp).
      exists (([], r) :: trs). split; [|exact Hp].
      constructor; [split; reflexivity|exact Hf].
  - destruct IH as (trs & Hf & Hp).
    destruct (finishes_resume p t s pre post trs Hs Hf) as (trs' & Hf' & _ & Hp').
    exists trs'. split; [exact Hf'|]. simpl.
    eapply Permutation_trans; [|exact Hp'].
    apply Permutation_app_head. exact Hp.
Qed.

Lemma starts_finishes {R} (ps : list (Task R)) t0 pool :
  starts ps t0 pool ->
  forall trs,
    finishes pool trs ->
    exists trs',
      each_runs ps trs' /\
      List.map snd trs' = List.map snd trs /\
      Permutation (t0 ++ List.concat (List.map fst trs))
                  (List.concat (List.map fst trs')).
Proof.
  induction 1 as [|p t s ps ts ss Hs Hst IH]; intros trs Hf.
  - inversion Hf; subst. exists []. repeat split; constructor.
  - inversion Hf as [|s0 [t1 r1] ss0 trs0 Hf1 Hf2]; subst. simpl in Hf1.
    destruct (IH trs0 Hf2) as (trs' & He & Hr & Hp).
    exists ((t ++ t1, r1) :: trs'). split; [|split].
    + constructor; [|exact He]. simpl. exact (stretch_finish p t s t1 r1 Hs Hf1).
    + simpl. now rewrite Hr.
    + simpl. rewrite <- !app_assoc. apply Permutation_app_head.
      eapply Permutation_trans; [apply Permutation_app_swap_app|].
      apply Permutation_app_head. exact Hp.
Qed.

Lemma first_rejected_finishes {B} (pool : list (Slot (Thrown + B))) e trs :
  first_rejected pool = Some e -> finishes pool trs ->
  In (inl e) (List.map snd trs).
Proof.
  intros Hfr Hf. induction Hf as [|s [t r] pool trs Hs Hf IH]; [discriminate Hfr|].
  simpl in *. destruct s as [p|[e'|b]].
  - right. exact (IH Hfr).
  - left. injection Hfr as ->. destruct Hs as [_ ->]. reflexivity.
  - right. exact (IH Hfr).
Qed.

Lemma fulfilled_finishes {B} (pool : list (Slot (Thrown + B))) bs :
  fulfilled pool = Some bs ->
  exists trs,
    finishes pool trs /\ List.map snd trs = List.map inr bs /\
    List.concat (List.map fst trs) = [].
Proof.
  revert bs. induction pool as [|[p|[e|b]] pool IH]; intros bs H; simpl in H;
    try discriminate H.
  - injection H as <-. exists []. repeat split. constructor.
  - destruct (fulfilled pool) as [bs'|]; [|discriminate H]. injection H as <-.
    destruct (IH bs' eq_refl) as (trs & Hf & Hr & Hc).
    exists (([], inr b) :: trs). split; [|split].
    + constructor; [split; reflexivity|exact Hf].
    + simpl. now rewrite Hr.
    + exact Hc.
Qed.

(** Every execution of a [Promise.all] that is not caught is made of one
    whole run of each task, the entries of these runs mixed; the values
    are those of the tasks, in the order of the array, and a rejection is
    that of one of the tasks. *)
Lemma runs_All {B} (tasks : list (TM B)) t r :
  runs (All tasks (fun r => Ret r)) t r ->
  exists trs,
    each_runs tasks trs /\
    Permutation t (List.concat (List.map fst trs)) /\
    match r with
    | inr bs => List.map snd trs = List.map inr bs
    | inl e => In (inl e) (List.map snd trs)
    end.
Proof.
  simpl. intros (t0 & pool & t1 & out & others & Hs & Hr & H).
  pose proof (races_ends pool t1 out others Hr) as Hend.
  destruct out as [e|bs].
  - destruct H as (segs & tk & tail & Hd & [-> ->] & Hw & ->).
    apply weave_nil_inv in Hw. subst tail.
    destruct (drains_finishes others segs Hd) as (trs0 & Hf0 & Hp0).
    destruct (races_finishes pool t1 (inl e) others Hr trs0 Hf0) as (trs1 & Hf1 & Hr1 & Hp1).
    destruct (starts_finishes tasks t0 pool Hs trs1 Hf1) as (trs2 & Hf2 & Hr2 & Hp2).
    exists trs2. split; [exact Hf2|]. split.
    + eapply Permutation_trans; [|exact Hp2]. apply Permutation_app_head.
      eapply Permutation_trans; [|exact Hp1]. apply Permutation_app_head. exact Hp0.
    + rewrite Hr2, Hr1. exact (first_rejected_finishes others e trs0 Hend Hf0).
  - destruct H as (t2 & [-> ->] & ->).
    destruct (fulfilled_finishes others bs Hend) as (trs0 & Hf0 & Hr0 & Hc0).
    destruct (races_finishes pool t1 (inr bs) others Hr trs0 Hf0) as (trs1 & Hf1 & Hr1 & Hp1).
    destruct (starts_finishes tasks t0 pool Hs trs1 Hf1) as (trs2 & Hf2 & Hr2 & Hp2).
    exists trs2. split; [exact Hf2|]. split.
    + rewrite app_nil_r.
      eapply Permutation_trans; [|exact Hp2]. apply Permutation_app_head.
      rewrite Hc0, app_nil_r in Hp1. exact Hp1.
    + now rewrite Hr2, Hr1.
Qed.

(** No task, no call. *)
Lemma runs_All_nil {B} t (r : Thrown + list B) :
  runs (All (@nil (TM B)) (fun r => Ret r)) t r <-> t = [] /\ r = inr [].
Proof.
  split.
  - intros H. destruct (runs_All [] t r H) as (trs & He & Hp & Hr).
    inversion He; subst. simpl in *. apply Permutation_sym, Permutation_nil in Hp.
    split; [exact Hp|].
    destruct H as (t0 & pool & t1 & out & others & Hs & Hra & H).
    inversion Hs; subst.
    inversion Hra as [pool e Hfr|pool bs Hful|pre p post ? ? ? ? ? ? ? ? Heq]; subst.
    + discriminate Hfr.
    + injection Hful as <-. destruct H as (t2 & [_ ->] & _). reflexivity.
    + destruct pre; discriminate Heq.
  - intros [-> ->]. exists [], [], [], (inr []), [].
    split; [constructor|]. split; [now apply races_fulfilled|].
    exists []. repeat split.
Qed.

(** *** Answered calls *)

Lemma all_answered_app t1 t2 :
  all_answered (t1 ++ t2) <-> all_answered t1 /\ all_answered t2.
Proof. unfold all_answered. rewrite forallb_app. apply andb_true_iff. Qed.

Lemma all_answered_cons e t :
  all_answered (e :: t) <-> rejected e = false /\ all_answered t.
Proof.
  unfold all_answered. simpl. rewrite andb_true_iff, negb_true_iff. reflexivity.
Qed.

Lemma all_answered_no_throw t c e : all_answered t -> ~ In (Called c (inl e)) t.
Proof.
  unfold all_answered. rewrite forallb_forall. intros H Hin.
  specialize (H _ Hin). discriminate H.
Qed.

Lemma all_answered_perm t t' : Permutation t t' -> all_answered t -> all_answered t'.
Proof.
  unfold all_answered. rewrite !forallb_forall. intros Hp H e Hin.
  apply H. apply Permutation_sym in Hp. exact (Permutation_in e Hp Hin).
Qed.

Lemma all_answered_concat ts :
  all_answered (List.concat ts) <-> Forall all_answered ts.
Proof.
  induction ts as [|t ts IH]; simpl.
  - split; [constructor|reflexivity].
  - rewrite all_answered_app, IH. split.
    + intros [H1 H2]. now constructor.
    + intros H. inversion H; subst. now split.
Qed.

Lemma propagates_ret {A} (a : A) : propagates (ret a).
Proof. intros t r [-> ->]. reflexivity. Qed.

Lemma propagates_throw {A} e : propagates (@throw _ A e).
Proof. intros t r [-> ->]. left. reflexivity. Qed.

Lemma propagates_await c : propagates (await c).
Proof.
  intros t r H. apply runs_await in H. subst t. destruct r as [e|a]; simpl.
  - right. exists [], c. split; reflexivity.
  - reflexivity.
Qed.

Lemma propagates_bind {A B} (p : M A) (f : A -> M B) :
  Tidy p -> propagates p -> (forall a, propagates (f a)) -> propagates (bind p f).
Proof.
  intros Hp Hpp Hf t r H. apply runs_bind in H; [|exact Hp].
  destruct H as [(e & H & ->)|(t1 & a & t2 & -> & H1 & H2)].
  - exact (Hpp _ _ H).
  - apply Hpp in H1. apply Hf in H2. simpl in H1.
    destruct r as [e|b]; simpl in *.
    + destruct H2 as [H2|(pre & c & -> & H2)].
      * left. apply all_answered_app. now split.
      * right. exists (t1 ++ pre), c. rewrite app_assoc. split; [reflexivity|].
        apply all_answered_app. now split.
    + apply all_answered_app. now split.
Qed.

End RunFacts.

Create HintDb propagates.
#[global] Hint Resolve propagates_ret propagates_throw propagates_await : propagates.

(** Builds the execution a goal [runs p t r] asks for when [t] is given
    entry by entry. *)
Ltac trace_exact :=
  repeat (cbn;
          match goal with
          | |- _ /\ _ => split
          | |- exists _, _ => eexists
          | |- _ = _ => reflexivity
          end).

(** Splits an execution of [x <- await c ;; ...] into the case where [c]
    threw and the case where it answered. *)
Ltac await_inv H :=
  apply runs_await_bind in H;
  destruct H as [(?e & -> & ->)|(?a & ?t & -> & H)].

Ltac threw_early :=
  split; [reflexivity|split; [eauto|intros Hans; discriminate Hans]].

(** Splits an execution of [x <- p ;; ...]. *)
Ltac bind_inv H := apply runs_bind in H; [|exact _].

(** ** What each function does with the SDK *)

Section StepFacts.

Context {sdk : Sdk}.
Local Open Scope list_scope.

(** *** Nothing below [fundAndUploadNestedBundle] catches a rejection *)

#[global] Instance tidy_prepareFiles files s : Tidy (prepareFiles files s).
Proof. unfold prepareFiles. exact _. Qed.

#[global] Instance tidy_bundleItems m s : Tidy (bundleItems m s).
Proof. unfold bundleItems. exact _. Qed.

#[global] Instance tidy_last_item_id b : Tidy (last_item_id b).
Proof. unfold last_item_id. destruct (Js.index _ _); exact _. Qed.

#[global] Instance tidy_uploadBundle b : Tidy (uploadBundle b).
Proof. unfold uploadBundle. exact _. Qed.

#[global] Instance tidy_upload_attempt files : Tidy (upload_attempt files).
Proof. unfold upload_attempt. exact _. Qed.

(** *** Throws are passed on *)

Lemma bundleItems_propagates m s : propagates (bundleItems m s).
Proof.
  unfold bundleItems.
  repeat (apply propagates_bind; [exact _|solve [auto with propagates]|intros ?]).
  auto with propagates.
Qed.

Lemma last_item_id_propagates b : propagates (last_item_id b).
Proof.
  unfold last_item_id.
  destruct (Js.index _ _); auto with propagates.
Qed.

Lemma uploadBundle_propagates b : propagates (uploadBundle b).
Proof.
  unfold uploadBundle.
  repeat (apply propagates_bind; [exact _|solve [auto with propagates]|intros ?]).
  apply propagates_bind; [exact _|apply last_item_id_propagates|intros ?].
  auto with propagates.
Qed.

(** *** One file *)

(** The task of one file: its three calls are answered and it gives the
    name and the signed item, or it stops at the call that threw. *)
Lemma prepare_task_runs s file t r :
  truns (prepare_task s file) t r ->
  (exists p, t = file_steps s file p /\ r = inr (file_name file, signed p)) \/
  (exists e,
      r = inl e /\
      (t = [Called (ArrayBuffer file) (inl e)] \/
       (exists buf,
           t = [Called (ArrayBuffer file) (inr buf);
                Called (CreateData (Binary buf) s [content_type_tag file]) (inl e)]) \/
       (exists buf item,
           t = [Called (ArrayBuffer file) (inr buf);
                Called (CreateData (Binary buf) s [content_type_tag file]) (inr item);
                Called (ItemSign item s) (inl e)]))).
Proof.
  unfold prepare_task, prepareFile. cbn.
  intros (o1 & t1 & -> & H). destruct o1 as [e|buf]; cbn in H.
  { destruct H as [-> ->]. right. exists e. split; [reflexivity|]. now left. }
  destruct H as (o2 & t2 & -> & H). destruct o2 as [e|item]; cbn in H.
  { destruct H as [-> ->]. right. exists e. split; [reflexivity|].
    right. left. now exists buf. }
  destruct H as (o3 & t3 & -> & H). destruct o3 as [e|sg]; cbn in H.
  { destruct H as [-> ->]. right. exists e. split; [reflexivity|].
    right. right. now exists buf, item. }
  destruct H as [-> ->]. left.
  exists {| buffer := buf; created := item; signed := sg |}. split; reflexivity.
Qed.

Lemma prepare_task_threw s file t e :
  truns (prepare_task s file) t (inl e) ->
  ~ all_answered t /\ exists c, prepares s file c /\ In (Called c (inl e)) t.
Proof.
  intros H. apply prepare_task_runs in H.
  destruct H as [(p & _ & [=])|(e' & [= <-] & [->|[(buf & ->)|(buf & item & ->)]])].
  - split; [intros Ha; discriminate Ha|].
    exists (ArrayBuffer file). split; [now left|now left].
  - split; [intros Ha; discriminate Ha|].
    exists (CreateData (Binary buf) s [content_type_tag file]).
    split; [right; left; now exists buf|right; now left].
  - split; [intros Ha; discriminate Ha|].
    exists (ItemSign item s).
    split; [right; right; now exists item|right; right; now left].
Qed.

(** *** All files *)

Lemma Forall2_map_l_inv {X Y Z} (P : Y -> Z -> Prop) (f : X -> Y) xs :
  forall l, Forall2 P (List.map f xs) l -> Forall2 (fun x z => P (f x) z) xs l.
Proof.
  induction xs as [|x xs IH]; intros l H; inversion H; subst; constructor; auto.
Qed.

Lemma Forall2_in_r {X Z} (P : X -> Z -> Prop) xs l z :
  Forall2 P xs l -> In z l -> exists x, In x xs /\ P x z.
Proof.
  induction 1 as [|x z' xs l Hp H IH]; intros Hin; [destruct Hin|].
  destruct Hin as [->|Hin].
  - exists x. split; [now left|exact Hp].
  - destruct (IH Hin) as (x' & Hx & Hpx). exists x'. split; [now right|exact Hpx].
Qed.

(** Every execution of [prepareFiles] is made of one whole run of the
    task of each file, their calls mixed. *)
Lemma prepareFiles_tasks files s t r :
  runs (prepareFiles files s) t r ->
  exists trs,
    Forall2 (fun file tr => truns (prepare_task s file) (fst tr) (snd tr)) files trs /\
    Permutation t (List.concat (List.map fst trs)) /\
    match r with
    | inr m =>
        exists items, List.map snd trs = List.map inr items /\ m = Js.new_Map items
    | inl e => In (inl e) (List.map snd trs)
    end.
Proof.
  unfold prepareFiles. intros H. bind_inv H.
  destruct H as [(e & H & ->)|(t1 & items & t2 & -> & H & [-> ->])];
    unfold promise_all_map in H; apply runs_All in H;
    destruct H as (trs & He & Hp & Hr); apply Forall2_map_l_inv in He;
    exists trs; (split; [exact He|]).
  - split; [exact Hp|exact Hr].
  - rewrite app_nil_r. split; [exact Hp|]. exists items. now split.
Qed.

Lemma tasks_returned s files trs :
  Forall2 (fun file tr => truns (prepare_task s file) (fst tr) (snd tr)) files trs ->
  forall items,
    List.map snd trs = List.map inr items ->
    exists ps,
      List.length ps = List.length files /\
      items = named_items files ps /\
      List.concat (List.map fst trs) = files_steps s files ps.
Proof.
  induction 1 as [|file [t r] files trs Hrun H IH]; intros items Hitems.
  - destruct items; [|discriminate Hitems]. exists []. repeat split.
  - destruct items as [|it items]; [discriminate Hitems|].
    simpl in Hitems. injection Hitems as -> Hitems.
    destruct (IH items Hitems) as (ps & Hlen & -> & Hc).
    simpl in Hrun. apply prepare_task_runs in Hrun.
    destruct Hrun as [(p & -> & [= ->])|(e & [=] & _)].
    exists (p :: ps). split; [simpl; now rewrite Hlen|]. split; [reflexivity|].
    cbn [List.map fst List.concat files_steps]. now rewrite Hc.
Qed.

(** When [prepareFiles] returns, every task has made its three calls and
    the map is built from the names and the signed items, in the order of
    the files. *)
Lemma prepareFiles_returns files s t m :
  runs (prepareFiles files s) t (inr m) ->
  exists ps,
    List.length ps = List.length files /\
    m = Js.new_Map (named_items files ps) /\
    Permutation t (files_steps s files ps).
Proof.
  intros H. apply prepareFiles_tasks in H.
  destruct H as (trs & He & Hp & items & Hr & ->).
  destruct (tasks_returned s files trs He items Hr) as (ps & Hlen & -> & Hc).
  exists ps. split; [exact Hlen|]. split; [reflexivity|]. now rewrite <- Hc.
Qed.

(** When it throws, one of the tasks threw that value. *)
Lemma prepareFiles_threw files s t e :
  runs (prepareFiles files s) t (inl e) ->
  exists file t',
    In file files /\ truns (prepare_task s file) t' (inl e) /\ incl t' t.
Proof.
  intros H. apply prepareFiles_tasks in H. destruct H as (trs & He & Hp & Hr).
  apply in_map_iff in Hr. destruct Hr as ([t' r'] & Hr' & Hin). simpl in Hr'. subst r'.
  destruct (Forall2_in_r _ files trs _ He Hin) as (file & Hf & Hrun).
  exists file, t'. split; [exact Hf|]. split; [exact Hrun|].
  intros x Hx. apply (Permutation_in x (Permutation_sym Hp)).
  apply in_concat. exists t'. split; [|exact Hx].
  apply in_map_iff. exists (t', inl e). now split.
Qed.

Lemma files_steps_answered s : forall files ps, all_answered (files_steps s files ps).
Proof.
  induction files as [|file files IH]; intros [|p ps]; try reflexivity.
  cbn [files_steps]. apply all_answered_app. split; [reflexivity|apply IH].
Qed.

(** [prepareFiles] relays: a map only if every call was answered, and a
    throw only if a call threw that value. *)
Lemma prepareFiles_relays files s : relays (prepareFiles files s).
Proof.
  intros t [e|m] H.
  - right. destruct (prepareFiles_threw files s t e H) as (file & t' & _ & Hrun & Hincl).
    destruct (prepare_task_threw s file t' e Hrun) as (_ & c & _ & Hin).
    exists c. apply Hincl, Hin.
  - apply prepareFiles_returns in H. destruct H as (ps & _ & _ & Hp).
    apply (all_answered_perm _ _ (Permutation_sym Hp)), files_steps_answered.
Qed.

(** *** Answered calls give values *)

Lemma rwa_ret {A} (a : A) : returns_when_answered (ret a).
Proof. intros t r [-> ->] _. now exists a. Qed.

Lemma rwa_await c : returns_when_answered (await c).
Proof.
  intros t r H Hans. apply runs_await in H. subst t.
  destruct r as [e|a]; [discriminate Hans|now exists a].
Qed.

Lemma rwa_bind {A B} (p : M A) (f : A -> M B) :
  Tidy p -> returns_when_answered p -> (forall a, returns_when_answered (f a)) ->
  returns_when_answered (bind p f).
Proof.
  intros Hp Hpp Hf t r H Hans. apply runs_bind in H; [|exact Hp].
  destruct H as [(e & H & ->)|(t1 & a & t2 & -> & H1 & H2)].
  - destruct (Hpp _ _ H Hans) as (a & [=]).
  - apply all_answered_app in Hans. exact (Hf a _ _ H2 (proj2 Hans)).
Qed.

Lemma prepareFiles_answered files s : returns_when_answered (prepareFiles files s).
Proof.
  intros t [e|m] H Hans; [|now exists m].
  destruct (prepareFiles_threw files s t e H) as (file & t' & _ & Hrun & Hincl).
  destruct (prepare_task_threw s file t' e Hrun) as (_ & c & _ & Hin).
  destruct (all_answered_no_throw t c e Hans (Hincl _ Hin)).
Qed.

Lemma bundleItems_answered m s : returns_when_answered (bundleItems m s).
Proof.
  unfold bundleItems.
  repeat (apply rwa_bind; [exact _|solve [apply rwa_await]|intros ?]).
  apply rwa_ret.
Qed.

(** *** [bundleItems] and [uploadBundle], call by call *)

(** Either [bundleItems] reaches [bundleAndSignData], and then its result
    is that call's outcome, or an earlier call threw. *)
Lemma bundleItems_runs m s t r :
  runs (bundleItems m s) t r ->
  (exists irys manifest mi, t = bundle_steps m s irys manifest mi r) \/
  (existsb is_bundling t = false /\ (exists e, r = inl e) /\ ~ all_answered t).
Proof.
  unfold bundleItems. intros H.
  await_inv H; [right; threw_early|].
  await_inv H; [right; threw_early|].
  await_inv H; [right; threw_early|].
  left. exists a, a0, a1. unfold bundle_steps.
  await_inv H; [reflexivity|].
  destruct H as [-> ->]. reflexivity.
Qed.

Lemma bundleItems_returns m s t b :
  runs (bundleItems m s) t (inr b) <->
  exists irys manifest mi, t = bundle_steps m s irys manifest mi (inr b).
Proof.
  split.
  - intros H. apply bundleItems_runs in H.
    destruct H as [H|(_ & (e & [=]) & _)]. exact H.
  - intros (irys & manifest & mi & ->). unfold bundle_steps, bundleItems.
    trace_exact.
Qed.

(** Either [uploadBundle] reaches [uploadTransaction], which is then its
    last call, or an earlier call threw. *)
Lemma uploadBundle_runs b t r :
  runs (uploadBundle b) t r ->
  (exists irys u1 u2 u3 tx stx o,
      t = upload_steps b irys u1 u2 u3 tx stx o /\ r = after_upload b o) \/
  (existsb is_upload t = false /\ (exists e, r = inl e) /\ ~ all_answered t).
Proof.
  unfold uploadBundle. intros H.
  await_inv H; [right; threw_early|].
  await_inv H; [right; threw_early|].
  await_inv H; [right; threw_early|].
  await_inv H; [right; threw_early|].
  await_inv H; [right; threw_early|].
  await_inv H; [right; threw_early|].
  left. exists a, a0, a1, a2, a3, a4. unfold upload_steps.
  await_inv H; [exists (inl e); split; reflexivity|].
  exists (inr a5). bind_inv H.
  unfold after_upload, ids_of. unfold last_item_id in H.
  destruct (Js.index (bundle_items b) (Js.length (bundle_items b) - 1)) as [it|].
  - destruct H as [(e & [_ [=]] & _)|(t1 & x & t2 & -> & [-> [= <-]] & [-> ->])].
    split; reflexivity.
  - destruct H as [(e & [-> [= <-]] & ->)|(t1 & x & t2 & _ & [_ [=]] & _)].
    split; reflexivity.
Qed.

(** The array [uploadBundle] returns always has two elements. *)
Lemma uploadBundle_two b t ids :
  runs (uploadBundle b) t (inr ids) -> List.length ids = 2.
Proof.
  intros H. apply uploadBundle_runs in H.
  destruct H as [(irys & u1 & u2 & u3 & tx & stx & o & _ & H)|(_ & (e & [=]) & _)].
  destruct o as [e|receipt]; [discriminate H|].
  unfold after_upload, ids_of in H.
  destruct (Js.index _ _); [|discriminate H].
  injection H as ->. reflexivity.
Qed.

End StepFacts.

(** ** The whole orchestration *)

Section WholeRun.

Context {sdk : Sdk}.
Local Open Scope list_scope.

Lemma ids_of_two b rc ids :
  ids_of b rc = inr ids -> [nth 0 ids ""; nth 1 ids ""] = ids.
Proof.
  unfold ids_of. destruct (Js.index _ _); [|discriminate].
  intros [= <-]. reflexivity.
Qed.

(** When every call is answered, the attempt runs to the end of
    [uploadBundle]; its result is then decided by the index access.  The
    calls that prepare the files come in the order the tasks make them. *)
Lemma upload_attempt_answered files t r :
  runs (upload_attempt files) t r -> all_answered t ->
  exists a tp,
    List.length (prepared a) = List.length files /\
    runs (prepareFiles files (ephemeralSigner a)) tp (inr (preppedFiles files a)) /\
    Permutation tp (files_steps (ephemeralSigner a) files (prepared a)) /\
    t = answered_around tp files a /\
    r = ids_of (bundle a) (receipt a).
Proof.
  unfold upload_attempt. intros H Hans.
  await_inv H; [discriminate Hans|].
  await_inv H; [discriminate Hans|].
  apply all_answered_cons in Hans. destruct Hans as [_ Hans].
  apply all_answered_cons in Hans. destruct Hans as [_ Hans].
  bind_inv H.
  destruct H as [(e & H & ->)|(tp & m & t2 & -> & H1 & H)].
  { destruct (prepareFiles_answered _ _ _ _ H Hans) as (? & [=]). }
  apply all_answered_app in Hans. destruct Hans as [_ Hans].
  pose proof H1 as Hprep.
  apply prepareFiles_returns in H1. destruct H1 as (ps & Hlen & -> & Hperm).
  bind_inv H.
  destruct H as [(e & H & ->)|(t1 & b & t3 & -> & H1 & H)].
  { destruct (bundleItems_answered _ _ _ _ H Hans) as (? & [=]). }
  apply all_answered_app in Hans. destruct Hans as [_ Hans].
  apply bundleItems_returns in H1. destruct H1 as (irys & mf & mi & ->).
  bind_inv H.
  assert (Hup : forall tu ru, runs (uploadBundle b) tu ru -> all_answered tu ->
            exists irys' u1 u2 u3 x sx rc,
              tu = upload_steps b irys' u1 u2 u3 x sx (inr rc) /\ ru = ids_of b rc).
  { intros tu ru Hr Ha. apply uploadBundle_runs in Hr.
    destruct Hr as [(irys' & u1 & u2 & u3 & x & sx & o & -> & ->)|(_ & _ & Hn)];
      [|contradiction].
    destruct o as [e|rc]; [discriminate Ha|].
    exists irys', u1, u2, u3, x, sx, rc. split; reflexivity. }
  destruct H as [(e & H & ->)|(t1 & ids & t4 & -> & H1 & [-> ->])].
  - destruct (Hup _ _ H Hans) as (irys' & u1 & u2 & u3 & x & sx & rc & -> & Hr).
    exists {| jwk := a; ephemeralSigner := a0; prepared := ps;
              irys_bundling := irys; manifest := mf; manifestItem := mi;
              bundle := b; irys_upload := irys'; uploader1 := u1;
              uploader2 := u2; uploader3 := u3; tx := x; signedTx := sx;
              receipt := rc |}, tp.
    repeat split; [exact Hlen|exact Hprep|exact Hperm|exact Hr].
  - rewrite app_nil_r in Hans |- *.
    destruct (Hup _ _ H1 Hans) as (irys' & u1 & u2 & u3 & x & sx & rc & -> & Hr).
    exists {| jwk := a; ephemeralSigner := a0; prepared := ps;
              irys_bundling := irys; manifest := mf; manifestItem := mi;
              bundle := b; irys_upload := irys'; uploader1 := u1;
              uploader2 := u2; uploader3 := u3; tx := x; signedTx := sx;
              receipt := rc |}, tp.
    repeat split; [exact Hlen|exact Hprep|exact Hperm|]. cbn [bundle receipt].
    rewrite <- Hr. f_equal. symmetry in Hr. apply ids_of_two in Hr. exact Hr.
Qed.

(** *** The [try] statement *)

Lemma runs_catch_seq {A B C} (p : M A) (f : A -> M B) (g : Thrown + B -> Prog C) :
  sequential p ->
  forall t r,
    runs (pbind (bind p f) g) t r ->
    (exists e t1 t2, t = t1 ++ t2 /\ runs p t1 (inl e) /\ runs (g (inl e)) t2 r) \/
    (exists t1 a t2, t = t1 ++ t2 /\ runs p t1 (inr a) /\ runs (pbind (f a) g) t2 r).
Proof.
  intros Hp t r H. unfold bind in H. apply runs_pbind_assoc in H.
  apply runs_pbind_seq in H; [|exact Hp].
  destruct H as (t1 & [e|a] & t2 & -> & H1 & H2); simpl in H2.
  - left. exists e, t1, t2. now repeat split.
  - right. exists t1, a, t2. now repeat split.
Qed.

Lemma runs_catch_tidy {A B C} (p : M A) (f : A -> M B) (g : Thrown + B -> Prog C) :
  tidy p ->
  forall t r,
    runs (pbind (bind p f) g) t r ->
    (exists e pre segs th tail,
        runs p (pre ++ List.concat segs) (inl e) /\ runs (g (inl e)) th r /\
        weave segs th tail /\ t = pre ++ tail) \/
    (exists t1 a t2, t = t1 ++ t2 /\ runs p t1 (inr a) /\ runs (pbind (f a) g) t2 r).
Proof.
  intros Hp t r H. unfold bind in H. apply runs_pbind_assoc in H.
  apply runs_pbind_tidy in H; [|exact Hp].
  destruct H as [(t1 & a & t2 & -> & H1 & H2)
                |(e & pre & segs & th & tail & H & Hh & Hw & ->)].
  - right. exists t1, a, t2. now repeat split.
  - left. exists e, pre, segs, th, tail. now repeat split.
Qed.

Lemma sequential_bundleItems m s : sequential (bundleItems m s).
Proof.
  unfold bundleItems.
  repeat (apply sequential_bind; [apply sequential_await|intros ?]). exact I.
Qed.

Lemma sequential_uploadBundle b : sequential (uploadBundle b).
Proof.
  unfold uploadBundle.
  repeat (apply sequential_bind; [apply sequential_await|intros ?]).
  apply sequential_bind; [|intros ?; exact I].
  unfold last_item_id. destruct (Js.index _ _); exact I.
Qed.

(** The three ways through [fundAndUploadNestedBundle]: the attempt
    returns and its array is returned; or it throws outside of
    [Promise.all], the error is logged at once and the statement after the
    [try] returns the two empty strings; or [Promise.all] rejects, and
    then the same happens while the tasks of the other files go on: their
    remaining calls [post] come after the line is logged. *)
Lemma fundAndUploadNestedBundle_runs files t r :
  runs (fundAndUploadNestedBundle files) t r ->
  (exists ids, runs (upload_attempt files) t (inr ids) /\ r = inr ids) \/
  (exists e t0,
      runs (upload_attempt files) t0 (inl e) /\
      ends_well t0 (@inl Thrown (list string) e) /\
      t = t0 ++ [Logged (error_line e)] /\ r = inr [""; ""]) \/
  (exists e key s pre post,
      runs (prepareFiles files s) (pre ++ post) (inl e) /\
      t = Called GenerateJWK (inr key) :: Called (NewArweaveSigner key) (inr s)
            :: pre ++ Logged (error_line e) :: post /\
      r = inr [""; ""]).
Proof.
  unfold fundAndUploadNestedBundle, bind. intros H.
  apply (runs_pbind_pure _ _
           (fun r0 => match r0 with
                      | inl e => inl e
                      | inr (Some ids) => inr ids
                      | inr None => inr [""; ""]
                      end)) in H; [|intros [e|[ids|]]; reflexivity].
  destruct H as (r0 & H & ->).
  unfold try_catch, upload_attempt in H.
  apply runs_catch_seq in H; [|apply sequential_await].
  destruct H as [(e & t1 & t2 & -> & H1 & H2)|(t1 & key & ta & -> & H1 & H)];
    apply runs_await in H1; subst t1.
  { cbn in H2. destruct H2 as (t' & -> & -> & ->).
    right. left. exists e, [Called GenerateJWK (inl e)].
    split; [apply runs_await_bind; left; now exists e|].
    split; [right; now exists [], GenerateJWK|]. split; reflexivity. }
  apply runs_catch_seq in H; [|apply sequential_await].
  destruct H as [(e & t1 & t2 & -> & H1 & H2)|(t1 & s & tb & -> & H1 & H)];
    apply runs_await in H1; subst t1.
  { cbn in H2. destruct H2 as (t' & -> & -> & ->).
    right. left.
    exists e, [Called GenerateJWK (inr key); Called (NewArweaveSigner key) (inl e)].
    split.
    { apply runs_await_bind. right. exists key, [Called (NewArweaveSigner key) (inl e)].
      split; [reflexivity|]. apply runs_await_bind. left. now exists e. }
    split; [right; now exists [Called GenerateJWK (inr key)], (NewArweaveSigner key)|].
    split; reflexivity. }
  apply runs_catch_tidy in H; [|exact (tidy_prepareFiles files s)].
  destruct H as [(e & pre & segs & th & tail & H & Hh & Hw & ->)
                |(tp & m & tc & -> & Hprep & H)].
  { cbn in Hh. destruct Hh as (t' & -> & -> & ->).
    apply weave_one in Hw. destruct Hw as (s1 & s2 & Hc & ->).
    right. right. exists e, key, s, (pre ++ s1), s2.
    rewrite Hc, app_assoc in H. split; [exact H|].
    split; [simpl; now rewrite <- app_assoc|reflexivity]. }
  apply runs_pbind_seq in H.
  2: { apply sequential_bind; [apply sequential_bundleItems|intros b].
       apply sequential_bind; [apply sequential_uploadBundle|intros ids]. exact I. }
  destruct H as (tq & x & th & -> & Hq & Hh).
  assert (Hatt : runs (upload_attempt files)
                      (Called GenerateJWK (inr key)
                         :: Called (NewArweaveSigner key) (inr s) :: tp ++ tq) x).
  { unfold upload_attempt. apply runs_await_bind. right. eexists _, _.
    split; [reflexivity|]. apply runs_await_bind. right. eexists _, _.
    split; [reflexivity|]. apply (runs_bind (prepareFiles files s)). right.
    exists tp, m, tq. repeat split; assumption. }
  destruct x as [e|ids].
  - cbn in Hh. destruct Hh as (t' & -> & -> & ->).
    right. left. exists e, (Called GenerateJWK (inr key)
                              :: Called (NewArweaveSigner key) (inr s) :: tp ++ tq).
    split; [exact Hatt|]. split; [|split; [|reflexivity]].
    + assert (Hpq : propagates
                (bundle <- bundleItems m s ;;
                 ids <- uploadBundle bundle ;;
                 ret [nth 0 ids ""; nth 1 ids ""])).
      { apply propagates_bind; [exact _|apply bundleItems_propagates|intros b].
        apply propagates_bind; [exact _|apply uploadBundle_propagates|intros ids].
        apply propagates_ret. }
      apply Hpq in Hq. pose proof (prepareFiles_relays files s tp _ Hprep) as Htp.
      simpl in Htp. destruct Hq as [Hq|(pre & c & -> & Hq)].
      * left. change (all_answered ([Called GenerateJWK (inr key);
                                     Called (NewArweaveSigner key) (inr s)] ++ tp ++ tq)).
        rewrite !all_answered_app. repeat split; assumption.
      * right. exists (Called GenerateJWK (inr key)
                         :: Called (NewArweaveSigner key) (inr s) :: tp ++ pre), c.
        split; [simpl; now rewrite <- app_assoc|].
        change (all_answered ([Called GenerateJWK (inr key);
                               Called (NewArweaveSigner key) (inr s)] ++ tp ++ pre)).
        rewrite !all_answered_app. repeat split; assumption.
    + simpl. now rewrite <- !app_assoc.
  - destruct Hh as [-> ->]. left. exists ids. rewrite !app_nil_r.
    split; [exact Hatt|reflexivity].
Qed.

End WholeRun.

(** Reads an hypothesis [H : In e t], [t] given entry by entry, down to the
    entries that record the same call as [e]. *)
Ltac in_calls H :=
  simpl in H;
  repeat (destruct H as [H|H];
          [apply (f_equal entry_call) in H; simpl in H; try discriminate H|]);
  try contradiction.

(** ** Bundling and uploading *)

Section BundleAndUpload.

Context {sdk : Sdk}.
Local Open Scope list_scope.

Lemma in_bundling l s o t :
  In (Called (BundleAndSignData l s) o) t -> existsb is_bundling t = true.
Proof.
  intros H. apply existsb_exists. eexists. split; [exact H|reflexivity].
Qed.

Lemma in_upload u x o t :
  In (Called (UploadTransaction u x) o) t -> existsb is_upload t = true.
Proof.
  intros H. apply existsb_exists. eexists. split; [exact H|reflexivity].
Qed.

Lemma contract_bundle_steps R m s irys mf mi b :
  bundling_contract R (bundle_steps m s irys mf mi (inr b)) ->
  exists file_items mb,
    bundle_items b = file_items ++ [mb] /\
    Forall2 R (Js.values m) file_items /\ R mi mb.
Proof.
  intros H. unfold bundling_contract in H. rewrite Forall_forall in H.
  specialize (H (Called (BundleAndSignData (Js.values m ++ [mi]) s) (inr b))).
  simpl in H. assert (HF : Forall2 R (Js.values m ++ [mi]) (bundle_items b)).
  { apply H. unfold bundle_steps. simpl. tauto. }
  apply Forall2_app_inv_l in HF. destruct HF as (l1 & l2 & HF1 & HF2 & ->).
  inversion HF2 as [|x y l l' Hxy Hnil]; subst. inversion Hnil; subst.
  exists l1, y. repeat split; assumption.
Qed.

(** Where [bundleItems] calls [bundleAndSignData]. *)
Lemma bundleItems_bundling_call m s t r l s' o :
  runs (bundleItems m s) t r ->
  In (Called (BundleAndSignData l s') o) t ->
  s' = s /\
  exists irys mf mi, l = Js.values m ++ [mi] /\ t = bundle_steps m s irys mf mi r.
Proof.
  intros H Hin. apply bundleItems_runs in H.
  destruct H as [(irys & mf & mi & ->)|(Hno & _)].
  - unfold bundle_steps in Hin. in_calls Hin.
    injection Hin as <- <-. split; [reflexivity|].
    exists irys, mf, mi. split; reflexivity.
  - apply in_bundling in Hin. congruence.
Qed.

(** What [bundleItems] sends to [generateManifest]. *)
Lemma bundleItems_manifest_call m s t r irys pm o :
  runs (bundleItems m s) t r ->
  In (Called (GenerateManifest irys pm) o) t ->
  pm = pathMap_of m.
Proof.
  unfold bundleItems. intros H Hin.
  await_inv H; [in_calls Hin|].
  await_inv H; [in_calls Hin; now injection Hin as _ <-|].
  await_inv H; [in_calls Hin; now injection Hin as _ <-|].
  await_inv H; [in_calls Hin; now injection Hin as _ <-|].
  destruct H as [-> ->]. in_calls Hin. now injection Hin as _ <-.
Qed.

(** C3. For every map of prepared data items, [bundleItems] makes one
    bundle: whenever it calls [bundleAndSignData], it does so once, as its
    last call, with the ephemeral signer and with exactly the values of the
    item map followed by one manifest item (the data item created from the
    JSON of the manifest, tagged as a manifest); the bundle it returns is
    that call's answer.  Under the SDK's bundling contract the items of the
    returned bundle are the per-file items, in order, and then the manifest
    item: nothing dropped, nothing added. *)
Theorem bundleItems_bundles_items_and_manifest m s t r :
  runs (bundleItems m s) t r ->
  (forall l s' o,
      In (Called (BundleAndSignData l s') o) t ->
      s' = s /\
      exists irys mf mi,
        l = Js.values m ++ [mi] /\ t = bundle_steps m s irys mf mi r) /\
  (forall b,
      r = inr b ->
      exists irys mf mi,
        t = bundle_steps m s irys mf mi (inr b) /\
        forall R, bundling_contract R t ->
          exists file_items mb,
            bundle_items b = file_items ++ [mb] /\
            Forall2 R (Js.values m) file_items /\ R mi mb).
Proof.
  intros H. split.
  - intros l s' o Hin. exact (bundleItems_bundling_call m s t r l s' o H Hin).
  - intros b ->. apply bundleItems_returns in H.
    destruct H as (irys & mf & mi & ->). exists irys, mf, mi.
    split; [reflexivity|]. intros R HR.
    exact (contract_bundle_steps R m s irys mf mi b HR).
Qed.

(** C4. For every map of prepared data items, the path map that
    [bundleItems] hands to [generateManifest] has the keys of the item map,
    in the same order, and sends each of them to the identifier of the item
    stored under it; it has no other entry.  An execution that returns a
    bundle has made that call. *)
Theorem bundleItems_manifest_paths m s t r :
  Js.wf m ->
  runs (bundleItems m s) t r ->
  (forall irys pm o,
      In (Called (GenerateManifest irys pm) o) t ->
      pm = pathMap_of m /\
      Js.keys pm = Js.keys m /\
      forall path, Js.get pm path = option_map item_id (Js.get m path)) /\
  (forall b, r = inr b ->
      exists irys mf, In (Called (GenerateManifest irys (pathMap_of m)) (inr mf)) t).
Proof.
  intros Hwf H.
  assert (Hpm : pathMap_of m = List.map (fun e => (fst e, item_id (snd e))) m).
  { unfold pathMap_of, Js.entries.
    apply (JsFacts.new_Map_wf string). unfold Js.wf.
    rewrite JsFacts.keys_map_values. exact Hwf. }
  split.
  - intros irys pm o Hin.
    assert (Heq : pm = pathMap_of m)
      by exact (bundleItems_manifest_call m s t r irys pm o H Hin).
    subst pm. split; [reflexivity|]. rewrite Hpm. split.
    + apply JsFacts.keys_map_values.
    + intros path. apply JsFacts.get_map_values.
  - intros b ->. apply bundleItems_returns in H.
    destruct H as (irys & mf & mi & ->). exists irys, mf.
    unfold bundle_steps. simpl. tauto.
Qed.

(** C6. For every bundle, [uploadBundle] submits it through the chunked
    uploader as one transaction: whenever [uploadTransaction] is called,
    it is the last call, made on the uploader obtained from
    [irys.uploader.chunkedUploader] with the three listeners attached, and
    its argument is the transaction that [tx.sign()] gave back for the
    transaction created from the bundle's raw bytes with the tags
    Bundle-Format = binary and Bundle-Version = 2.0.0; creation, signing and
    upload happen in this order.  When the SDK answers every call, the
    upload is made. *)
Theorem uploadBundle_submits_signed_transaction b t r :
  runs (uploadBundle b) t r ->
  (forall u x o,
      In (Called (UploadTransaction u x) o) t ->
      exists irys u1 u2 tx o',
        t = upload_steps b irys u1 u2 u tx x o' /\
        List.length (List.filter is_upload t) = 1) /\
  (all_answered t ->
   exists irys u1 u2 u3 tx stx rc,
     t = upload_steps b irys u1 u2 u3 tx stx (inr rc)).
Proof.
  intros H. apply uploadBundle_runs in H. split.
  - intros u x o Hin.
    destruct H as [(irys & u1 & u2 & u3 & tx & stx & o' & -> & _)|(Hno & _)].
    + unfold upload_steps in Hin. in_calls Hin. injection Hin as <- <-.
      exists irys, u1, u2, tx, o'. split; reflexivity.
    + apply in_upload in Hin. congruence.
  - intros Hans.
    destruct H as [(irys & u1 & u2 & u3 & tx & stx & o' & -> & _)|(_ & _ & Hn)];
      [|contradiction].
    destruct o' as [e|rc]; [discriminate Hans|].
    exists irys, u1, u2, u3, tx, stx, rc. reflexivity.
Qed.

End BundleAndUpload.

(** ** Preparing files *)

Section Preparing.

Context {sdk : Sdk}.
Local Open Scope list_scope.

Lemma named_items_app l1 q1 l2 q2 :
  List.length q1 = List.length l1 ->
  named_items (l1 ++ l2) (q1 ++ q2) = named_items l1 q1 ++ named_items l2 q2.
Proof.
  unfold named_items. revert q1.
  induction l1 as [|f l1 IH]; intros [|q q1] Hlen; try discriminate Hlen.
  - reflexivity.
  - simpl. f_equal. apply IH. simpl in Hlen. lia.
Qed.

Lemma files_steps_app s l1 q1 l2 q2 :
  List.length q1 = List.length l1 ->
  files_steps s (l1 ++ l2) (q1 ++ q2) = files_steps s l1 q1 ++ files_steps s l2 q2.
Proof.
  revert q1.
  induction l1 as [|f l1 IH]; intros [|q q1] Hlen; try discriminate Hlen.
  - reflexivity.
  - cbn [files_steps app]. rewrite IH by (simpl in Hlen; lia).
    now rewrite <- app_assoc.
Qed.

Lemma keys_named_items files ps :
  incl (List.map fst (named_items files ps)) (List.map file_name files).
Proof.
  unfold named_items. intros k Hk. apply in_map_iff in Hk.
  destruct Hk as ([k' v] & <- & Hin). apply in_combine_l in Hin. exact Hin.
Qed.

Lemma keys_named_items_eq files ps :
  List.length ps = List.length files ->
  List.map fst (named_items files ps) = List.map file_name files.
Proof.
  unfold named_items. revert ps.
  induction files as [|f files IH]; intros [|p ps] Hlen; try discriminate Hlen.
  - reflexivity.
  - simpl. f_equal. apply IH. simpl in Hlen. lia.
Qed.

(** Cutting the input and the answers at the same file. *)
Lemma split_at_file (files : list File) (ps : list Prepared) i file p :
  List.length ps = List.length files ->
  nth_error files i = Some file -> nth_error ps i = Some p ->
  exists l1 l2 q1 q2,
    files = l1 ++ file :: l2 /\ ps = q1 ++ p :: q2 /\
    List.length l1 = i /\ List.length q1 = i /\ List.length q2 = List.length l2.
Proof.
  intros Hlen Hf Hp.
  apply nth_error_split in Hf. destruct Hf as (l1 & l2 & -> & Hl1).
  apply nth_error_split in Hp. destruct Hp as (q1 & q2 & -> & Hq1).
  exists l1, l2, q1, q2. repeat split; try assumption.
  rewrite !length_app in Hlen. simpl in Hlen. lia.
Qed.

(** The item of a file is the one kept under its name when no later file
    has that name. *)
Lemma last_named_kept l1 file l2 q1 p q2 :
  List.length q1 = List.length l1 ->
  ~ In (file_name file) (List.map file_name l2) ->
  Js.get (Js.new_Map (named_items (l1 ++ file :: l2) (q1 ++ p :: q2)))
         (file_name file) = Some (signed p).
Proof.
  intros Hlen Hlast. rewrite named_items_app by exact Hlen.
  change (named_items (file :: l2) (p :: q2))
    with ((file_name file, signed p) :: named_items l2 q2).
  apply JsFacts.get_new_Map_last.
  intros Hin. apply Hlast. exact (keys_named_items l2 q2 _ Hin).
Qed.

Lemma pathMap_of_new_Map es :
  pathMap_of (Js.new_Map es) =
  List.map (fun e => (fst e, item_id (snd e))) (Js.new_Map es).
Proof.
  unfold pathMap_of, Js.entries. apply (JsFacts.new_Map_wf string).
  unfold Js.wf. rewrite JsFacts.keys_map_values. apply JsFacts.wf_new_Map.
Qed.

(** The three calls of a file are among those of all files. *)
Lemma file_steps_incl s files ps i file p :
  List.length ps = List.length files ->
  nth_error files i = Some file -> nth_error ps i = Some p ->
  incl (file_steps s file p) (files_steps s files ps).
Proof.
  intros Hlen Hf Hp.
  destruct (split_at_file files ps i file p Hlen Hf Hp)
    as (l1 & l2 & q1 & q2 & -> & -> & Hl1 & Hq1 & Hq2).
  rewrite files_steps_app by lia. cbn [files_steps].
  intros e He. apply in_or_app. right. apply in_or_app. now left.
Qed.

Lemma length_named_items files ps :
  List.length ps = List.length files ->
  List.length (named_items files ps) = List.length files.
Proof.
  intros Hlen. unfold named_items. rewrite length_combine, !length_map. lia.
Qed.

(** C5 (amended). For every file of the input list, [prepareFiles] reads
    the file's bytes, creates one data item from exactly these bytes with
    the ephemeral signer and the single tag Content-Type = the file's MIME
    type, and signs that item with the ephemeral signer: the calls of an
    execution that returns are these three calls for each file, with
    nothing else, in the order in which the concurrent tasks make them.
    The resulting map associates the file's name with that item whenever
    no later file of the list has the same name.  When the SDK answers
    every call, a map is returned. *)
Theorem prepareFiles_wraps_each_file files s t r :
  runs (prepareFiles files s) t r ->
  (all_answered t -> exists m, r = inr m) /\
  (forall m, r = inr m ->
     exists ps,
       List.length ps = List.length files /\
       Permutation t (files_steps s files ps) /\
       forall i file p,
         nth_error files i = Some file -> nth_error ps i = Some p ->
         In (Called (ArrayBuffer file) (inr (buffer p))) t /\
         In (Called (CreateData (Binary (buffer p)) s [content_type_tag file])
                    (inr (created p))) t /\
         In (Called (ItemSign (created p) s) (inr (signed p))) t /\
         ((forall j later, i < j -> nth_error files j = Some later ->
                           file_name later <> file_name file) ->
          Js.get m (file_name file) = Some (signed p))).
Proof.
  intros H. split; [exact (prepareFiles_answered files s t r H)|].
  intros m ->. apply prepareFiles_returns in H.
  destruct H as (ps & Hlen & -> & Hperm). exists ps.
  split; [exact Hlen|]. split; [exact Hperm|].
  intros i file p Hf Hp.
  pose proof (file_steps_incl s files ps i file p Hlen Hf Hp) as Hincl.
  assert (Hin : forall e, In e (file_steps s file p) -> In e t).
  { intros e He. apply (Permutation_in e (Permutation_sym Hperm)), Hincl, He. }
  split; [apply Hin; now left|].
  split; [apply Hin; right; now left|].
  split; [apply Hin; right; right; now left|].
  destruct (split_at_file files ps i file p Hlen Hf Hp)
    as (l1 & l2 & q1 & q2 & -> & -> & Hl1 & Hq1 & Hq2).
  intros Hlater. apply last_named_kept; [lia|].
  intros Hin'. apply in_map_iff in Hin'. destruct Hin' as (later & Hname & Hin').
  apply In_nth_error in Hin'. destruct Hin' as (k & Hk).
  apply (Hlater (S (List.length l1 + k)) later); [lia| |exact Hname].
  rewrite nth_error_app2 by lia.
  replace (S (List.length l1 + k) - List.length l1) with (S k) by lia.
  exact Hk.
Qed.

(** C8. If two or more input files share a file name, the map built by
    [prepareFiles] has strictly fewer entries than there are input files;
    under each name it keeps the item of the last file with that name.
    [bundleItems], run on that map, sends to [generateManifest] the path
    map that gives, for each name, the identifier of the last such file's
    item, and hands over for bundling the items of the map and the
    manifest item; when its calls are answered it does make these calls,
    and the bundle, which lists the items it was given, has strictly fewer
    file items than there are input files. *)
Theorem prepareFiles_same_name_keeps_last files s t m :
  runs (prepareFiles files s) t (inr m) ->
  ~ NoDup (List.map file_name files) ->
  exists ps,
    List.length ps = List.length files /\
    Permutation t (files_steps s files ps) /\
    List.length (Js.values m) < List.length files /\
    (forall earlier file later p,
        files = earlier ++ file :: later ->
        ~ In (file_name file) (List.map file_name later) ->
        nth_error ps (List.length earlier) = Some p ->
        Js.get m (file_name file) = Some (signed p) /\
        Js.get (pathMap_of m) (file_name file) = Some (item_id (signed p))) /\
    (forall s' tb rb,
        runs (bundleItems m s') tb rb ->
        (forall l s2 o,
            In (Called (BundleAndSignData l s2) o) tb ->
            exists mi, l = Js.values m ++ [mi]) /\
        (forall irys pm o,
            In (Called (GenerateManifest irys pm) o) tb -> pm = pathMap_of m) /\
        (all_answered tb ->
         exists irys mf mi b,
           rb = inr b /\
           tb = bundle_steps m s' irys mf mi (inr b) /\
           forall R,
             bundling_contract R tb ->
             exists file_items mb,
               bundle_items b = file_items ++ [mb] /\
               Forall2 R (Js.values m) file_items /\
               List.length file_items < List.length files)).
Proof.
  intros H Hdup. apply prepareFiles_returns in H.
  destruct H as (ps & Hlen & -> & Hperm). exists ps.
  assert (Hfewer : List.length (Js.values (Js.new_Map (named_items files ps)))
                   < List.length files).
  { unfold Js.values. rewrite length_map.
    replace (List.length files) with (List.length (named_items files ps))
      by (apply length_named_items, Hlen).
    apply JsFacts.length_new_Map_lt.
    rewrite keys_named_items_eq by exact Hlen. exact Hdup. }
  split; [exact Hlen|]. split; [exact Hperm|]. split; [exact Hfewer|]. split.
  - intros earlier file later p -> Hlast Hp.
    assert (Hsplit : exists q1 q2, ps = q1 ++ p :: q2 /\
                                   List.length q1 = List.length earlier).
    { apply nth_error_split in Hp. destruct Hp as (q1 & q2 & -> & Hq1).
      exists q1, q2. split; [reflexivity|exact Hq1]. }
    destruct Hsplit as (q1 & q2 & -> & Hq1).
    assert (Hget : Js.get (Js.new_Map (named_items (earlier ++ file :: later)
                                                   (q1 ++ p :: q2)))
                          (file_name file) = Some (signed p))
      by (apply last_named_kept; assumption).
    split; [exact Hget|].
    rewrite pathMap_of_new_Map, JsFacts.get_map_values, Hget. reflexivity.
  - intros s' tb rb Hb. split; [|split].
    + intros l s2 o Hin.
      destruct (bundleItems_bundling_call _ _ _ _ l s2 o Hb Hin)
        as (_ & irys & mf & mi & -> & _).
      exists mi. reflexivity.
    + intros irys pm o Hin.
      exact (bundleItems_manifest_call _ _ _ _ irys pm o Hb Hin).
    + intros Hans.
      destruct (bundleItems_answered _ _ _ _ Hb Hans) as (b & ->).
      apply bundleItems_returns in Hb. destruct Hb as (irys & mf & mi & ->).
      exists irys, mf, mi, b. split; [reflexivity|]. split; [reflexivity|].
      intros R HR.
      destruct (contract_bundle_steps R _ s' irys mf mi b HR) as (fi & mb & Hbi & HF & _).
      exists fi, mb. split; [exact Hbi|]. split; [exact HF|].
      rewrite <- (Forall2_length HF). exact Hfewer.
Qed.

End Preparing.

(** ** The identifiers returned *)

Section Identifiers.

Context {sdk : Sdk}.
Local Open Scope list_scope.

(** [a[a.length - 1]] of a non-empty array is its last element. *)
Lemma index_last {A} (l : list A) (x : A) :
  Js.index (l ++ [x]) (Js.length (l ++ [x]) - 1) = Some x.
Proof.
  unfold Js.index, Js.length. rewrite length_app. simpl.
  destruct (Z.ltb_spec (Z.of_nat (List.length l + 1) - 1) 0) as [Hneg|_]; [lia|].
  replace (Z.to_nat (Z.of_nat (List.length l + 1) - 1)) with (List.length l) by lia.
  rewrite nth_error_app2 by lia. now rewrite Nat.sub_diag.
Qed.

Lemma ids_of_last b file_items mb rc :
  bundle_items b = file_items ++ [mb] ->
  ids_of b rc = inr [item_id mb; receipt_data_id rc].
Proof. intros Hb. unfold ids_of. rewrite Hb, index_last. reflexivity. Qed.

Lemma contract_answered_around R tp files a :
  bundling_contract R (answered_around tp files a) ->
  exists file_items mb,
    bundle_items (bundle a) = file_items ++ [mb] /\
    Forall2 R (Js.values (preppedFiles files a)) file_items /\
    R (manifestItem a) mb.
Proof.
  unfold bundling_contract, answered_around. intros H.
  apply Forall_app in H. destruct H as [_ H].
  apply Forall_app in H. destruct H as [_ H].
  apply Forall_app in H. destruct H as [H _].
  exact (contract_bundle_steps R _ _ _ _ _ _ H).
Qed.

Lemma files_steps_calls s files : forall ps e,
  In e (files_steps s files ps) -> entry_call e <> None.
Proof.
  induction files as [|f fs IH]; intros ps e He; [destruct He|].
  destruct ps as [|p ps]; [destruct He|]. cbn [files_steps] in He.
  apply in_app_or in He. destruct He as [He|He]; [|exact (IH ps e He)].
  simpl in He. destruct He as [<-|[<-|[<-|[]]]]; discriminate.
Qed.

(** Nothing is logged when every call is answered. *)
Lemma answered_around_no_log tp files a l :
  (forall e, In e tp -> entry_call e <> None) ->
  ~ In (Logged l) (answered_around tp files a).
Proof.
  intros Htp Hin.
  assert (Hcalls : forall e, In e (answered_around tp files a) -> entry_call e <> None).
  { unfold answered_around. intros e He.
    apply in_app_or in He. destruct He as [He|He].
    { simpl in He. destruct He as [<-|[<-|[]]]; discriminate. }
    apply in_app_or in He. destruct He as [He|He].
    { exact (Htp _ He). }
    apply in_app_or in He. destruct He as [He|He].
    { simpl in He. destruct He as [<-|[<-|[<-|[<-|[]]]]]; discriminate. }
    simpl in He.
    destruct He as [<-|[<-|[<-|[<-|[<-|[<-|[<-|[]]]]]]]]; discriminate. }
  exact (Hcalls _ Hin eq_refl).
Qed.

(** What an execution with every call answered looks like and returns,
    given the SDK's bundling contract. *)
Lemma answered_run files t r R :
  runs (fundAndUploadNestedBundle files) t r ->
  all_answered t -> bundling_contract R t ->
  exists a tp file_items mb,
    List.length (prepared a) = List.length files /\
    runs (prepareFiles files (ephemeralSigner a)) tp (inr (preppedFiles files a)) /\
    Permutation tp (files_steps (ephemeralSigner a) files (prepared a)) /\
    t = answered_around tp files a /\
    bundle_items (bundle a) = file_items ++ [mb] /\
    Forall2 R (Js.values (preppedFiles files a)) file_items /\
    R (manifestItem a) mb /\
    r = inr [item_id mb; receipt_data_id (receipt a)].
Proof.
  intros H Hans HR. apply fundAndUploadNestedBundle_runs in H.
  destruct H as [(ids & H & ->)|[(e & t0 & H & _ & -> & ->)
                                |(e & key & s & pre & post & H & -> & ->)]].
  - destruct (upload_attempt_answered files t _ H Hans)
      as (a & tp & Hlen & Hprep & Hperm & -> & Hr).
    destruct (contract_answered_around R tp files a HR) as (fi & mb & Hb & HF & Hm).
    exists a, tp, fi, mb. repeat split; try assumption.
    rewrite Hr. apply (ids_of_last _ fi). exact Hb.
  - apply all_answered_app in Hans. destruct Hans as [Hans _].
    apply Forall_app in HR. destruct HR as [HR _].
    destruct (upload_attempt_answered files t0 _ H Hans)
      as (a & tp & Hlen & Hprep & Hperm & -> & Hr).
    destruct (contract_answered_around R tp files a HR) as (fi & mb & Hb & HF & Hm).
    rewrite (ids_of_last _ fi mb _ Hb) in Hr. discriminate Hr.
  - apply all_answered_cons in Hans. destruct Hans as [_ Hans].
    apply all_answered_cons in Hans. destruct Hans as [_ Hans].
    apply all_answered_app in Hans. destruct Hans as [Hpre Hpost].
    apply all_answered_cons in Hpost. destruct Hpost as [_ Hpost].
    assert (Ha : all_answered (pre ++ post)) by (apply all_answered_app; now split).
    destruct (prepareFiles_answered _ _ _ _ H Ha) as (? & [=]).
Qed.

Lemma relays_of_propagates {A} (p : M A) : propagates p -> relays p.
Proof.
  intros Hp t r H. apply Hp in H. destruct r as [e|a]; simpl in *; [|exact H].
  destruct H as [H|(pre & c & -> & _)]; [now left|].
  right. exists c. apply in_or_app. right. now left.
Qed.

Lemma relays_bind {A B} (p : M A) (f : A -> M B) :
  Tidy p -> relays p -> (forall a, relays (f a)) -> relays (bind p f).
Proof.
  intros Hp Hpp Hf t r H. apply runs_bind in H; [|exact Hp].
  destruct H as [(e & H & ->)|(t1 & a & t2 & -> & H1 & H2)].
  - exact (Hpp _ _ H).
  - apply Hpp in H1. apply Hf in H2. simpl in H1.
    destruct r as [e|b]; simpl in *.
    + destruct H2 as [H2|(c & Hc)].
      * left. apply all_answered_app. now split.
      * right. exists c. apply in_or_app. now right.
    + apply all_answered_app. now split.
Qed.

Lemma upload_attempt_relays files : relays (upload_attempt files).
Proof.
  unfold upload_attempt.
  apply relays_bind; [exact _|apply relays_of_propagates, propagates_await|intros key].
  apply relays_bind; [exact _|apply relays_of_propagates, propagates_await|intros s].
  apply relays_bind; [exact _|apply prepareFiles_relays|intros m].
  apply relays_bind; [exact _|apply relays_of_propagates, bundleItems_propagates|intros b].
  apply relays_bind; [exact _|apply relays_of_propagates, uploadBundle_propagates|intros ids].
  apply relays_of_propagates, propagates_ret.
Qed.

Lemma upload_attempt_two files t ids :
  runs (upload_attempt files) t (inr ids) -> exists id1 id2, ids = [id1; id2].
Proof.
  intros H. pose proof (upload_attempt_relays files t _ H) as Hans.
  simpl in Hans.
  destruct (upload_attempt_answered files t _ H Hans) as (a & tp & _ & _ & _ & _ & Hr).
  unfold ids_of in Hr. destruct (Js.index _ _); [|discriminate Hr].
  injection Hr as ->. eauto.
Qed.

(** C1. For every list of input files, [fundAndUploadNestedBundle] returns
    an array of exactly two strings.  When the SDK answers every call and
    keeps its bundling contract, the execution is key generation, the
    three calls for each file (in the order in which the concurrent tasks
    make them), bundling and upload, and the two strings are, in order,
    the identifier of the manifest item as it sits in the bundle (its last
    item) and the identifier in the receipt that the chunked uploader
    returned for the submitted transaction. *)
Theorem fundAndUploadNestedBundle_returns_two_ids files t r :
  runs (fundAndUploadNestedBundle files) t r ->
  (exists id1 id2, r = inr [id1; id2]) /\
  (all_answered t ->
   forall R, bundling_contract R t ->
     exists a tp file_items mb,
       List.length (prepared a) = List.length files /\
       Permutation tp (files_steps (ephemeralSigner a) files (prepared a)) /\
       t = answered_around tp files a /\
       bundle_items (bundle a) = file_items ++ [mb] /\
       R (manifestItem a) mb /\
       r = inr [item_id mb; receipt_data_id (receipt a)]).
Proof.
  intros H. split.
  - apply fundAndUploadNestedBundle_runs in H.
    destruct H as [(ids & H & ->)|[(e & t0 & _ & _ & _ & ->)
                                  |(e & key & s & pre & post & _ & _ & ->)]].
    + destruct (upload_attempt_two files t ids H) as (id1 & id2 & ->). eauto.
    + eauto.
    + eauto.
  - intros Hans R HR.
    destruct (answered_run files t r R H Hans HR)
      as (a & tp & fi & mb & Hlen & _ & Hperm & Ht & Hb & _ & Hm & Hr).
    exists a, tp, fi, mb. repeat split; assumption.
Qed.

(** C2. For every list of input files, [fundAndUploadNestedBundle] never
    rejects.  If any call of the orchestration throws, the function
    returns the two empty strings and the console has the line
    "Error on upload:" with a value that a call threw.  An execution has
    one of three forms.  The body of the [try] returns, and its array is
    returned.  Or it throws outside of [Promise.all]: what it threw is
    logged as the last thing that happens and the two empty strings are
    returned.  Or [prepareFiles] throws because a task of [Promise.all]
    rejected: what it threw is logged and the two empty strings are
    returned, while the tasks of the other files make their remaining
    calls [post] after the line. *)
Theorem fundAndUploadNestedBundle_catches files t r :
  runs (fundAndUploadNestedBundle files) t r ->
  (exists ids, r = inr ids) /\
  (forall c e,
      In (Called c (inl e)) t ->
      r = inr [""; ""] /\
      exists c' e', In (Called c' (inl e')) t /\ In (Logged (error_line e')) t) /\
  ((exists ids, runs (upload_attempt files) t (inr ids) /\ r = inr ids) \/
   (exists e t0,
       runs (upload_attempt files) t0 (inl e) /\
       t = t0 ++ [Logged (error_line e)] /\ r = inr [""; ""]) \/
   (exists e key s pre post,
       runs (prepareFiles files s) (pre ++ post) (inl e) /\
       t = Called GenerateJWK (inr key) :: Called (NewArweaveSigner key) (inr s)
             :: pre ++ Logged (error_line e) :: post /\
       r = inr [""; ""])).
Proof.
  intros H. apply fundAndUploadNestedBundle_runs in H.
  split; [|split].
  - destruct H as [(ids & _ & ->)|[(e & t0 & _ & _ & _ & ->)
                                  |(e & key & s & pre & post & _ & _ & ->)]]; eauto.
  - intros c e Hin.
    destruct H as [(ids & H & ->)|[(e0 & t0 & H & Hend & -> & ->)
                                  |(e0 & key & s & pre & post & H & -> & ->)]].
    + apply upload_attempt_relays in H. simpl in H.
      destruct (all_answered_no_throw t c e H Hin).
    + split; [reflexivity|].
      apply in_app_or in Hin. destruct Hin as [Hin|[Hin|[]]]; [|discriminate Hin].
      simpl in Hend. destruct Hend as [Hend|(pre & c0 & -> & _)].
      * destruct (all_answered_no_throw t0 c e Hend Hin).
      * exists c0, e0. split.
        -- apply in_or_app. left. apply in_or_app. right. now left.
        -- apply in_or_app. right. now left.
    + split; [reflexivity|].
      destruct (prepareFiles_threw files s _ e0 H) as (file & t' & _ & Hrun & Hincl).
      destruct (prepare_task_threw s file t' e0 Hrun) as (_ & c0 & _ & Hc0).
      exists c0, e0. split.
      * right. right. apply Hincl in Hc0. apply in_app_or in Hc0.
        apply in_or_app. destruct Hc0 as [Hc0|Hc0]; [now left|right; now right].
      * right. right. apply in_or_app. right. now left.
  - destruct H as [H|[(e & t0 & H & _ & Ht & Hr)|H]].
    + left. exact H.
    + right. left. exists e, t0. repeat split; assumption.
    + right. right. exact H.
Qed.


(** C9. For the empty list of files, when the SDK answers every call and
    keeps its bundling contract, the orchestration goes through without an
    error: the path map sent to [generateManifest] is empty, the only item
    handed over for bundling is the manifest item, the bundle has exactly
    one item, the access [bundle.items[bundle.items.length - 1]] is in
    range, nothing is logged and two identifiers are returned. *)
Theorem empty_file_list_uploads_manifest_only t r R :
  runs (fundAndUploadNestedBundle []) t r ->
  all_answered t ->
  bundling_contract R t ->
  exists a mb,
    t = answered_trace [] a /\
    In (Called (GenerateManifest (irys_bundling a) []) (inr (manifest a))) t /\
    In (Called (BundleAndSignData [manifestItem a] (ephemeralSigner a))
               (inr (bundle a))) t /\
    bundle_items (bundle a) = [mb] /\
    R (manifestItem a) mb /\
    Js.index (bundle_items (bundle a))
             (Js.length (bundle_items (bundle a)) - 1) = Some mb /\
    (forall l, ~ In (Logged l) t) /\
    r = inr [item_id mb; receipt_data_id (receipt a)].
Proof.
  intros H Hans HR.
  destruct (answered_run [] t r R H Hans HR)
    as (a & tp & fi & mb & Hlen & _ & Hperm & -> & Hb & HF & Hm & ->).
  assert (Hps : prepared a = []) by (destruct (prepared a); [reflexivity|discriminate]).
  assert (Hmap : preppedFiles [] a = []) by (unfold preppedFiles; now rewrite Hps).
  simpl in Hperm. apply Permutation_sym, Permutation_nil in Hperm. subst tp.
  rewrite Hmap in HF. inversion HF; subst fi. simpl in Hb.
  exists a, mb. split; [reflexivity|].
  split; [unfold answered_around; rewrite Hmap; simpl; tauto|].
  split; [unfold answered_around; rewrite Hmap; simpl; tauto|].
  split; [exact Hb|]. split; [exact Hm|].
  split; [rewrite Hb; reflexivity|]. split; [|reflexivity].
  intros l. apply answered_around_no_log. intros e [].
Qed.

End Identifiers.

(** ** The statements at work on the small SDK *)

Section Witnesses.

Import Demo DemoRuns.
Local Open Scope list_scope.

Lemma whole_run_runs :
  runs (fundAndUploadNestedBundle [notes; photo]) (fst whole_run) (snd whole_run).
Proof. exact (run_runs answer (fundAndUploadNestedBundle [notes; photo]) []). Qed.

Lemma failed_run_runs :
  runs (fundAndUploadNestedBundle [notes; photo]) (fst failed_run) (snd failed_run).
Proof.
  exact (run_runs answer_no_wallet (fundAndUploadNestedBundle [notes; photo]) []).
Qed.

Lemma unreadable_run_runs :
  runs (fundAndUploadNestedBundle [notes; photo])
       (fst DemoFaults.unreadable_run) (snd DemoFaults.unreadable_run).
Proof.
  exact (run_runs DemoFaults.answer_unreadable
                  (fundAndUploadNestedBundle [notes; photo]) []).
Qed.

Lemma empty_run_runs :
  runs (fundAndUploadNestedBundle []) (fst empty_run) (snd empty_run).
Proof. exact (run_runs answer (fundAndUploadNestedBundle []) []). Qed.

Lemma same_name_run_runs :
  runs (prepareFiles [notes; notes2] 7) (fst same_name_run) (inr same_name_map).
Proof. exact (run_runs answer (prepareFiles [notes; notes2] 7) []). Qed.

Lemma same_name_bundle_run_runs :
  runs (bundleItems same_name_map 7)
       (fst same_name_bundle_run) (snd same_name_bundle_run).
Proof. exact (run_runs answer (bundleItems same_name_map 7) []). Qed.

Lemma bundle_run_runs :
  runs (bundleItems prepped 7) (fst bundle_run) (inr bundled).
Proof. exact (run_runs answer (bundleItems prepped 7) []). Qed.

Lemma upload_run_runs :
  runs (uploadBundle bundled) (fst upload_run) (inr uploaded_ids).
Proof. exact (run_runs answer (uploadBundle bundled) []). Qed.



(** The small SDK keeps the bundling contract in these executions. *)
Ltac contract_holds :=
  unfold bundling_contract;
  repeat (apply Forall_cons; [try exact I|]); try apply Forall_nil;
  simpl; repeat (apply Forall2_cons; [split; reflexivity|]); apply Forall2_nil.

Lemma whole_run_contract : bundling_contract same_content (fst whole_run).
Proof. contract_holds. Qed.

Lemma empty_run_contract : bundling_contract same_content (fst empty_run).
Proof. contract_holds. Qed.

Lemma bundle_run_contract : bundling_contract same_content (fst bundle_run).
Proof. contract_holds. Qed.

Lemma same_name_bundle_run_contract :
  bundling_contract same_content (fst same_name_bundle_run).
Proof. contract_holds. Qed.


Lemma prepped_wf : Js.wf prepped.
Proof.
  unfold Js.wf. simpl. repeat constructor; simpl; intuition discriminate.
Qed.

Lemma same_name_not_NoDup : ~ NoDup (List.map file_name [notes; notes2]).
Proof.
  simpl. intros H. apply NoDup_cons_iff in H. destruct H as [H _].
  apply H. left. reflexivity.
Qed.

(** C1 on two files. *)
Lemma fundAndUploadNestedBundle_returns_two_ids_witness :
  runs (fundAndUploadNestedBundle [notes; photo]) (fst whole_run) (snd whole_run) /\
  all_answered (fst whole_run) /\
  bundling_contract same_content (fst whole_run) /\
  snd whole_run = inr [fresh_id 11; "receipt-id"%string] /\
  ((exists id1 id2, snd whole_run = inr [id1; id2]) /\
   (all_answered (fst whole_run) ->
    forall R, bundling_contract R (fst whole_run) ->
      exists a tp file_items mb,
        List.length (prepared a) = List.length [notes; photo] /\
        Permutation tp (files_steps (ephemeralSigner a) [notes; photo] (prepared a)) /\
        fst whole_run = answered_around tp [notes; photo] a /\
        bundle_items (bundle a) = file_items ++ [mb] /\
        R (manifestItem a) mb /\
        snd whole_run = inr [item_id mb; receipt_data_id (receipt a)])).
Proof.
  split; [exact whole_run_runs|]. split; [reflexivity|].
  split; [exact whole_run_contract|]. split; [reflexivity|].
  exact (fundAndUploadNestedBundle_returns_two_ids
           [notes; photo] (fst whole_run) (snd whole_run) whole_run_runs).
Defined.

(** C2 when notes.txt cannot be read: [Promise.all] rejects, the error is
    logged, and photo.png is still turned into a signed item afterwards. *)
Lemma fundAndUploadNestedBundle_catches_witness :
  runs (fundAndUploadNestedBundle [notes; photo])
       (fst DemoFaults.unreadable_run) (snd DemoFaults.unreadable_run) /\
  In (Called (ArrayBuffer notes) (inl (SdkThrown "unreadable"%string)))
     (fst DemoFaults.unreadable_run) /\
  ((exists ids, snd DemoFaults.unreadable_run = inr ids) /\
   (forall c e,
       In (Called c (inl e)) (fst DemoFaults.unreadable_run) ->
       snd DemoFaults.unreadable_run = inr [""%string; ""%string] /\
       exists c' e',
         In (Called c' (inl e')) (fst DemoFaults.unreadable_run) /\
         In (Logged (error_line e')) (fst DemoFaults.unreadable_run)) /\
   ((exists ids,
        runs (upload_attempt [notes; photo]) (fst DemoFaults.unreadable_run) (inr ids) /\
        snd DemoFaults.unreadable_run = inr ids) \/
    (exists e t0,
        runs (upload_attempt [notes; photo]) t0 (inl e) /\
        fst DemoFaults.unreadable_run = t0 ++ [Logged (error_line e)] /\
        snd DemoFaults.unreadable_run = inr [""%string; ""%string]) \/
    (exists e key s pre post,
        runs (prepareFiles [notes; photo] s) (pre ++ post) (inl e) /\
        fst DemoFaults.unreadable_run
        = Called GenerateJWK (inr key) :: Called (NewArweaveSigner key) (inr s)
            :: pre ++ Logged (error_line e) :: post /\
        snd DemoFaults.unreadable_run = inr [""%string; ""%string]))).
Proof.
  split; [exact unreadable_run_runs|]. split; [simpl; tauto|].
  exact (fundAndUploadNestedBundle_catches
           [notes; photo] (fst DemoFaults.unreadable_run)
           (snd DemoFaults.unreadable_run) unreadable_run_runs).
Defined.

(** C3 on a map of two items. *)
Lemma bundleItems_bundles_items_and_manifest_witness :
  runs (bundleItems prepped 7) (fst bundle_run) (inr bundled) /\
  bundling_contract same_content (fst bundle_run) /\
  ((forall l s' o,
       In (Called (BundleAndSignData l s') o) (fst bundle_run) ->
       s' = 7 /\
       exists irys mf mi,
         l = Js.values prepped ++ [mi] /\
         fst bundle_run = bundle_steps prepped 7 irys mf mi (inr bundled)) /\
   (forall b,
       @inr Thrown _ bundled = inr b ->
       exists irys mf mi,
         fst bundle_run = bundle_steps prepped 7 irys mf mi (inr b) /\
         forall R, bundling_contract R (fst bundle_run) ->
           exists file_items mb,
             bundle_items b = file_items ++ [mb] /\
             Forall2 R (Js.values prepped) file_items /\ R mi mb)).
Proof.
  split; [exact bundle_run_runs|]. split; [exact bundle_run_contract|].
  exact (bundleItems_bundles_items_and_manifest
           prepped 7 (fst bundle_run) (inr bundled) bundle_run_runs).
Defined.

(** C4 on a map of two items. *)
Lemma bundleItems_manifest_paths_witness :
  Js.wf prepped /\
  runs (bundleItems prepped 7) (fst bundle_run) (inr bundled) /\
  ((forall irys pm o,
       In (Called (GenerateManifest irys pm) o) (fst bundle_run) ->
       pm = pathMap_of prepped /\
       Js.keys pm = Js.keys prepped /\
       forall path, Js.get pm path = option_map item_id (Js.get prepped path)) /\
   (forall b, @inr Thrown _ bundled = inr b ->
       exists irys mf,
         In (Called (GenerateManifest irys (pathMap_of prepped)) (inr mf))
            (fst bundle_run))).
Proof.
  split; [exact prepped_wf|]. split; [exact bundle_run_runs|].
  exact (bundleItems_manifest_paths
           prepped 7 (fst bundle_run) (inr bundled) prepped_wf bundle_run_runs).
Defined.

(** C5 (amended) on two files called notes.txt. *)
Lemma prepareFiles_wraps_each_file_witness :
  runs (prepareFiles [notes; notes2] 7) (fst same_name_run) (inr same_name_map) /\
  ((all_answered (fst same_name_run) ->
    exists m, @inr Thrown _ same_name_map = inr m) /\
   (forall m, @inr Thrown _ same_name_map = inr m ->
      exists ps,
        List.length ps = List.length [notes; notes2] /\
        Permutation (fst same_name_run) (files_steps 7 [notes; notes2] ps) /\
        forall i file p,
          nth_error [notes; notes2] i = Some file -> nth_error ps i = Some p ->
          In (Called (ArrayBuffer file) (inr (buffer p))) (fst same_name_run) /\
          In (Called (CreateData (Binary (buffer p)) 7 [content_type_tag file])
                     (inr (created p))) (fst same_name_run) /\
          In (Called (ItemSign (created p) 7) (inr (signed p))) (fst same_name_run) /\
          ((forall j later, i < j -> nth_error [notes; notes2] j = Some later ->
                            file_name later <> file_name file) ->
           Js.get m (file_name file) = Some (signed p)))).
Proof.
  split; [exact same_name_run_runs|].
  exact (prepareFiles_wraps_each_file
           [notes; notes2] 7 (fst same_name_run) (inr same_name_map)
           same_name_run_runs).
Defined.

(** C5 as stated fails on two files called notes.txt: the item made and
    signed for the first one is not the one the map holds under its
    name. *)
Lemma prepareFiles_same_name_counterexample :
  runs (prepareFiles [notes; notes2] 7) (fst same_name_run) (inr same_name_map) /\
  nth_error [notes; notes2] 0 = Some notes /\
  In (Called (ArrayBuffer notes) (inr (buffer first_notes))) (fst same_name_run) /\
  In (Called (CreateData (Binary (buffer first_notes)) 7 [content_type_tag notes])
             (inr (created first_notes))) (fst same_name_run) /\
  In (Called (ItemSign (created first_notes) 7) (inr (signed first_notes)))
     (fst same_name_run) /\
  Js.get same_name_map (file_name notes) = Some (signed second_notes) /\
  Js.get same_name_map (file_name notes) <> Some (signed first_notes).
Proof.
  split; [exact same_name_run_runs|]. split; [reflexivity|].
  split; [simpl; tauto|]. split; [simpl; tauto|]. split; [simpl; tauto|].
  split; [reflexivity|]. intros H. discriminate H.
Qed.

(** C6 on the bundle of two items and a manifest. *)
Lemma uploadBundle_submits_signed_transaction_witness :
  runs (uploadBundle bundled) (fst upload_run) (inr uploaded_ids) /\
  all_answered (fst upload_run) /\
  ((forall u x o,
       In (Called (UploadTransaction u x) o) (fst upload_run) ->
       exists irys u1 u2 tx o',
         fst upload_run = upload_steps bundled irys u1 u2 u tx x o' /\
         List.length (List.filter is_upload (fst upload_run)) = 1) /\
   (all_answered (fst upload_run) ->
    exists irys u1 u2 u3 tx stx rc,
      fst upload_run = upload_steps bundled irys u1 u2 u3 tx stx (inr rc))).
Proof.
  split; [exact upload_run_runs|]. split; [reflexivity|].
  exact (uploadBundle_submits_signed_transaction
           bundled (fst upload_run) (inr uploaded_ids) upload_run_runs).
Defined.



(** C8 on two files called notes.txt, and on bundling their map. *)
Lemma prepareFiles_same_name_keeps_last_witness :
  runs (prepareFiles [notes; notes2] 7) (fst same_name_run) (inr same_name_map) /\
  ~ NoDup (List.map file_name [notes; notes2]) /\
  runs (bundleItems same_name_map 7)
       (fst same_name_bundle_run) (snd same_name_bundle_run) /\
  all_answered (fst same_name_bundle_run) /\
  bundling_contract same_content (fst same_name_bundle_run) /\
  Js.get (pathMap_of same_name_map) "notes.txt" = Some (fresh_id 5) /\
  (exists irys mf mi b file_items mb,
      snd same_name_bundle_run = inr b /\
      fst same_name_bundle_run = bundle_steps same_name_map 7 irys mf mi (inr b) /\
      bundle_items b = file_items ++ [mb] /\
      List.length file_items < List.length [notes; notes2]) /\
  exists ps,
    List.length ps = List.length [notes; notes2] /\
    Permutation (fst same_name_run) (files_steps 7 [notes; notes2] ps) /\
    List.length (Js.values same_name_map) < List.length [notes; notes2].
Proof.
  split; [exact same_name_run_runs|]. split; [exact same_name_not_NoDup|].
  split; [exact same_name_bundle_run_runs|]. split; [reflexivity|].
  split; [exact same_name_bundle_run_contract|]. split; [reflexivity|].
  destruct (prepareFiles_same_name_keeps_last (sdk := Demo.sdk)
              [notes; notes2] 7 (fst same_name_run) same_name_map
              same_name_run_runs same_name_not_NoDup)
    as (ps & Hlen & Hperm & Hfewer & _ & Hbundle).
  split; [|exists ps; repeat split; assumption].
  destruct (Hbundle _ _ _ same_name_bundle_run_runs) as (_ & _ & Hmade).
  destruct (Hmade eq_refl) as (irys & mf & mi & b & Hb & Ht & Hc).
  destruct (Hc same_content same_name_bundle_run_contract) as (fi & mb & Hbi & _ & Hlt).
  exists irys, mf, mi, b, fi, mb. repeat split; assumption.
Defined.

(** C9 on the small SDK. *)
Lemma empty_file_list_uploads_manifest_only_witness :
  runs (fundAndUploadNestedBundle []) (fst empty_run) (snd empty_run) /\
  all_answered (fst empty_run) /\
  bundling_contract same_content (fst empty_run) /\
  exists a mb,
    fst empty_run = answered_trace [] a /\
    In (Called (GenerateManifest (irys_bundling a) []) (inr (manifest a)))
       (fst empty_run) /\
    In (Called (BundleAndSignData [manifestItem a] (ephemeralSigner a))
               (inr (bundle a))) (fst empty_run) /\
    bundle_items (bundle a) = [mb] /\
    same_content (manifestItem a) mb /\
    Js.index (bundle_items (bundle a))
             (Js.length (bundle_items (bundle a)) - 1) = Some mb /\
    (forall l, ~ In (Logged l) (fst empty_run)) /\
    snd empty_run = inr [item_id mb; receipt_data_id (receipt a)].
Proof.
  split; [exact empty_run_runs|]. split; [reflexivity|].
  split; [exact empty_run_contract|].
  exact (empty_file_list_uploads_manifest_only
           (fst empty_run) (snd empty_run) same_content
           empty_run_runs (eq_refl : all_answered (fst empty_run))
           empty_run_contract).
Defined.

End Witnesses.

(** ** Properties that hold of every execution *)

Section AlwaysFacts.

Context {sdk : Sdk}.
Local Open Scope list_scope.

Lemma always_ret {A} (Q : Trace -> Prop) (a : A) : Q [] -> always Q (ret a).
Proof. intros HQ t r [-> _]. exact HQ. Qed.

Lemma always_throw {A} (Q : Trace -> Prop) e : Q [] -> always Q (@throw _ A e).
Proof. intros HQ t r [-> _]. exact HQ. Qed.

Lemma always_await (Q : Trace -> Prop) c :
  (forall o, Q [Called c o]) -> always Q (await c).
Proof. intros HQ t r H. apply runs_await in H. subst t. apply HQ. Qed.

Lemma always_bind {A B} (Q : Trace -> Prop) (p : M A) (f : A -> M B) :
  Tidy p ->
  additive Q -> always Q p -> (forall a, always Q (f a)) -> always Q (bind p f).
Proof.
  intros Htidy [_ Hadd] Hp Hf t r H. apply runs_bind in H; [|exact Htidy].
  destruct H as [(e & H & _)|(t1 & a & t2 & -> & H1 & H2)].
  - exact (Hp _ _ H).
  - apply Hadd; [exact (Hp _ _ H1)|exact (Hf a _ _ H2)].
Qed.

Lemma additive_Forall (P : Entry -> Prop) : additive (Forall P).
Proof.
  split; [constructor|]. intros t1 t2 H1 H2. apply Forall_app. now split.
Qed.

(** A property of single entries holds all along each function when it
    holds of each call the function can make. *)
Lemma prepare_task_entries (P : Entry -> Prop) s file t r :
  (forall file o, P (Called (ArrayBuffer file) o)) ->
  (forall d tags o, P (Called (CreateData d s tags) o)) ->
  (forall item o, P (Called (ItemSign item s) o)) ->
  truns (prepare_task s file) t r -> Forall P t.
Proof.
  intros HA HC HS H. apply prepare_task_runs in H.
  destruct H as [(p & -> & _)|(e & _ & [->|[(buf & ->)|(buf & item & ->)]])];
    repeat constructor; auto.
Qed.

(** The same for a property of whole traces that does not depend on the
    order of the entries, task by task. *)
Lemma prepareFiles_always (Q : Trace -> Prop) files s :
  additive Q ->
  (forall t t', Permutation t t' -> Q t -> Q t') ->
  (forall file t r, In file files -> truns (prepare_task s file) t r -> Q t) ->
  always Q (prepareFiles files s).
Proof.
  intros [Hnil Hadd] Hperm Htask t r H. apply prepareFiles_tasks in H.
  destruct H as (trs & He & Hp & _).
  apply (Hperm _ _ (Permutation_sym Hp)). clear Hp r t.
  induction He as [|file [t r] files trs Hrun He IH]; simpl; [exact Hnil|].
  apply Hadd.
  - apply (Htask file t r); [now left|exact Hrun].
  - apply IH. intros file' t' r' Hin. apply Htask. now right.
Qed.

Lemma prepareFiles_entries (P : Entry -> Prop) files s :
  (forall file o, P (Called (ArrayBuffer file) o)) ->
  (forall d tags o, P (Called (CreateData d s tags) o)) ->
  (forall item o, P (Called (ItemSign item s) o)) ->
  always (Forall P) (prepareFiles files s).
Proof.
  intros HA HC HS. apply prepareFiles_always.
  - apply additive_Forall.
  - intros t t' Hp. apply Permutation_Forall. exact Hp.
  - intros file t r _. apply prepare_task_entries; assumption.
Qed.

Lemma bundleItems_entries (P : Entry -> Prop) m s :
  (forall o, P (Called GetIrys o)) ->
  (forall irys pm o, P (Called (GenerateManifest irys pm) o)) ->
  (forall d tags o, P (Called (CreateData d s tags) o)) ->
  (forall l o, P (Called (BundleAndSignData l s) o)) ->
  always (Forall P) (bundleItems m s).
Proof.
  intros HG HM HC HB. pose proof (additive_Forall P) as Hadd.
  unfold bundleItems.
  apply always_bind; [exact _|exact Hadd|apply always_await; intros o; repeat constructor; apply HG|].
  intros irys.
  apply always_bind; [exact _|exact Hadd|apply always_await; intros o; repeat constructor; apply HM|].
  intros mf.
  apply always_bind; [exact _|exact Hadd|apply always_await; intros o; repeat constructor; apply HC|].
  intros mi.
  apply always_bind; [exact _|exact Hadd|apply always_await; intros o; repeat constructor; apply HB|].
  intros ?. apply always_ret. constructor.
Qed.

Lemma uploadBundle_entries (P : Entry -> Prop) b :
  (forall o, P (Called GetIrys o)) ->
  (forall u ev l o, P (Called (UploaderOn u ev l) o)) ->
  (forall irys d tags o, P (Called (CreateTransaction irys d tags) o)) ->
  (forall x o, P (Called (TxSign x) o)) ->
  (forall u x o, P (Called (UploadTransaction u x) o)) ->
  always (Forall P) (uploadBundle b).
Proof.
  intros HG HO HC HS HU. pose proof (additive_Forall P) as Hadd.
  unfold uploadBundle.
  apply always_bind; [exact _|exact Hadd|apply always_await; intros o; repeat constructor; apply HG|].
  intros irys.
  apply always_bind; [exact _|exact Hadd|apply always_await; intros o; repeat constructor; apply HO|].
  intros u1.
  apply always_bind; [exact _|exact Hadd|apply always_await; intros o; repeat constructor; apply HO|].
  intros u2.
  apply always_bind; [exact _|exact Hadd|apply always_await; intros o; repeat constructor; apply HO|].
  intros u3.
  apply always_bind; [exact _|exact Hadd|apply always_await; intros o; repeat constructor; apply HC|].
  intros x.
  apply always_bind; [exact _|exact Hadd|apply always_await; intros o; repeat constructor; apply HS|].
  intros sx.
  apply always_bind; [exact _|exact Hadd|apply always_await; intros o; repeat constructor; apply HU|].
  intros rc.
  apply always_bind; [exact _|exact Hadd| |intros ?; apply always_ret; constructor].
  unfold last_item_id. destruct (Js.index _ _).
  - apply always_ret. constructor.
  - apply always_throw. constructor.
Qed.

Lemma Forall_existsb_false (P : Entry -> bool) t :
  Forall (fun e => P e = false) t <-> existsb P t = false.
Proof.
  induction t as [|e t IH]; simpl.
  - split; [reflexivity|constructor].
  - rewrite orb_false_iff, <- IH. split.
    + intros H. inversion H; subst. now split.
    + intros [H1 H2]. now constructor.
Qed.

(** *** Bounds on the number of entries *)

Lemma at_most_ret {A} (a : A) : at_most 0 (ret a).
Proof. intros t r [-> _]. simpl. lia. Qed.

Lemma at_most_throw {A} e : at_most 0 (@throw _ A e).
Proof. intros t r [-> _]. simpl. lia. Qed.

Lemma at_most_await c : at_most 1 (await c).
Proof. intros t r H. apply runs_await in H. subst t. simpl. lia. Qed.

Lemma at_most_bind {A B} n1 n2 (p : M A) (f : A -> M B) :
  Tidy p ->
  at_most n1 p -> (forall a, at_most n2 (f a)) -> at_most (n1 + n2) (bind p f).
Proof.
  intros Htidy Hp Hf t r H. apply runs_bind in H; [|exact Htidy].
  destruct H as [(e & H & _)|(t1 & a & t2 & -> & H1 & H2)].
  - specialize (Hp _ _ H). lia.
  - specialize (Hp _ _ H1). specialize (Hf a _ _ H2). rewrite length_app. lia.
Qed.

Lemma at_most_le {A} n n' (p : Prog A) : n <= n' -> at_most n p -> at_most n' p.
Proof. intros Hle Hp t r H. specialize (Hp _ _ H). lia. Qed.

(** The whole orchestration around its [try] body: the execution is one
    of the body, with the line of the [catch] put in when the body
    threw. *)
Lemma fundAndUploadNestedBundle_attempt files t r :
  runs (fundAndUploadNestedBundle files) t r ->
  exists t0 r0,
    runs (upload_attempt files) t0 r0 /\
    (t = t0 \/
     exists e pre post,
       r0 = inl e /\ t0 = pre ++ post /\ t = pre ++ Logged (error_line e) :: post).
Proof.
  intros H. apply fundAndUploadNestedBundle_runs in H.
  destruct H as [(ids & H & _)|[(e & t0 & H & _ & -> & _)
                               |(e & key & s & pre & post & H & -> & _)]].
  - exists t, (inr ids). split; [exact H|now left].
  - exists t0, (inl e). split; [exact H|]. right.
    exists e, t0, []. rewrite app_nil_r. repeat split.
  - exists (Called GenerateJWK (inr key)
              :: Called (NewArweaveSigner key) (inr s) :: pre ++ post), (inl e).
    split.
    + unfold upload_attempt. apply runs_await_bind. right. eexists _, _.
      split; [reflexivity|]. apply runs_await_bind. right. eexists _, _.
      split; [reflexivity|]. apply (runs_bind (prepareFiles files s)). left.
      exists e. split; [exact H|reflexivity].
    + right. exists e, (Called GenerateJWK (inr key)
                          :: Called (NewArweaveSigner key) (inr s) :: pre), post.
      repeat split.
Qed.

End AlwaysFacts.

(** ** More about preparing files *)

Section PreparingMore.

Context {sdk : Sdk}.
Local Open Scope list_scope.

Lemma values_named_items files ps :
  List.length ps = List.length files ->
  List.map snd (named_items files ps) = List.map signed ps.
Proof.
  unfold named_items. revert ps.
  induction files as [|f files IH]; intros [|p ps] Hlen; try discriminate Hlen.
  - reflexivity.
  - simpl. f_equal. apply IH. simpl in Hlen. lia.
Qed.

Lemma keys_build_has {V} (es : list (string * V)) : forall m,
  incl (Js.keys m ++ List.map fst es) (Js.keys (Js.build m es)).
Proof.
  unfold Js.build. induction es as [|[k v] es IH]; simpl; intros m.
  - rewrite app_nil_r. apply incl_refl.
  - intros x Hx. apply IH. apply in_or_app. apply in_app_or in Hx.
    assert (Hset : incl (Js.keys m ++ [k]) (Js.keys (Js.set m k v))).
    { destruct (JsFacts.in_keys_dec V k m) as [i|n].
      - rewrite JsFacts.keys_set_in by exact i.
        intros y Hy. apply in_app_or in Hy. destruct Hy as [Hy|[<-|[]]]; assumption.
      - rewrite JsFacts.keys_set_notin by exact n. apply incl_refl. }
    destruct Hx as [Hx|[<-|Hx]].
    + left. apply Hset, in_or_app. now left.
    + left. apply Hset, in_or_app. right. now left.
    + now right.
Qed.

(** X1. When the names of the input files are pairwise different, the map
    [prepareFiles] returns has one entry per file, in the order of the
    input, whatever the order in which the tasks made their calls: its
    keys are the file names and its values the signed items of the files,
    the calls of the execution being the three calls of each file. *)
Theorem prepareFiles_distinct_names files s t m :
  runs (prepareFiles files s) t (inr m) ->
  NoDup (List.map file_name files) ->
  exists ps,
    List.length ps = List.length files /\
    Permutation t (files_steps s files ps) /\
    Js.entries m = combine (List.map file_name files) (List.map signed ps) /\
    Js.keys m = List.map file_name files /\
    Js.values m = List.map signed ps.
Proof.
  intros H Hnd. apply prepareFiles_returns in H.
  destruct H as (ps & Hlen & -> & Hperm). exists ps.
  split; [exact Hlen|]. split; [exact Hperm|].
  assert (Hm : Js.new_Map (named_items files ps) = named_items files ps).
  { apply (JsFacts.build_fresh DataItem (named_items files ps) []).
    simpl. rewrite keys_named_items_eq by exact Hlen. exact Hnd. }
  rewrite Hm. split; [reflexivity|]. split.
  - apply keys_named_items_eq, Hlen.
  - apply values_named_items, Hlen.
Qed.

(** X2. Whatever the names of the input files, the keys of the map
    [prepareFiles] returns are pairwise different and are exactly the names
    that occur in the input: no name is lost and none is made up. *)
Theorem prepareFiles_keeps_every_name files s t m :
  runs (prepareFiles files s) t (inr m) ->
  NoDup (Js.keys m) /\
  forall n, In n (Js.keys m) <-> In n (List.map file_name files).
Proof.
  intros H. apply prepareFiles_returns in H.
  destruct H as (ps & Hlen & -> & _). split.
  - apply JsFacts.wf_new_Map.
  - intros n. rewrite <- (keys_named_items_eq files ps Hlen). split.
    + intros Hin. exact (JsFacts.keys_build_incl DataItem (named_items files ps) [] n Hin).
    + intros Hin. exact (keys_build_has (named_items files ps) [] n Hin).
Qed.

(** X3. [prepareFiles] throws nothing of its own: whenever it throws, the
    thrown value is the one that [arrayBuffer()], [createData] or
    [item.sign] threw while one of the input files was prepared. *)
Theorem prepareFiles_throws_what_a_call_threw files s t e :
  runs (prepareFiles files s) t (inl e) ->
  exists file c,
    In file files /\ prepares s file c /\ In (Called c (inl e)) t.
Proof.
  intros H.
  destruct (prepareFiles_threw files s t e H) as (file & t' & Hf & Hrun & Hincl).
  destruct (prepare_task_threw s file t' e Hrun) as (_ & c & Hc & Hin).
  exists file, c. split; [exact Hf|]. split; [exact Hc|]. apply Hincl, Hin.
Qed.


(** X12. The entries of the map [prepareFiles] returns are ordered by the
    first occurrence of each file name in the input, whichever file's item
    each entry ends up holding; this is the order in which the file items
    are later handed to [bundleAndSignData]. *)


End PreparingMore.

(** ** How bundling and uploading end *)

Section Outcomes.

Context {sdk : Sdk}.
Local Open Scope list_scope.

(** An array is empty or has a last element. *)
Lemma empty_or_last {A} (l : list A) :
  l = [] \/ exists l' x, l = l' ++ [x].
Proof.
  destruct l as [|a l]; [now left|]. right.
  destruct (@exists_last _ (a :: l)) as (l' & x & Hl); [discriminate|].
  exists l', x. exact Hl.
Qed.

Lemma ids_of_cases b rc :
  (bundle_items b = [] /\ ids_of b rc = inl no_last_item) \/
  (exists l x, bundle_items b = l ++ [x] /\
               ids_of b rc = inr [item_id x; receipt_data_id rc]).
Proof.
  destruct (empty_or_last (bundle_items b)) as [Hb|(l & x & Hb)].
  - left. split; [exact Hb|]. unfold ids_of. rewrite Hb. reflexivity.
  - right. exists l, x. split; [exact Hb|]. apply (ids_of_last b l x rc Hb).
Qed.

(** X4. How [uploadBundle] ends.  Either one of its calls threw, and it
    stops there and throws the same value; or all seven calls are answered,
    the transaction has been uploaded, and then: if [bundle.items] is empty
    the function throws the TypeError of reading [.id] of [undefined], and
    otherwise it returns the identifier of the last item of the bundle and
    the identifier of the receipt. *)
Theorem uploadBundle_outcomes b t r :
  runs (uploadBundle b) t r ->
  (exists pre c e, t = pre ++ [Called c (inl e)] /\ all_answered pre /\ r = inl e) \/
  (exists irys u1 u2 u3 x sx rc,
      t = upload_steps b irys u1 u2 u3 x sx (inr rc) /\
      ((bundle_items b = [] /\ r = inl no_last_item) \/
       (exists l last, bundle_items b = l ++ [last] /\
                       r = inr [item_id last; receipt_data_id rc]))).
Proof.
  intros H. pose proof (uploadBundle_propagates b t r H) as Hend.
  apply uploadBundle_runs in H.
  destruct H as [(irys & u1 & u2 & u3 & x & sx & o & -> & ->)|(_ & (e & ->) & Hn)].
  - destruct o as [e|rc].
    + left.
      exists (removelast (upload_steps b irys u1 u2 u3 x sx (inl e))),
             (UploadTransaction u3 sx), e.
      repeat split.
    + right. exists irys, u1, u2, u3, x, sx, rc. split; [reflexivity|].
      simpl. destruct (ids_of_cases b rc) as [(Hb & ->)|(l & last & Hb & ->)].
      * left. now split.
      * right. exists l, last. now split.
  - left. simpl in Hend. destruct Hend as [Hans|(pre & c & -> & Hpre)].
    + contradiction.
    + exists pre, c, e. repeat split. exact Hpre.
Qed.

(** X5. How [bundleItems] ends.  Either one of its calls threw, and it
    stops there and throws the same value; in particular, when [getIrys],
    [generateManifest] or [createData] throws, [bundleAndSignData] is not
    called.  Or its four calls are answered and it returns the bundle that
    [bundleAndSignData] gave. *)
Theorem bundleItems_outcomes m s t r :
  runs (bundleItems m s) t r ->
  (exists pre c e,
      t = pre ++ [Called c (inl e)] /\ all_answered pre /\ r = inl e /\
      existsb is_bundling pre = false) \/
  (exists irys mf mi b, t = bundle_steps m s irys mf mi (inr b) /\ r = inr b).
Proof.
  intros H. pose proof (bundleItems_propagates m s t r H) as Hend.
  pose proof (bundleItems_runs m s t r H) as Hrun.
  destruct r as [e|b].
  - left. simpl in Hend. destruct Hend as [Hans|(pre & c & -> & Hpre)].
    + destruct (bundleItems_answered m s t _ H Hans) as (b & [=]).
    + exists pre, c, e. repeat split; [exact Hpre|].
      destruct Hrun as [(irys & mf & mi & Ht)|(Hno & _)].
      * unfold bundle_steps in Ht.
        change (?a :: ?b :: ?c :: [?d]) with ([a; b; c] ++ [d]) in Ht.
        apply app_inj_tail in Ht. destruct Ht as [-> _]. reflexivity.
      * rewrite existsb_app in Hno. apply orb_false_iff in Hno. apply Hno.
  - right. destruct Hrun as [(irys & mf & mi & ->)|(_ & (e & [=]) & _)].
    exists irys, mf, mi, b. split; reflexivity.
Qed.

(** X6. When the SDK answers every call, [fundAndUploadNestedBundle] goes
    through key generation, file preparation, bundling and upload, and
    then ends in one of two ways: the bundle has a last item, and its
    identifier and the receipt's are returned without anything being
    logged; or [bundle.items] is empty, and the TypeError is logged, as
    the last thing that happens, and the two empty strings are returned
    although the transaction has been uploaded.  The calls [tp] that
    prepare the files are an execution of [prepareFiles]: the three calls
    of each file, in the order in which the tasks make them. *)
Theorem answered_executions files t r :
  runs (fundAndUploadNestedBundle files) t r ->
  all_answered t ->
  exists a tp,
    List.length (prepared a) = List.length files /\
    runs (prepareFiles files (ephemeralSigner a)) tp (inr (preppedFiles files a)) /\
    Permutation tp (files_steps (ephemeralSigner a) files (prepared a)) /\
    ((exists l last,
         bundle_items (bundle a) = l ++ [last] /\
         t = answered_around tp files a /\
         r = inr [item_id last; receipt_data_id (receipt a)]) \/
     (bundle_items (bundle a) = [] /\
      t = answered_around tp files a ++ [Logged (error_line no_last_item)] /\
      r = inr [""; ""])).
Proof.
  intros H Hans. apply fundAndUploadNestedBundle_runs in H.
  destruct H as [(ids & H & ->)|[(e & t0 & H & _ & -> & ->)
                                |(e & key & s & pre & post & H & -> & ->)]].
  - destruct (upload_attempt_answered files t _ H Hans)
      as (a & tp & Hlen & Hprep & Hperm & -> & Hr).
    exists a, tp. split; [exact Hlen|]. split; [exact Hprep|]. split; [exact Hperm|].
    destruct (ids_of_cases (bundle a) (receipt a)) as [(Hb & He)|(l & x & Hb & He)].
    + rewrite He in Hr. discriminate Hr.
    + left. exists l, x. rewrite Hr, He. repeat split. exact Hb.
  - apply all_answered_app in Hans. destruct Hans as [Hans _].
    destruct (upload_attempt_answered files t0 _ H Hans)
      as (a & tp & Hlen & Hprep & Hperm & -> & Hr).
    exists a, tp. split; [exact Hlen|]. split; [exact Hprep|]. split; [exact Hperm|].
    destruct (ids_of_cases (bundle a) (receipt a)) as [(Hb & He)|(l & x & Hb & He)].
    + right. rewrite He in Hr. injection Hr as ->. repeat split. exact Hb.
    + rewrite He in Hr. discriminate Hr.
  - apply all_answered_cons in Hans. destruct Hans as [_ Hans].
    apply all_answered_cons in Hans. destruct Hans as [_ Hans].
    apply all_answered_app in Hans. destruct Hans as [Hpre Hpost].
    apply all_answered_cons in Hpost. destruct Hpost as [_ Hpost].
    assert (Ha : all_answered (pre ++ post)) by (apply all_answered_app; now split).
    destruct (prepareFiles_answered _ _ _ _ H Ha) as (? & [=]).
Qed.

End Outcomes.

(** ** What the orchestration never does *)

Section Never.

Context {sdk : Sdk}.
Local Open Scope list_scope.

Lemma prepareFiles_no_upload files s t r :
  runs (prepareFiles files s) t r -> existsb is_upload t = false.
Proof.
  intros H. apply Forall_existsb_false.
  apply (prepareFiles_entries (fun e => is_upload e = false) files s) in H;
    [exact H|reflexivity..].
Qed.

Lemma bundleItems_no_upload m s t r :
  runs (bundleItems m s) t r -> existsb is_upload t = false.
Proof.
  intros H. apply Forall_existsb_false.
  apply (bundleItems_entries (fun e => is_upload e = false) m s) in H;
    [exact H|reflexivity..].
Qed.

(** In an execution of [uploadBundle], [uploadTransaction] is the last
    call if it is made at all. *)
Lemma uploadBundle_upload_last b t r :
  runs (uploadBundle b) t r ->
  existsb is_upload t = false \/
  exists pre en,
    t = pre ++ [en] /\ is_upload en = true /\
    existsb is_upload pre = false /\ all_answered pre.
Proof.
  intros H. apply uploadBundle_runs in H.
  destruct H as [(irys & u1 & u2 & u3 & x & sx & o & -> & _)|(Hno & _)].
  - right.
    exists (removelast (upload_steps b irys u1 u2 u3 x sx o)),
           (Called (UploadTransaction u3 sx) o).
    repeat split.
  - now left.
Qed.

(** The same for the body of the [try]. *)
Lemma upload_attempt_upload_last files t r :
  runs (upload_attempt files) t r ->
  existsb is_upload t = false \/
  exists pre en,
    t = pre ++ [en] /\ is_upload en = true /\
    existsb is_upload pre = false /\ all_answered pre.
Proof.
  unfold upload_attempt. intros H.
  apply runs_await_bind in H.
  destruct H as [(e & -> & ->)|(a & ta & -> & H)]; [now left|].
  apply runs_await_bind in H.
  destruct H as [(e & -> & ->)|(a0 & tb & -> & H)]; [now left|].
  bind_inv H.
  destruct H as [(e & H & ->)|(t1 & m & t2 & -> & H1 & H)].
  { left. simpl. exact (prepareFiles_no_upload _ _ _ _ H). }
  pose proof (prepareFiles_no_upload _ _ _ _ H1) as Hn1.
  pose proof (prepareFiles_relays _ _ _ _ H1) as Ha1. simpl in Ha1.
  bind_inv H.
  destruct H as [(e & H & ->)|(t3 & b & t4 & -> & H2 & H)].
  { left. simpl. rewrite existsb_app, Hn1.
    exact (bundleItems_no_upload _ _ _ _ H). }
  pose proof (bundleItems_no_upload _ _ _ _ H2) as Hn2.
  pose proof (bundleItems_propagates _ _ _ _ H2) as Ha2. simpl in Ha2.
  assert (Hup : exists t5 r5, runs (uploadBundle b) t5 r5 /\ t4 = t5).
  { bind_inv H.
    destruct H as [(e & H & _)|(t5 & ids & t6 & -> & H & [-> _])].
    - eauto.
    - exists t5, (inr ids). rewrite app_nil_r. now split. }
  destruct Hup as (t5 & r5 & H5 & ->).
  destruct (uploadBundle_upload_last b t5 r5 H5)
    as [Hn5|(pre & en & -> & Hen & Hpre & Hans)].
  - left. simpl. now rewrite !existsb_app, Hn1, Hn2, Hn5.
  - right.
    exists (Called GenerateJWK (inr a) :: Called (NewArweaveSigner a) (inr a0)
              :: t1 ++ t3 ++ pre), en.
    split; [simpl; now rewrite <- !app_assoc|]. split; [exact Hen|]. split.
    + simpl. now rewrite !existsb_app, Hn1, Hn2, Hpre.
    + apply all_answered_cons. split; [reflexivity|].
      apply all_answered_cons. split; [reflexivity|].
      apply all_answered_app. split; [exact Ha1|].
      apply all_answered_app. split; [exact Ha2|exact Hans].
Qed.

Lemma filter_existsb_false (P : Entry -> bool) t :
  existsb P t = false -> List.filter P t = [].
Proof.
  induction t as [|e t IH]; simpl; [reflexivity|].
  intros H. apply orb_false_iff in H. destruct H as [-> H]. exact (IH H).
Qed.

(** X7. In every execution of [fundAndUploadNestedBundle],
    [uploadTransaction] is called at most once, and if any other call threw,
    it is not called at all: nothing is uploaded after a failure of key
    generation, file preparation, bundling, listener registration,
    transaction creation or signing. *)
Theorem nothing_uploaded_after_a_failure files t r :
  runs (fundAndUploadNestedBundle files) t r ->
  List.length (List.filter is_upload t) <= 1 /\
  forall c e,
    In (Called c (inl e)) t ->
    is_upload (Called c (inl e)) = false ->
    existsb is_upload t = false.
Proof.
  intros H. apply fundAndUploadNestedBundle_runs in H.
  assert (Hcases : (exists t0 r0 tl,
                       runs (upload_attempt files) t0 r0 /\ t = t0 ++ tl /\
                       existsb is_upload tl = false /\ all_answered tl) \/
                   existsb is_upload t = false).
  { destruct H as [(ids & H & _)|[(e & t0 & H & _ & -> & _)
                                 |(e & key & s & pre & post & H & -> & _)]].
    - left. exists t, (inr ids), []. rewrite app_nil_r. repeat split. exact H.
    - left. exists t0, (inl e), [Logged (error_line e)]. repeat split. exact H.
    - right. apply prepareFiles_no_upload in H.
      rewrite existsb_app in H. apply orb_false_iff in H. destruct H as [Hpre Hpost].
      simpl. rewrite existsb_app, Hpre. simpl. exact Hpost. }
  destruct Hcases as [(t0 & r0 & tl & H0 & -> & Htl & Hatl)|Hno].
  - destruct (upload_attempt_upload_last files t0 r0 H0)
      as [Hn|(pre & en & -> & Hen & Hpre & Hans)].
    + split.
      * rewrite filter_app, (filter_existsb_false _ _ Hn),
          (filter_existsb_false _ _ Htl). simpl. lia.
      * intros _ _ _ _. now rewrite existsb_app, Hn, Htl.
    + split.
      * rewrite !filter_app, (filter_existsb_false _ _ Hpre),
          (filter_existsb_false _ _ Htl). simpl. rewrite Hen. simpl. lia.
      * intros c e Hin Hc. exfalso.
        apply in_app_or in Hin. destruct Hin as [Hin|Hin].
        -- apply in_app_or in Hin. destruct Hin as [Hin|[Hin|[]]].
           ++ exact (all_answered_no_throw pre c e Hans Hin).
           ++ rewrite Hin in Hen. congruence.
        -- exact (all_answered_no_throw tl c e Hatl Hin).
  - split; [rewrite (filter_existsb_false _ _ Hno); simpl; lia|].
    intros _ _ _ _. exact Hno.
Qed.

Lemma upload_attempt_no_log files t r :
  runs (upload_attempt files) t r -> existsb is_log t = false.
Proof.
  intros H. apply Forall_existsb_false. revert t r H.
  change (always (Forall (fun e => is_log e = false)) (upload_attempt files)).
  pose proof (additive_Forall (fun e => is_log e = false)) as Hadd.
  unfold upload_attempt.
  apply always_bind; [exact _|exact Hadd|apply always_await; intros o; repeat constructor|].
  intros k.
  apply always_bind; [exact _|exact Hadd|apply always_await; intros o; repeat constructor|].
  intros s.
  apply always_bind; [exact _|exact Hadd|apply prepareFiles_entries; reflexivity|].
  intros m.
  apply always_bind; [exact _|exact Hadd|apply bundleItems_entries; reflexivity|].
  intros b.
  apply always_bind; [exact _|exact Hadd|apply uploadBundle_entries; reflexivity|].
  intros ids. apply always_ret. constructor.
Qed.

(** X8. The statements of [fundAndUploadNestedBundle] write to the console
    at most once: whenever a line is logged, it is the "Error on upload:"
    line for the value the [try] body threw, what comes before and after
    it is an execution of the [try] body, which logs nothing, and the
    function returns the two empty strings.  Entries come after the line
    only when [Promise.all] rejected and the tasks of other files still
    make calls.  (The three listeners print when the SDK invokes them
    during the upload; that is the SDK's doing and not part of the
    trace.) *)
Theorem logs_only_the_caught_error files t r :
  runs (fundAndUploadNestedBundle files) t r ->
  forall l,
    In (Logged l) t ->
    r = inr [""; ""] /\
    exists e pre post,
      l = error_line e /\
      t = pre ++ Logged l :: post /\
      existsb is_log (pre ++ post) = false /\
      runs (upload_attempt files) (pre ++ post) (inl e) /\
      (post = [] \/
       exists s t', runs (prepareFiles files s) t' (inl e) /\ incl post t').
Proof.
  intros H l Hin.
  assert (Hnolog : forall t0 r0, runs (upload_attempt files) t0 r0 ->
                                 ~ In (Logged l) t0).
  { intros t0 r0 H0 Hin0. apply upload_attempt_no_log in H0.
    apply Forall_existsb_false in H0. rewrite Forall_forall in H0.
    specialize (H0 _ Hin0). discriminate H0. }
  apply fundAndUploadNestedBundle_runs in H.
  destruct H as [(ids & H & ->)|[(e & t0 & H & _ & -> & ->)
                                |(e & key & s & pre & post & H & -> & ->)]].
  - destruct (Hnolog _ _ H Hin).
  - split; [reflexivity|]. apply in_app_or in Hin.
    destruct Hin as [Hin|[Hin|[]]]; [destruct (Hnolog _ _ H Hin)|].
    injection Hin as <-. exists e, t0, []. rewrite app_nil_r. repeat split.
    + exact (upload_attempt_no_log files t0 _ H).
    + exact H.
    + now left.
  - split; [reflexivity|].
    assert (Hrun : runs (upload_attempt files)
                        ((Called GenerateJWK (inr key)
                            :: Called (NewArweaveSigner key) (inr s) :: pre) ++ post)
                        (inl e)).
    { unfold upload_attempt. apply runs_await_bind. right. eexists _, _.
      split; [reflexivity|]. apply runs_await_bind. right. eexists _, _.
      split; [reflexivity|]. apply (runs_bind (prepareFiles files s)). left.
      exists e. split; [exact H|reflexivity]. }
    assert (Hl : l = error_line e).
    { simpl in Hin. destruct Hin as [Hin|[Hin|Hin]]; try discriminate Hin.
      apply in_app_or in Hin. destruct Hin as [Hin|[Hin|Hin]].
      - exfalso. apply (Hnolog _ _ Hrun). right. right. apply in_or_app. now left.
      - now injection Hin as <-.
      - exfalso. apply (Hnolog _ _ Hrun). right. right. apply in_or_app. now right. }
    subst l.
    exists e, (Called GenerateJWK (inr key)
                 :: Called (NewArweaveSigner key) (inr s) :: pre), post.
    split; [reflexivity|]. split; [reflexivity|].
    split; [exact (upload_attempt_no_log files _ _ Hrun)|]. split; [exact Hrun|].
    right. exists s, (pre ++ post). split; [exact H|].
    intros x Hx. apply in_or_app. now right.
Qed.

(** X9. One ephemeral key per invocation: in every execution of
    [fundAndUploadNestedBundle], every [createData], [item.sign] and
    [bundleAndSignData] call is made with the signer that
    [new ArweaveSigner] returned for the key that [generateJWK] returned,
    these being the first two calls of the execution. *)
Theorem one_ephemeral_signer files t r :
  runs (fundAndUploadNestedBundle files) t r ->
  forall e s,
    In e t -> entry_signer e = Some s ->
    exists key rest,
      t = Called GenerateJWK (inr key)
            :: Called (NewArweaveSigner key) (inr s) :: rest /\
      Forall (signed_by s) t.
Proof.
  intros H e s Hin He. apply fundAndUploadNestedBundle_runs in H.
  assert (Hatt : forall t0 r0, runs (upload_attempt files) t0 r0 ->
            (Forall (fun e => entry_signer e = None) t0) \/
            exists key s0 rest,
              t0 = Called GenerateJWK (inr key)
                     :: Called (NewArweaveSigner key) (inr s0) :: rest /\
              Forall (signed_by s0) t0).
  { intros t0 r0 H0. unfold upload_attempt in H0.
    apply runs_await_bind in H0.
    destruct H0 as [(e1 & -> & ->)|(key & ta & -> & H0)];
      [left; repeat constructor|].
    apply runs_await_bind in H0.
    destruct H0 as [(e1 & -> & ->)|(s0 & tb & -> & H0)];
      [left; repeat constructor|].
    right. exists key, s0, tb. split; [reflexivity|].
    apply Forall_cons; [intros s' [=]|]. apply Forall_cons; [intros s' [=]|].
    revert tb r0 H0.
    change (always (Forall (signed_by s0))
              (preppedFiles <- prepareFiles files s0 ;;
               bundle <- bundleItems preppedFiles s0 ;;
               ids <- uploadBundle bundle ;;
               ret [nth 0 ids ""; nth 1 ids ""])).
    pose proof (additive_Forall (signed_by s0)) as Hadd.
    apply always_bind; [exact _|exact Hadd| |intros m].
    { apply prepareFiles_entries; intros; intros s' [=]; congruence. }
    apply always_bind; [exact _|exact Hadd| |intros b].
    { apply bundleItems_entries; intros; intros s' [=]; congruence. }
    apply always_bind; [exact _|exact Hadd| |intros ids; apply always_ret; constructor].
    apply uploadBundle_entries; intros; intros s' [=]. }
  assert (Hsplit : (exists t0 r0 tl, runs (upload_attempt files) t0 r0 /\
                      t = t0 ++ tl /\ Forall (fun e => entry_signer e = None) tl) \/
                   (exists key s0 rest,
                       t = Called GenerateJWK (inr key)
                             :: Called (NewArweaveSigner key) (inr s0) :: rest /\
                       Forall (signed_by s0) t)).
  { destruct H as [(ids & H & _)|[(e0 & t0 & H & _ & -> & _)
                                 |(e0 & key & s0 & pre & post & H & -> & _)]].
    - left. exists t, (inr ids), []. rewrite app_nil_r.
      repeat split; [exact H|constructor].
    - left. exists t0, (inl e0), [Logged (error_line e0)].
      repeat split; [exact H|repeat constructor].
    - right. exists key, s0, (pre ++ Logged (error_line e0) :: post).
      split; [reflexivity|].
      apply (prepareFiles_entries (signed_by s0)) in H;
        [|intros; intros s' [=]; congruence..].
      apply Forall_app in H. destruct H as [Hpre Hpost].
      apply Forall_cons; [intros s' [=]|]. apply Forall_cons; [intros s' [=]|].
      apply Forall_app. split; [exact Hpre|].
      apply Forall_cons; [intros s' [=]|exact Hpost]. }
  destruct Hsplit as [(t0 & r0 & tl & H0 & -> & Htl)|(key & s0 & rest & -> & Hall)].
  - destruct (Hatt t0 r0 H0) as [Hnone|(key & s0 & rest & -> & Hall)].
    + exfalso. assert (Hn : Forall (fun e => entry_signer e = None) (t0 ++ tl))
        by (apply Forall_app; now split).
      rewrite Forall_forall in Hn. specialize (Hn e Hin). congruence.
    + assert (Hall' : Forall (signed_by s0)
                        ((Called GenerateJWK (inr key)
                            :: Called (NewArweaveSigner key) (inr s0) :: rest) ++ tl)).
      { apply Forall_app. split; [exact Hall|].
        eapply Forall_impl; [|exact Htl]. intros x Hx s' Hs'. congruence. }
      assert (Hs : s = s0).
      { rewrite Forall_forall in Hall'. exact (Hall' e Hin s He). }
      subst s0. exists key, (rest ++ tl). split; [reflexivity|exact Hall'].
  - assert (Hs : s = s0).
    { rewrite Forall_forall in Hall. exact (Hall e Hin s He). }
    subst s0. exists key, rest. split; [reflexivity|exact Hall].
Qed.

End Never.

(** ** Signatures and the number of calls *)

Section SigningAndCost.

Context {sdk : Sdk}.
Local Open Scope list_scope.

Lemma always_impl {A} (Q1 Q2 : Trace -> Prop) (p : Prog A) :
  (forall t, Q1 t -> Q2 t) -> always Q1 p -> always Q2 p.
Proof. intros Himp H t r Hr. apply Himp. exact (H t r Hr). Qed.

Lemma signs_file_items_additive files : additive (signs_file_items files).
Proof.
  split.
  - intros item s o [].
  - intros t1 t2 H1 H2 item s o Hin. apply in_app_or in Hin.
    destruct Hin as [Hin|Hin].
    + destruct (H1 item s o Hin) as (file & buf & Hf & Ha & Hc).
      exists file, buf. repeat split; [exact Hf|apply in_or_app; now left..].
    + destruct (H2 item s o Hin) as (file & buf & Hf & Ha & Hc).
      exists file, buf. repeat split; [exact Hf|apply in_or_app; now right..].
Qed.

Lemma signs_file_items_perm files t t' :
  Permutation t t' -> signs_file_items files t -> signs_file_items files t'.
Proof.
  intros Hp H item s o Hin.
  apply (Permutation_in _ (Permutation_sym Hp)) in Hin.
  destruct (H item s o Hin) as (file & buf & Hf & Ha & Hc).
  exists file, buf. split; [exact Hf|].
  split; [exact (Permutation_in _ Hp Ha)|exact (Permutation_in _ Hp Hc)].
Qed.

Lemma no_item_sign_signs_file_items files t :
  Forall (fun e => is_item_sign e = false) t -> signs_file_items files t.
Proof.
  intros H item s o Hin. rewrite Forall_forall in H.
  specialize (H _ Hin). discriminate H.
Qed.

(** The task of a file signs the item it created for that file, whether
    or not it gets to its end. *)
Lemma prepare_task_signs_its_item files file s t r :
  In file files -> truns (prepare_task s file) t r -> signs_file_items files t.
Proof.
  intros Hf H item s' o Hin. apply prepare_task_runs in H.
  destruct H as [(p & -> & _)|(e & _ & [->|[(buf & ->)|(buf & raw & ->)]])].
  - unfold file_steps in Hin. in_calls Hin. injection Hin as <- <-.
    exists file, (buffer p). split; [exact Hf|]. split; [now left|right; now left].
  - in_calls Hin.
  - in_calls Hin.
  - in_calls Hin. injection Hin as <- <-.
    exists file, buf. split; [exact Hf|]. split; [now left|right; now left].
Qed.

Lemma prepareFiles_signs_file_items files s :
  always (signs_file_items files) (prepareFiles files s).
Proof.
  apply prepareFiles_always.
  - apply signs_file_items_additive.
  - apply signs_file_items_perm.
  - intros file t r Hf. apply prepare_task_signs_its_item, Hf.
Qed.

(** X10. The only items the orchestration signs itself are file items:
    in every execution of [fundAndUploadNestedBundle], each [item.sign]
    call is made on the data item that [createData] returned for the bytes
    that [arrayBuffer()] returned for one of the input files, with that
    file's Content-Type tag and the same signer. *)
Theorem item_sign_only_on_file_items files t r :
  runs (fundAndUploadNestedBundle files) t r ->
  forall item s o,
    In (Called (ItemSign item s) o) t ->
    exists file buf,
      In file files /\
      In (Called (ArrayBuffer file) (inr buf)) t /\
      In (Called (CreateData (Binary buf) s [content_type_tag file]) (inr item)) t.
Proof.
  intros H. change (signs_file_items files t).
  apply fundAndUploadNestedBundle_attempt in H.
  pose proof (signs_file_items_additive files) as Hadd.
  assert (Hatt : always (signs_file_items files) (upload_attempt files)).
  { unfold upload_attempt.
    apply always_bind;
      [exact _|exact Hadd|apply always_await; intros o item s o' Hin; in_calls Hin|].
    intros k.
    apply always_bind;
      [exact _|exact Hadd|apply always_await; intros o item s o' Hin; in_calls Hin|].
    intros s0.
    apply always_bind; [exact _|exact Hadd|apply prepareFiles_signs_file_items|intros m].
    apply always_bind; [exact _|exact Hadd| |intros b].
    { apply (always_impl (Forall (fun e => is_item_sign e = false)));
        [apply no_item_sign_signs_file_items|].
      apply bundleItems_entries; reflexivity. }
    apply always_bind; [exact _|exact Hadd| |intros ?; apply always_ret, Hadd].
    apply (always_impl (Forall (fun e => is_item_sign e = false)));
      [apply no_item_sign_signs_file_items|].
    apply uploadBundle_entries; reflexivity. }
  destruct H as (t0 & r0 & H & [->|(e & pre & post & _ & -> & ->)]).
  - exact (Hatt _ _ H).
  - apply (signs_file_items_perm files ([Logged (error_line e)] ++ pre ++ post)).
    + exact (Permutation_middle pre post (Logged (error_line e))).
    + apply Hadd; [|exact (Hatt _ _ H)]. intros item s o Hin. in_calls Hin.
Qed.

Lemma prepare_task_at_most s file t r :
  truns (prepare_task s file) t r -> List.length t <= 3.
Proof.
  intros H. apply prepare_task_runs in H.
  destruct H as [(p & -> & _)|(e & _ & [->|[(buf & ->)|(buf & raw & ->)]])];
    simpl; lia.
Qed.

Lemma prepareFiles_at_most files s :
  at_most (3 * List.length files) (prepareFiles files s).
Proof.
  intros t r H. apply prepareFiles_tasks in H.
  destruct H as (trs & He & Hp & _). rewrite (Permutation_length Hp). clear Hp.
  induction He as [|file [t' r'] files trs Hrun He IH]; simpl; [lia|].
  rewrite length_app. apply prepare_task_at_most in Hrun. simpl in Hrun. lia.
Qed.

Lemma bundleItems_at_most m s : at_most 4 (bundleItems m s).
Proof.
  unfold bundleItems. apply (at_most_le (1 + (1 + (1 + (1 + 0))))); [lia|].
  repeat (apply at_most_bind; [exact _|apply at_most_await|intros ?]).
  apply at_most_ret.
Qed.

Lemma uploadBundle_at_most b : at_most 7 (uploadBundle b).
Proof.
  unfold uploadBundle.
  apply (at_most_le (1 + (1 + (1 + (1 + (1 + (1 + (1 + (0 + 0))))))))); [lia|].
  repeat (apply at_most_bind; [exact _|apply at_most_await|intros ?]).
  apply at_most_bind; [exact _| |intros ?; apply at_most_ret].
  unfold last_item_id. destruct (Js.index _ _);
    [apply at_most_ret|apply at_most_throw].
Qed.

Lemma length_files_steps s files : forall ps,
  List.length ps = List.length files ->
  List.length (files_steps s files ps) = 3 * List.length files.
Proof.
  induction files as [|f files IH]; intros [|p ps] Hlen; try discriminate Hlen.
  - reflexivity.
  - cbn [files_steps]. rewrite length_app, IH by (simpl in Hlen; lia).
    simpl. lia.
Qed.

(** X11. The cost of an invocation is linear in the number of files: every
    execution of [fundAndUploadNestedBundle] on [n] files consists of at
    most [3 n + 13] SDK calls and one console line, and an execution in
    which every call is answered makes exactly [3 n + 13] calls: three per
    file, two for the key, four for bundling and seven for the upload. *)
Theorem call_budget files t r :
  runs (fundAndUploadNestedBundle files) t r ->
  List.length (List.filter (fun e => negb (is_log e)) t)
    <= 3 * List.length files + 13 /\
  List.length t <= 3 * List.length files + 14 /\
  (all_answered t ->
   List.length (List.filter (fun e => negb (is_log e)) t)
     = 3 * List.length files + 13).
Proof.
  intros H.
  assert (Hatt : at_most (3 * List.length files + 13) (upload_attempt files)).
  { unfold upload_attempt.
    apply (at_most_le (1 + (1 + (3 * List.length files + (4 + (7 + 0))))));
      [lia|].
    apply at_most_bind; [exact _|apply at_most_await|intros ?].
    apply at_most_bind; [exact _|apply at_most_await|intros ?].
    apply at_most_bind; [exact _|apply prepareFiles_at_most|intros ?].
    apply at_most_bind; [exact _|apply bundleItems_at_most|intros ?].
    apply at_most_bind; [exact _|apply uploadBundle_at_most|intros ?].
    apply at_most_ret. }
  assert (Hcalls : forall t0 r0, runs (upload_attempt files) t0 r0 ->
                     List.filter (fun e => negb (is_log e)) t0 = t0).
  { intros t0 r0 H0. apply upload_attempt_no_log in H0.
    apply Forall_existsb_false in H0. clear -H0.
    induction H0 as [|e t0 He _ IH]; simpl; [reflexivity|].
    rewrite He. simpl. now rewrite IH. }
  assert (Hexact : forall t0 r0, runs (upload_attempt files) t0 r0 ->
                     all_answered t0 ->
                     List.length t0 = 3 * List.length files + 13).
  { intros t0 r0 H0 Hans.
    destruct (upload_attempt_answered files t0 r0 H0 Hans)
      as (a & tp & Hl & _ & Hperm & -> & _).
    unfold answered_around. rewrite !length_app, (Permutation_length Hperm),
      length_files_steps by exact Hl.
    simpl. lia. }
  apply fundAndUploadNestedBundle_attempt in H.
  destruct H as (t0 & r0 & H0 & [->|(e & pre & post & _ & -> & ->)]).
  - pose proof (Hatt _ _ H0) as Hle. rewrite (Hcalls _ _ H0).
    split; [exact Hle|]. split; [lia|]. exact (Hexact _ _ H0).
  - pose proof (Hatt _ _ H0) as Hle. pose proof (Hcalls _ _ H0) as Hc.
    assert (Hf : List.filter (fun e0 => negb (is_log e0))
                             (pre ++ Logged (error_line e) :: post) = pre ++ post).
    { rewrite filter_app in *. simpl. exact Hc. }
    rewrite Hf. split; [exact Hle|]. split.
    + rewrite length_app in *. simpl. lia.
    + intros Hans. apply (Hexact _ _ H0).
      apply all_answered_app in Hans. destruct Hans as [Hpre Hpost].
      apply all_answered_cons in Hpost. destruct Hpost as [_ Hpost].
      apply all_answered_app. now split.
Qed.

End SigningAndCost.

(** ** The order in which the files are read *)

Section ReadingOrder.

Context {sdk : Sdk}.
Local Open Scope list_scope.

(** An execution of a [Promise.all] that is not caught: the first
    stretches of the tasks, in the order of the array, and then what is
    left of each task, mixed. *)
Lemma runs_All_split {B} (tasks : list (TM B)) t r :
  runs (All tasks (fun r => Ret r)) t r ->
  exists t0 pool rest trs,
    starts tasks t0 pool /\ t = t0 ++ rest /\ finishes pool trs /\
    Permutation rest (List.concat (List.map fst trs)).
Proof.
  simpl. intros (t0 & pool & t1 & out & others & Hs & Hr & H).
  pose proof (races_ends pool t1 out others Hr) as Hend.
  destruct out as [e|bs].
  - destruct H as (segs & tk & tail & Hd & [-> ->] & Hw & ->).
    apply weave_nil_inv in Hw. subst tail.
    destruct (drains_finishes others segs Hd) as (trs0 & Hf0 & Hp0).
    destruct (races_finishes pool t1 (inl e) others Hr trs0 Hf0)
      as (trs1 & Hf1 & _ & Hp1).
    exists t0, pool, (t1 ++ List.concat segs), trs1.
    split; [exact Hs|]. split; [reflexivity|]. split; [exact Hf1|].
    eapply Permutation_trans; [|exact Hp1]. apply Permutation_app_head. exact Hp0.
  - destruct H as (t2 & [-> ->] & ->).
    destruct (fulfilled_finishes others bs Hend) as (trs0 & Hf0 & _ & Hc0).
    destruct (races_finishes pool t1 (inr bs) others Hr trs0 Hf0)
      as (trs1 & Hf1 & _ & Hp1).
    exists t0, pool, (t1 ++ []), trs1.
    split; [exact Hs|]. split; [reflexivity|]. split; [exact Hf1|].
    rewrite Hc0 in Hp1. exact Hp1.
Qed.

(** The task of a file starts with [arrayBuffer()] and calls it no
    more. *)
Lemma prepare_task_starts s file t sl :
  stretch (prepare_task s file) t sl ->
  exists o,
    t = [Called (ArrayBuffer file) o] /\
    forall t' r, finish sl t' r -> Forall (fun e => is_array_buffer e = false) t'.
Proof.
  unfold prepare_task, prepareFile. cbn. intros (o & -> & ->).
  exists o. split; [reflexivity|]. intros t' r H. destruct o as [e|buf]; cbn in H.
  { destruct H as [-> _]. constructor. }
  destruct H as (o2 & t2 & -> & H). constructor; [reflexivity|].
  destruct o2 as [e|item]; cbn in H.
  { destruct H as [-> _]. constructor. }
  destruct H as (o3 & t3 & -> & H). constructor; [reflexivity|].
  destruct o3 as [e|sg]; cbn in H; destruct H as [-> _]; constructor.
Qed.

Lemma prepare_tasks_start s files :
  forall t0 pool,
    starts (List.map (prepare_task s) files) t0 pool ->
    exists os,
      List.length os = List.length files /\ t0 = reads files os /\
      Forall (fun sl => forall t' r, finish sl t' r ->
                                     Forall (fun e => is_array_buffer e = false) t')
             pool.
Proof.
  induction files as [|file files IH]; intros t0 pool H; inversion H; subst.
  - exists []. repeat split. constructor.
  - match goal with
    | Hs : stretch _ _ _, Hst : starts _ _ _ |- _ =>
        destruct (prepare_task_starts _ _ _ _ Hs) as (o & -> & Hfin);
        destruct (IH _ _ Hst) as (os & Hlen & -> & Hall)
    end.
    exists (o :: os). split; [simpl; now rewrite Hlen|]. split; [reflexivity|].
    constructor; assumption.
Qed.

Lemma finishes_entries {R} (P : Entry -> Prop) (pool : list (Slot R)) trs :
  finishes pool trs ->
  Forall (fun sl => forall t' r, finish sl t' r -> Forall P t') pool ->
  Forall P (List.concat (List.map fst trs)).
Proof.
  induction 1 as [|sl [t r] pool trs Hf H IH]; intros Hall; simpl; [constructor|].
  inversion Hall; subst. apply Forall_app. split; [|apply IH; assumption].
  match goal with Hsl : forall t' r, finish sl t' r -> _ |- _ => exact (Hsl _ _ Hf) end.
Qed.

(** X13. [prepareFiles] reads every file before it creates any item: in
    every execution, returning or throwing, the first calls are
    [arrayBuffer()] on each input file, in the order of the input, and
    [arrayBuffer()] is not called again; every [createData] and
    [item.sign] comes after them.  So with two files or more the calls of
    one file are not made in one piece. *)
Theorem prepareFiles_reads_every_file_first files s t r :
  runs (prepareFiles files s) t r ->
  exists os rest,
    List.length os = List.length files /\
    t = reads files os ++ rest /\
    Forall (fun e => is_array_buffer e = false) rest.
Proof.
  unfold prepareFiles. intros H. bind_inv H.
  assert (Hall : exists r0, runs (All (List.map (prepare_task s) files)
                                      (fun r => Ret r)) t r0).
  { destruct H as [(e & H & _)|(t1 & items & t2 & -> & H & [-> _])].
    - exists (inl e). exact H.
    - exists (inr items). rewrite app_nil_r. exact H. }
  destruct Hall as (r0 & Hall). apply runs_All_split in Hall.
  destruct Hall as (t0 & pool & rest & trs & Hs & -> & Hf & Hp).
  destruct (prepare_tasks_start s files t0 pool Hs) as (os & Hlen & -> & Hpool).
  exists os, rest. split; [exact Hlen|]. split; [reflexivity|].
  apply (Permutation_Forall (Permutation_sym Hp)).
  exact (finishes_entries _ pool trs Hf Hpool).
Qed.

Lemma Forall2_in_l {X Z} (P : X -> Z -> Prop) xs l x :
  Forall2 P xs l -> In x xs -> exists z, In z l /\ P x z.
Proof.
  induction 1 as [|x' z xs l Hp H IH]; intros Hin; [destruct Hin|].
  destruct Hin as [->|Hin].
  - exists z. split; [now left|exact Hp].
  - destruct (IH Hin) as (z' & Hz & Hpz). exists z'. split; [now right|exact Hpz].
Qed.

(** X14. [Promise.all] cancels nothing: in every execution of
    [prepareFiles], also when it throws because another file failed, the
    task of each input file goes as far as its own calls let it:
    [arrayBuffer()] is called on the file; if that gave bytes, [createData]
    is called on these bytes with the file's Content-Type tag; and if that
    gave an item, [item.sign] is called on it. *)
Theorem prepareFiles_finishes_every_task files s t r :
  runs (prepareFiles files s) t r ->
  forall file,
    In file files ->
    exists o,
      In (Called (ArrayBuffer file) o) t /\
      forall buf,
        o = inr buf ->
        exists o2,
          In (Called (CreateData (Binary buf) s [content_type_tag file]) o2) t /\
          forall item,
            o2 = inr item -> exists o3, In (Called (ItemSign item s) o3) t.
Proof.
  intros H file Hf. apply prepareFiles_tasks in H.
  destruct H as (trs & He & Hp & _).
  destruct (Forall2_in_l _ files trs file He Hf) as ([t' r'] & Htr & Hrun).
  simpl in Hrun.
  assert (Hin : forall x, In x t' -> In x t).
  { intros x Hx. apply (Permutation_in x (Permutation_sym Hp)).
    apply in_concat. exists t'. split; [|exact Hx].
    apply in_map_iff. exists (t', r'). now split. }
  apply prepare_task_runs in Hrun.
  destruct Hrun as [(p & -> & _)|(e & _ & [->|[(buf & ->)|(buf & item & ->)]])].
  - exists (inr (buffer p)). split; [apply Hin; now left|].
    intros buf [= <-]. exists (inr (created p)).
    split; [apply Hin; right; now left|].
    intros item [= <-]. exists (inr (signed p)). apply Hin. right. right. now left.
  - exists (inl e). split; [apply Hin; now left|]. intros buf [=].
  - exists (inr buf). split; [apply Hin; now left|].
    intros buf' [= <-]. exists (inl e). split; [apply Hin; right; now left|].
    intros item [=].
  - exists (inr buf). split; [apply Hin; now left|].
    intros buf' [= <-]. exists (inr item). split; [apply Hin; right; now left|].
    intros item' [= <-]. exists (inl e). apply Hin. right. right. now left.
Qed.

End ReadingOrder.

(** ** The further statements at work *)

Section MoreWitnesses.

Import Demo DemoRuns DemoFaults.
Local Open Scope list_scope.

Lemma distinct_run_runs :
  runs (prepareFiles [notes; photo] 7) (fst distinct_run) (inr distinct_map).
Proof. exact (run_runs answer (prepareFiles [notes; photo] 7) []). Qed.

Lemma distinct_names : NoDup (List.map file_name [notes; photo]).
Proof. simpl. repeat constructor; simpl; intuition discriminate. Qed.

Lemma sign_fails_run_runs :
  runs (prepareFiles [notes; photo] 7) (fst sign_fails_run)
       (inl (SdkThrown "cannot sign"%string)).
Proof. exact (run_runs answer_sign_fails (prepareFiles [notes; photo] 7) []). Qed.

Lemma empty_bundle_upload_run_runs :
  runs (uploadBundle []) (fst empty_bundle_upload_run) (snd empty_bundle_upload_run).
Proof. exact (run_runs answer (uploadBundle []) []). Qed.

Lemma no_manifest_run_runs :
  runs (bundleItems prepped 7) (fst no_manifest_run) (snd no_manifest_run).
Proof.
  exact (run_runs
           (fun past c =>
              match c as c0 return outcome c0 -> outcome c0 with
              | GenerateManifest _ _ => fun _ => inl (SdkThrown "no manifest"%string)
              | _ => fun o => o
              end (answer past c))
           (bundleItems prepped 7) []).
Qed.

Lemma empty_bundle_run_runs :
  runs (fundAndUploadNestedBundle [notes; photo])
       (fst empty_bundle_run) (snd empty_bundle_run).
Proof.
  exact (run_runs answer_empty_bundle (fundAndUploadNestedBundle [notes; photo]) []).
Qed.

(** X1 on two files with different names. *)
Lemma prepareFiles_distinct_names_witness :
  runs (prepareFiles [notes; photo] 7) (fst distinct_run) (inr distinct_map) /\
  NoDup (List.map file_name [notes; photo]) /\
  exists ps,
    List.length ps = List.length [notes; photo] /\
    Permutation (fst distinct_run) (files_steps 7 [notes; photo] ps) /\
    Js.entries distinct_map
    = combine (List.map file_name [notes; photo]) (List.map signed ps) /\
    Js.keys distinct_map = List.map file_name [notes; photo] /\
    Js.values distinct_map = List.map signed ps.
Proof.
  split; [exact distinct_run_runs|]. split; [exact distinct_names|].
  exact (prepareFiles_distinct_names
           [notes; photo] 7 (fst distinct_run) distinct_map
           distinct_run_runs distinct_names).
Defined.

(** X2 on two files called notes.txt. *)
Lemma prepareFiles_keeps_every_name_witness :
  runs (prepareFiles [notes; notes2] 7) (fst same_name_run) (inr same_name_map) /\
  NoDup (Js.keys same_name_map) /\
  forall n, In n (Js.keys same_name_map) <-> In n (List.map file_name [notes; notes2]).
Proof.
  split; [exact same_name_run_runs|].
  exact (prepareFiles_keeps_every_name
           [notes; notes2] 7 (fst same_name_run) same_name_map same_name_run_runs).
Defined.

(** X3 with an SDK whose [item.sign] rejects. *)
Lemma prepareFiles_throws_what_a_call_threw_witness :
  runs (prepareFiles [notes; photo] 7) (fst sign_fails_run)
       (inl (SdkThrown "cannot sign"%string)) /\
  exists file c,
    In file [notes; photo] /\ prepares 7 file c /\
    In (Called c (inl (SdkThrown "cannot sign"%string))) (fst sign_fails_run).
Proof.
  split; [exact sign_fails_run_runs|].
  exact (prepareFiles_throws_what_a_call_threw
           [notes; photo] 7 (fst sign_fails_run) _ sign_fails_run_runs).
Defined.

(** X4 on a bundle without items. *)
Lemma uploadBundle_outcomes_witness :
  runs (uploadBundle []) (fst empty_bundle_upload_run) (snd empty_bundle_upload_run) /\
  snd empty_bundle_upload_run = inl no_last_item /\
  ((exists pre c e,
       fst empty_bundle_upload_run = pre ++ [Called c (inl e)] /\
       all_answered pre /\ snd empty_bundle_upload_run = inl e) \/
   (exists irys u1 u2 u3 x sx rc,
       fst empty_bundle_upload_run = upload_steps [] irys u1 u2 u3 x sx (inr rc) /\
       ((bundle_items [] = [] /\ snd empty_bundle_upload_run = inl no_last_item) \/
        (exists l last, bundle_items [] = l ++ [last] /\
                        snd empty_bundle_upload_run
                        = inr [item_id last; receipt_data_id rc])))).
Proof.
  split; [exact empty_bundle_upload_run_runs|]. split; [reflexivity|].
  exact (uploadBundle_outcomes
           [] (fst empty_bundle_upload_run) (snd empty_bundle_upload_run)
           empty_bundle_upload_run_runs).
Defined.

(** X5 with an SDK whose [generateManifest] rejects. *)
Lemma bundleItems_outcomes_witness :
  runs (bundleItems prepped 7) (fst no_manifest_run) (snd no_manifest_run) /\
  ((exists pre c e,
       fst no_manifest_run = pre ++ [Called c (inl e)] /\ all_answered pre /\
       snd no_manifest_run = inl e /\ existsb is_bundling pre = false) \/
   (exists irys mf mi b,
       fst no_manifest_run = bundle_steps prepped 7 irys mf mi (inr b) /\
       snd no_manifest_run = inr b)).
Proof.
  split; [exact no_manifest_run_runs|].
  exact (bundleItems_outcomes
           prepped 7 (fst no_manifest_run) (snd no_manifest_run)
           no_manifest_run_runs).
Defined.

(** X6 with an SDK that gives back a bundle without items. *)
Lemma answered_executions_witness :
  runs (fundAndUploadNestedBundle [notes; photo])
       (fst empty_bundle_run) (snd empty_bundle_run) /\
  all_answered (fst empty_bundle_run) /\
  exists a tp,
    List.length (prepared a) = List.length [notes; photo] /\
    runs (prepareFiles [notes; photo] (ephemeralSigner a)) tp
         (inr (preppedFiles [notes; photo] a)) /\
    Permutation tp (files_steps (ephemeralSigner a) [notes; photo] (prepared a)) /\
    ((exists l last,
         bundle_items (bundle a) = l ++ [last] /\
         fst empty_bundle_run = answered_around tp [notes; photo] a /\
         snd empty_bundle_run = inr [item_id last; receipt_data_id (receipt a)]) \/
     (bundle_items (bundle a) = [] /\
      fst empty_bundle_run
      = answered_around tp [notes; photo] a ++ [Logged (error_line no_last_item)] /\
      snd empty_bundle_run = inr [""%string; ""%string])).
Proof.
  split; [exact empty_bundle_run_runs|]. split; [reflexivity|].
  exact (answered_executions
           [notes; photo] (fst empty_bundle_run) (snd empty_bundle_run)
           empty_bundle_run_runs (eq_refl : all_answered (fst empty_bundle_run))).
Defined.

(** X7 without a wallet. *)
Lemma nothing_uploaded_after_a_failure_witness :
  runs (fundAndUploadNestedBundle [notes; photo]) (fst failed_run) (snd failed_run) /\
  In (Called GetIrys (inl (SdkThrown "wallet not connected"%string))) (fst failed_run) /\
  List.length (List.filter is_upload (fst failed_run)) <= 1 /\
  forall c e,
    In (Called c (inl e)) (fst failed_run) ->
    is_upload (Called c (inl e)) = false ->
    existsb is_upload (fst failed_run) = false.
Proof.
  split; [exact failed_run_runs|]. split; [simpl; tauto|].
  exact (nothing_uploaded_after_a_failure
           [notes; photo] (fst failed_run) (snd failed_run) failed_run_runs).
Defined.

(** X8 when notes.txt cannot be read: the line is followed by the calls
    that still prepare photo.png. *)
Lemma logs_only_the_caught_error_witness :
  runs (fundAndUploadNestedBundle [notes; photo])
       (fst unreadable_run) (snd unreadable_run) /\
  In (Logged (error_line (SdkThrown "unreadable"%string))) (fst unreadable_run) /\
  forall l,
    In (Logged l) (fst unreadable_run) ->
    snd unreadable_run = inr [""%string; ""%string] /\
    exists e pre post,
      l = error_line e /\
      fst unreadable_run = pre ++ Logged l :: post /\
      existsb is_log (pre ++ post) = false /\
      runs (upload_attempt [notes; photo]) (pre ++ post) (inl e) /\
      (post = [] \/
       exists s t', runs (prepareFiles [notes; photo] s) t' (inl e) /\ incl post t').
Proof.
  split; [exact unreadable_run_runs|]. split; [simpl; tauto|].
  exact (logs_only_the_caught_error
           [notes; photo] (fst unreadable_run) (snd unreadable_run)
           unreadable_run_runs).
Defined.

(** X9 on two files. *)
Lemma one_ephemeral_signer_witness :
  runs (fundAndUploadNestedBundle [notes; photo]) (fst whole_run) (snd whole_run) /\
  forall e s,
    In e (fst whole_run) -> entry_signer e = Some s ->
    exists key rest,
      fst whole_run = Called GenerateJWK (inr key)
                        :: Called (NewArweaveSigner key) (inr s) :: rest /\
      Forall (signed_by s) (fst whole_run).
Proof.
  split; [exact whole_run_runs|].
  exact (one_ephemeral_signer
           [notes; photo] (fst whole_run) (snd whole_run) whole_run_runs).
Defined.

(** X10 on two files. *)
Lemma item_sign_only_on_file_items_witness :
  runs (fundAndUploadNestedBundle [notes; photo]) (fst whole_run) (snd whole_run) /\
  forall item s o,
    In (Called (ItemSign item s) o) (fst whole_run) ->
    exists file buf,
      In file [notes; photo] /\
      In (Called (ArrayBuffer file) (inr buf)) (fst whole_run) /\
      In (Called (CreateData (Binary buf) s [content_type_tag file]) (inr item))
         (fst whole_run).
Proof.
  split; [exact whole_run_runs|].
  exact (item_sign_only_on_file_items
           [notes; photo] (fst whole_run) (snd whole_run) whole_run_runs).
Defined.

(** X11 on two files: nineteen calls. *)
Lemma call_budget_witness :
  runs (fundAndUploadNestedBundle [notes; photo]) (fst whole_run) (snd whole_run) /\
  all_answered (fst whole_run) /\
  List.length (List.filter (fun e => negb (is_log e)) (fst whole_run))
    <= 3 * List.length [notes; photo] + 13 /\
  List.length (fst whole_run) <= 3 * List.length [notes; photo] + 14 /\
  (all_answered (fst whole_run) ->
   List.length (List.filter (fun e => negb (is_log e)) (fst whole_run))
     = 3 * List.length [notes; photo] + 13).
Proof.
  split; [exact whole_run_runs|]. split; [reflexivity|].
  exact (call_budget
           [notes; photo] (fst whole_run) (snd whole_run) whole_run_runs).
Defined.


(** X13 on two files: both files are read, then the items are made. *)
Lemma prepareFiles_reads_every_file_first_witness :
  runs (prepareFiles [notes; photo] 7) (fst distinct_run) (inr distinct_map) /\
  exists os rest,
    List.length os = List.length [notes; photo] /\
    fst distinct_run = reads [notes; photo] os ++ rest /\
    Forall (fun e => is_array_buffer e = false) rest.
Proof.
  split; [exact distinct_run_runs|].
  exact (prepareFiles_reads_every_file_first
           [notes; photo] 7 (fst distinct_run) (inr distinct_map) distinct_run_runs).
Defined.

(** X14 with an SDK whose [item.sign] rejects: photo.png is still read,
    wrapped and handed to [item.sign] when notes.txt has failed. *)
Lemma prepareFiles_finishes_every_task_witness :
  runs (prepareFiles [notes; photo] 7) (fst sign_fails_run)
       (inl (SdkThrown "cannot sign"%string)) /\
  In photo [notes; photo] /\
  exists o,
    In (Called (ArrayBuffer photo) o) (fst sign_fails_run) /\
    forall buf,
      o = inr buf ->
      exists o2,
        In (Called (CreateData (Binary buf) 7 [content_type_tag photo]) o2)
           (fst sign_fails_run) /\
        forall item,
          o2 = inr item ->
          exists o3, In (Called (ItemSign item 7) o3) (fst sign_fails_run).
Proof.
  split; [exact sign_fails_run_runs|]. split; [right; now left|].
  exact (prepareFiles_finishes_every_task (sdk := Demo.sdk)
           [notes; photo] 7 (fst sign_fails_run) _ sign_fails_run_runs
           photo (or_intror (or_introl eq_refl))).
Defined.

End MoreWitnesses.
